(** * Portfolio page controller (script.js): a shallow embedding

    The script is one class, [Portfolio], whose methods react to DOM events
    and timers.  The embedding below keeps the page as an explicit store of
    elements, threads it through a small state-and-exception monad, and
    represents the closures the script hands to the browser (event
    listeners, timer callbacks, the intersection observer callback) as
    first-order data that a dispatcher interprets.

    What stands for the browser:
    - the page is a list of elements in tree order with parent links;
      the script never adds or removes elements, and the elements whose
      text it writes are taken to be leaves;
    - [form.reset()] gives every descendant control of the form its
      default value back;
    - [document.querySelector] on a selector computed at run time (the
      [href] of an anchor) is answered by a function the state carries;
    - time passes in milliseconds; timers that have come due run in the
      order they were created.

    The definitions come first, the properties after them; the sections
    named after the claims settle C1 to C10 of the specification, and the
    ones that follow establish further properties of the code (X1, ...). *)

From Stdlib Require Import ZArith NArith String Ascii List Bool Lia.
From Stdlib Require Import SpecFloat DecimalString.
From stdpp Require Import base option list gmap strings.

Open Scope string_scope.
Open Scope list_scope.

(** ** JavaScript strings

    A JavaScript string is a sequence of UTF-16 code units.  Text that comes
    from the page or the user ([textContent], [value], stored preferences)
    is kept in that form; names the script only compares against its own
    literals (class tokens, ids, attribute names) are Rocq strings. *)

Abbreviation jsstring := (list N).

Definition js (s : string) : jsstring :=
  map N_of_ascii (list_ascii_of_string s).

(** WhiteSpace and LineTerminator code units of ECMAScript: the set that
    [String.prototype.trim] strips and that [\s] matches. *)
Definition is_js_space (c : N) : bool :=
  ((9 <=? c) && (c <=? 13) || (c =? 32) || (c =? 160) || (c =? 5760)
   || (8192 <=? c) && (c <=? 8202) || (c =? 8232) || (c =? 8233)
   || (c =? 8239) || (c =? 8287) || (c =? 12288) || (c =? 65279))%N.

Fixpoint trimStart (s : jsstring) : jsstring :=
  match s with
  | c :: s' => if is_js_space c then trimStart s' else s
  | [] => []
  end.

Definition trimEnd (s : jsstring) : jsstring := rev (trimStart (rev s)).

Definition trim (s : jsstring) : jsstring := trimEnd (trimStart s).

(** [field.charAt(0).toUpperCase() + field.slice(1)] on the script's
    lower-case ASCII field names. *)
Definition toUpperCase_ascii (a : ascii) : ascii :=
  let n := nat_of_ascii a in
  if (97 <=? n)%nat && (n <=? 122)%nat then ascii_of_nat (n - 32) else a.

Definition capitalize (s : string) : string :=
  match s with
  | String a rest => String (toUpperCase_ascii a) rest
  | EmptyString => EmptyString
  end.

(** ** Regular expressions

    Only what [validateEmail]'s pattern uses: character classes,
    concatenation and [+], matched against the whole input (the pattern is
    anchored by [^] and [$] and has no flags).  Matching is by Brzozowski
    derivatives. *)
Module Regex.

Inductive t :=
| Fail
| Eps
| Class (p : N → bool)
| Seq (r1 r2 : t)
| Or (r1 r2 : t)
| Star (r : t).

Definition Plus (r : t) : t := Seq r (Star r).
Definition Char (c : N) : t := Class (N.eqb c).

Fixpoint nullable (r : t) : bool :=
  match r with
  | Fail => false
  | Eps => true
  | Class _ => false
  | Seq r1 r2 => nullable r1 && nullable r2
  | Or r1 r2 => nullable r1 || nullable r2
  | Star _ => true
  end.

Fixpoint deriv (c : N) (r : t) : t :=
  match r with
  | Fail => Fail
  | Eps => Fail
  | Class p => if p c then Eps else Fail
  | Seq r1 r2 =>
      if nullable r1
      then Or (Seq (deriv c r1) r2) (deriv c r2)
      else Seq (deriv c r1) r2
  | Or r1 r2 => Or (deriv c r1) (deriv c r2)
  | Star r1 => Seq (deriv c r1) (Star r1)
  end.

Fixpoint test (r : t) (s : jsstring) : bool :=
  match s with
  | [] => nullable r
  | c :: s' => test (deriv c r) s'
  end.

(** The language a pattern denotes, to state what [test] decides. *)
Inductive lang : t → jsstring → Prop :=
| lang_eps : lang Eps []
| lang_class p c : p c = true → lang (Class p) [c]
| lang_seq r1 r2 s1 s2 : lang r1 s1 → lang r2 s2 → lang (Seq r1 r2) (s1 ++ s2)
| lang_or_l r1 r2 s : lang r1 s → lang (Or r1 r2) s
| lang_or_r r1 r2 s : lang r2 s → lang (Or r1 r2) s
| lang_star_nil r : lang (Star r) []
| lang_star_cons r s1 s2 : lang r s1 → lang (Star r) s2 → lang (Star r) (s1 ++ s2).

End Regex.

(** [[^\s@]]: any code unit that is neither white space nor [@]. *)
Definition not_space_at (c : N) : bool := negb (is_js_space c) && negb (c =? 64)%N.

(** [/^[^\s@]+@[^\s@]+\.[^\s@]+$/] *)
Definition email_re : Regex.t :=
  Regex.Seq (Regex.Plus (Regex.Class not_space_at))
    (Regex.Seq (Regex.Char 64)
       (Regex.Seq (Regex.Plus (Regex.Class not_space_at))
          (Regex.Seq (Regex.Char 46)
             (Regex.Plus (Regex.Class not_space_at))))).

(** [validateEmail(email)], lines 201-204. *)
Definition validateEmail (email : jsstring) : bool :=
  Regex.test email_re email.

(** ** The page

    Elements live in a store indexed by position in tree order, so that a
    handle ([ref]) stays meaningful while the element it names is mutated.
    The script never inserts or removes elements; text-bearing elements
    are taken to be leaves, so [textContent] is a field of its own. *)

Abbreviation ref := nat.

(** IEEE binary64 numbers, for the one arithmetic expression of the script
    that leaves the integers ([index * 0.1]). *)
Definition float64 := spec_float.
Definition float64_mul : float64 → float64 → float64 := SFmul 53 1024.
Definition float64_of_nat (n : nat) : float64 :=
  binary_normalize 53 1024 (Z.of_nat n) 0 false.
(** The literal [0.1]: 0x3FB999999999999A. *)
Definition float64_0_1 : float64 := S754_finite false 7205759403792794 (-56).

(** A CSS time [`${x}s`]. *)
Inductive cssTime := Seconds (x : float64).

Record element := Element {
  tagName : string;
  el_id : string;
  classList : list string;
  attributes : gmap string string;
  parentNode : option ref;
  textContent : jsstring;
  value : jsstring;
  defaultValue : jsstring;
  offsetTop : Z;
  style_display : string;
  style_transitionDelay : option cssTime
}.

Definition with_classList (f : list string → list string) (e : element) : element :=
  Element (tagName e) (el_id e) (f (classList e)) (attributes e) (parentNode e)
    (textContent e) (value e) (defaultValue e) (offsetTop e)
    (style_display e) (style_transitionDelay e).

Definition with_attributes (f : gmap string string → gmap string string)
    (e : element) : element :=
  Element (tagName e) (el_id e) (classList e) (f (attributes e)) (parentNode e)
    (textContent e) (value e) (defaultValue e) (offsetTop e)
    (style_display e) (style_transitionDelay e).

Definition with_textContent (f : jsstring → jsstring) (e : element) : element :=
  Element (tagName e) (el_id e) (classList e) (attributes e) (parentNode e)
    (f (textContent e)) (value e) (defaultValue e) (offsetTop e)
    (style_display e) (style_transitionDelay e).

Definition with_value (v : jsstring) (e : element) : element :=
  Element (tagName e) (el_id e) (classList e) (attributes e) (parentNode e)
    (textContent e) v (defaultValue e) (offsetTop e)
    (style_display e) (style_transitionDelay e).

Definition with_display (v : string) (e : element) : element :=
  Element (tagName e) (el_id e) (classList e) (attributes e) (parentNode e)
    (textContent e) (value e) (defaultValue e) (offsetTop e)
    v (style_transitionDelay e).

Definition with_transitionDelay (v : cssTime) (e : element) : element :=
  Element (tagName e) (el_id e) (classList e) (attributes e) (parentNode e)
    (textContent e) (value e) (defaultValue e) (offsetTop e)
    (style_display e) (Some v).

(** *** DOMTokenList *)

Definition contains (tok : string) (l : list string) : bool :=
  existsb (String.eqb tok) l.

Definition remove_token (tok : string) (l : list string) : list string :=
  List.filter (λ t, negb (String.eqb tok t)) l.

Definition add_token (tok : string) (l : list string) : list string :=
  if contains tok l then l else l ++ [tok].

Definition toggle_token (tok : string) (l : list string) : list string :=
  if contains tok l then remove_token tok l else add_token tok l.

(** *** Selectors used by the script *)

Inductive selector :=
| SelClass (c : string)
| SelId (i : string)
| SelTag (t : string)
| SelAnchorHash.

Definition matches (sel : selector) (e : element) : bool :=
  match sel with
  | SelClass c => contains c (classList e)
  | SelId i => String.eqb (el_id e) i
  | SelTag t => String.eqb (tagName e) t
  | SelAnchorHash =>
      String.eqb (tagName e) "a" &&
      match attributes e !! "href" with
      | Some h => String.prefix "#" h
      | None => false
      end
  end.

Fixpoint indices_from {A} (p : A → bool) (i : nat) (l : list A) : list nat :=
  match l with
  | [] => []
  | x :: l' =>
      if p x then i :: indices_from p (S i) l' else indices_from p (S i) l'
  end.

Definition select_all (sel : selector) (d : list element) : list ref :=
  indices_from (matches sel) 0 d.

Fixpoint has_ancestor (d : list element) (fuel : nat) (anc r : ref) : bool :=
  match fuel with
  | O => false
  | S k =>
      match d !! r with
      | Some e =>
          match parentNode e with
          | Some p => Nat.eqb p anc || has_ancestor d k anc p
          | None => false
          end
      | None => false
      end
  end.

Definition descendant_of (d : list element) (anc r : ref) : bool :=
  has_ancestor d (length d) anc r.

Definition same_parent (p : ref) (e : element) : bool :=
  match parentNode e with
  | Some q => Nat.eqb p q
  | None => false
  end.

Definition next_sibling (d : list element) (r : ref) : option ref :=
  match d !! r with
  | Some e =>
      match parentNode e with
      | Some p => head (indices_from (same_parent p) (S r) (drop (S r) d))
      | None => None
      end
  | None => None
  end.

(** ** Browser state *)

Inductive exn := TypeError | SyntaxError.

Inductive outcome (A : Type) :=
| Ok (a : A)
| Throw (e : exn).
Arguments Ok {A} a.
Arguments Throw {A} e.

Inductive eventTarget := Window | Node (r : ref).

(** The arrow functions passed to [addEventListener]. *)
Inductive handler :=
| OnHamburgerClick                (* () => this.toggleMobileMenu() *)
| OnDarkModeClick                 (* () => this.toggleDarkMode() *)
| OnAnchorClick (anchor : ref)    (* e => this.handleSmoothScroll(e, anchor) *)
| OnFormSubmit                    (* e => this.handleFormSubmit(e) *)
| OnWindowScroll.                 (* () => this.handleNavbarScroll() *)

Record listener := Listener {
  l_target : eventTarget;
  l_type : string;
  l_handler : handler
}.

(** The arrow functions passed to [setTimeout] and [setInterval], with the
    variables they close over. *)
Inductive callback :=
| HideElement (element : ref)
| TypingTick (typingText : ref) (text : jsstring) (i : nat).

Record timer := Timer {
  timer_id : nat;
  due : N;
  period : option N;
  action : callback
}.

(** The fields [init] stores on the [Portfolio] instance. *)
Record controller := Controller {
  navbar : option ref;
  hamburger : option ref;
  mobileMenu : option ref;
  darkModeToggle : option ref;
  contactForm : option ref;
  yearElement : option ref
}.

Record state := State {
  dom : list element;
  body : ref;
  this : controller;
  listeners : list listener;
  localStorage : gmap string jsstring;
  prefersDark : bool;
  css_engine : string → list element → outcome (option ref);
  scrollY : Z;
  scrollRequest : option Z;
  currentYear : Z;
  now : N;
  nextTimerId : nat;
  timers : list timer;
  observer : option (list ref);
  defaultPrevented : bool
}.

Definition set_dom (f : list element → list element) (s : state) : state :=
  State (f (dom s)) (body s) (this s) (listeners s) (localStorage s)
    (prefersDark s) (css_engine s) (scrollY s) (scrollRequest s)
    (currentYear s) (now s) (nextTimerId s) (timers s) (observer s)
    (defaultPrevented s).

Definition set_this (f : controller → controller) (s : state) : state :=
  State (dom s) (body s) (f (this s)) (listeners s) (localStorage s)
    (prefersDark s) (css_engine s) (scrollY s) (scrollRequest s)
    (currentYear s) (now s) (nextTimerId s) (timers s) (observer s)
    (defaultPrevented s).

Definition set_listeners (f : list listener → list listener) (s : state) : state :=
  State (dom s) (body s) (this s) (f (listeners s)) (localStorage s)
    (prefersDark s) (css_engine s) (scrollY s) (scrollRequest s)
    (currentYear s) (now s) (nextTimerId s) (timers s) (observer s)
    (defaultPrevented s).

Definition set_localStorage (f : gmap string jsstring → gmap string jsstring)
    (s : state) : state :=
  State (dom s) (body s) (this s) (listeners s) (f (localStorage s))
    (prefersDark s) (css_engine s) (scrollY s) (scrollRequest s)
    (currentYear s) (now s) (nextTimerId s) (timers s) (observer s)
    (defaultPrevented s).

Definition set_scrollY (y : Z) (s : state) : state :=
  State (dom s) (body s) (this s) (listeners s) (localStorage s)
    (prefersDark s) (css_engine s) y (scrollRequest s)
    (currentYear s) (now s) (nextTimerId s) (timers s) (observer s)
    (defaultPrevented s).

Definition set_scrollRequest (y : Z) (s : state) : state :=
  State (dom s) (body s) (this s) (listeners s) (localStorage s)
    (prefersDark s) (css_engine s) (scrollY s) (Some y)
    (currentYear s) (now s) (nextTimerId s) (timers s) (observer s)
    (defaultPrevented s).

Definition set_now (t : N) (s : state) : state :=
  State (dom s) (body s) (this s) (listeners s) (localStorage s)
    (prefersDark s) (css_engine s) (scrollY s) (scrollRequest s)
    (currentYear s) t (nextTimerId s) (timers s) (observer s)
    (defaultPrevented s).

Definition set_nextTimerId (n : nat) (s : state) : state :=
  State (dom s) (body s) (this s) (listeners s) (localStorage s)
    (prefersDark s) (css_engine s) (scrollY s) (scrollRequest s)
    (currentYear s) (now s) n (timers s) (observer s)
    (defaultPrevented s).

Definition set_timers (f : list timer → list timer) (s : state) : state :=
  State (dom s) (body s) (this s) (listeners s) (localStorage s)
    (prefersDark s) (css_engine s) (scrollY s) (scrollRequest s)
    (currentYear s) (now s) (nextTimerId s) (f (timers s)) (observer s)
    (defaultPrevented s).

Definition set_observer (o : option (list ref)) (s : state) : state :=
  State (dom s) (body s) (this s) (listeners s) (localStorage s)
    (prefersDark s) (css_engine s) (scrollY s) (scrollRequest s)
    (currentYear s) (now s) (nextTimerId s) (timers s) o
    (defaultPrevented s).

Definition set_defaultPrevented (b : bool) (s : state) : state :=
  State (dom s) (body s) (this s) (listeners s) (localStorage s)
    (prefersDark s) (css_engine s) (scrollY s) (scrollRequest s)
    (currentYear s) (now s) (nextTimerId s) (timers s) (observer s) b.

Definition blank : element :=
  Element "" "" [] ∅ None [] [] [] 0 "" None.

(** The element a handle names. *)
Definition get (d : list element) (r : ref) : element := default blank (d !! r).
Definition elem (s : state) (r : ref) : element := get (dom s) r.

(** ** The monad of script code: state plus exceptions

    A thrown exception keeps the mutations made before it. *)

Definition M (A : Type) : Type := state → outcome A * state.

Definition ret {A} (a : A) : M A := λ s, (Ok a, s).

Definition bind {A B} (m : M A) (k : A → M B) : M B :=
  λ s, match m s with
       | (Ok a, s') => k a s'
       | (Throw e, s') => (Throw e, s')
       end.

Definition throw {A} (e : exn) : M A := λ s, (Throw e, s).
Definition gets {A} (f : state → A) : M A := λ s, (Ok (f s), s).
Definition modify (f : state → state) : M unit := λ s, (Ok tt, f s).

Declare Scope js_scope.
Delimit Scope js_scope with js.
Notation "'let*' x ':=' m 'in' k" := (bind m (λ x, k))
  (at level 10, x binder, m at level 100, k at level 200) : js_scope.
Notation "m ';;' k" := (bind m (λ _, k))
  (at level 100, k at level 200, right associativity) : js_scope.
Open Scope js_scope.

(** Running a piece of script for its effect on the page. *)
Definition exec {A} (m : M A) (s : state) : state := snd (m s).
Definition result {A} (m : M A) (s : state) : outcome A := fst (m s).

(** Property access on a possibly-null reference. *)
Definition deref (o : option ref) : M ref :=
  match o with
  | Some r => ret r
  | None => throw TypeError
  end.

Fixpoint forEach_from {A} (i : nat) (l : list A) (f : A → nat → M unit) : M unit :=
  match l with
  | [] => ret tt
  | x :: l' => f x i;; forEach_from (S i) l' f
  end.

Definition forEach {A} (l : list A) (f : A → nat → M unit) : M unit :=
  forEach_from 0 l f.

(** ** DOM and browser primitives *)

Definition querySelectorAll (sel : selector) : M (list ref) :=
  gets (λ s, select_all sel (dom s)).

Definition querySelector (sel : selector) : M (option ref) :=
  gets (λ s, head (select_all sel (dom s))).

Definition getElementById (i : string) : M (option ref) :=
  querySelector (SelId i).

(** [element.querySelector(sel)]: the first descendant that matches. *)
Definition element_querySelector (r : ref) (sel : selector) : M (option ref) :=
  gets (λ s, head (List.filter (descendant_of (dom s) r) (select_all sel (dom s)))).

(** [document.querySelector(text)] for a selector computed at run time. *)
Definition querySelector_text (text : string) : M (option ref) :=
  λ s, (css_engine s text (dom s), s).

Definition update (r : ref) (f : element → element) : M unit :=
  modify (set_dom (alter f r)).

Definition classList_add (r : ref) (tok : string) : M unit :=
  update r (with_classList (add_token tok)).

Definition classList_remove (r : ref) (tok : string) : M unit :=
  update r (with_classList (remove_token tok)).

Definition classList_contains (r : ref) (tok : string) : M bool :=
  gets (λ s, contains tok (classList (elem s r))).

(** [classList.toggle(tok)]: returns whether the token is present afterwards. *)
Definition classList_toggle (r : ref) (tok : string) : M bool :=
  let* present := classList_contains r tok in
  if present
  then classList_remove r tok;; ret false
  else classList_add r tok;; ret true.

(** [classList.toggle(tok, force)] *)
Definition classList_toggle_force (r : ref) (tok : string) (force : bool) : M bool :=
  (if force then classList_add r tok else classList_remove r tok);;
  ret force.

Definition getAttribute (r : ref) (name : string) : M (option string) :=
  gets (λ s, attributes (elem s r) !! name).

Definition setAttribute (r : ref) (name v : string) : M unit :=
  update r (with_attributes (insert name v)).

Definition get_textContent (r : ref) : M jsstring :=
  gets (λ s, textContent (elem s r)).

Definition set_textContent (r : ref) (v : jsstring) : M unit :=
  update r (with_textContent (λ _, v)).

Definition get_value (r : ref) : M jsstring :=
  gets (λ s, value (elem s r)).

Definition get_nextElementSibling (r : ref) : M (option ref) :=
  gets (λ s, next_sibling (dom s) r).

Definition set_style_display (r : ref) (v : string) : M unit :=
  update r (with_display v).

Definition set_style_transitionDelay (r : ref) (v : cssTime) : M unit :=
  update r (with_transitionDelay v).

(** [form.reset()]: every control owned by the form goes back to its
    default value. *)
Definition reset_controls (form : ref) (d : list element) : list element :=
  imap (λ i e, if descendant_of d form i then with_value (defaultValue e) e else e) d.

Definition form_reset (form : ref) : M unit :=
  modify (set_dom (reset_controls form)).

Definition preventDefault : M unit :=
  modify (set_defaultPrevented true).

Definition addEventListener (tgt : eventTarget) (type : string) (h : handler) : M unit :=
  modify (set_listeners (λ l, l ++ [Listener tgt type h])).

Definition localStorage_getItem (key : string) : M (option jsstring) :=
  gets (λ s, localStorage s !! key).

Definition localStorage_setItem (key : string) (v : jsstring) : M unit :=
  modify (set_localStorage (insert key v)).

Definition window_scrollTo (top : Z) : M unit :=
  modify (set_scrollRequest top).

(** [setTimeout] and [setInterval] return the id of the timer they create. *)
Definition schedule (cb : callback) (delay : N) (repeat : bool) : M nat :=
  λ s, let tid := nextTimerId s in
       (Ok tid,
        set_nextTimerId (S tid)
          (set_timers
             (λ l, l ++ [Timer tid (now s + delay)
                           (if repeat then Some delay else None) cb]) s)).

Definition setTimeout (cb : callback) (delay : N) : M nat := schedule cb delay false.
Definition setInterval (cb : callback) (delay : N) : M nat := schedule cb delay true.

Definition clearInterval (tid : nat) : M unit :=
  modify (set_timers (List.filter (λ t, negb (Nat.eqb (timer_id t) tid)))).

(** A [new IntersectionObserver(...)] starts with no targets. *)
Definition new_IntersectionObserver : M unit :=
  modify (set_observer (Some [])).

Definition observe (r : ref) : M unit :=
  modify (λ s, set_observer
     (option_map (λ l, if existsb (Nat.eqb r) l then l else l ++ [r]) (observer s)) s).

Definition unobserve (r : ref) : M unit :=
  modify (λ s, set_observer
     (option_map (List.filter (λ x, negb (Nat.eqb r x))) (observer s)) s).

(** [String(n)] for an integer. *)
Definition js_of_Z (z : Z) : jsstring := js (NilZero.string_of_int (Z.to_int z)).

(** [text.charAt(i)]: one code unit, or the empty string past the end. *)
Definition charAt (text : jsstring) (i : nat) : jsstring := take 1 (drop i text).

Definition string_of_bool (b : bool) : string := if b then "true" else "false".

(** [!s] for a possibly-null string: null and the empty string are falsy. *)
Definition falsy (o : option jsstring) : bool :=
  match o with
  | None => true
  | Some [] => true
  | Some (_ :: _) => false
  end.

Definition jsstring_eqb (a b : jsstring) : bool := bool_decide (a = b).

Definition strict_eq (o : option jsstring) (lit : string) : bool :=
  match o with
  | Some v => jsstring_eqb v (js lit)
  | None => false
  end.

(** ** class Portfolio *)

Definition with_navbar (v : option ref) (c : controller) : controller :=
  Controller v (hamburger c) (mobileMenu c) (darkModeToggle c) (contactForm c) (yearElement c).
Definition with_hamburger (v : option ref) (c : controller) : controller :=
  Controller (navbar c) v (mobileMenu c) (darkModeToggle c) (contactForm c) (yearElement c).
Definition with_mobileMenu (v : option ref) (c : controller) : controller :=
  Controller (navbar c) (hamburger c) v (darkModeToggle c) (contactForm c) (yearElement c).
Definition with_darkModeToggle (v : option ref) (c : controller) : controller :=
  Controller (navbar c) (hamburger c) (mobileMenu c) v (contactForm c) (yearElement c).
Definition with_contactForm (v : option ref) (c : controller) : controller :=
  Controller (navbar c) (hamburger c) (mobileMenu c) (darkModeToggle c) v (yearElement c).
Definition with_yearElement (v : option ref) (c : controller) : controller :=
  Controller (navbar c) (hamburger c) (mobileMenu c) (darkModeToggle c) (contactForm c) v.

(** The body of the interval callback of [typeEffect]; [i] is the closure's
    counter, returned updated. *)
Definition typingTick (typingInterval : nat) (typingText : ref)
    (text : jsstring) (i : nat) : M nat :=
  if (i <? length text)%nat then
    let* shown := get_textContent typingText in
    set_textContent typingText (shown ++ charAt text i);;
    ret (S i)
  else
    clearInterval typingInterval;;
    ret i.

(** [typeEffect()], lines 59-73. *)
Definition typeEffect : M unit :=
  let* typingText := querySelector (SelClass "typing-text") in
  let* typingText := deref typingText in
  let* text := get_textContent typingText in
  set_textContent typingText [];;
  let* typingInterval := setInterval (TypingTick typingText text 0) 100 in
  ret tt.

(** [toggleMobileMenu()], lines 76-83. *)
Definition toggleMobileMenu : M unit :=
  let* menu := gets (λ s, mobileMenu (this s)) in
  let* menu := deref menu in
  let* _ := classList_toggle menu "active" in
  let* burger := gets (λ s, hamburger (this s)) in
  let* burger := deref burger in
  let* _ := classList_toggle burger "active" in
  let* attr := getAttribute burger "aria-expanded" in
  let isExpanded := bool_decide (attr = Some "true") in
  setAttribute burger "aria-expanded" (string_of_bool (negb isExpanded)).

(** [updateDarkModeIcon(isDarkMode)], lines 103-107. *)
Definition updateDarkModeIcon (isDarkMode : bool) : M unit :=
  let* toggle := gets (λ s, darkModeToggle (this s)) in
  let* toggle := deref toggle in
  let* icon := element_querySelector toggle (SelTag "i") in
  let* icon := deref icon in
  let* _ := classList_toggle_force icon "fa-moon" (negb isDarkMode) in
  let* _ := classList_toggle_force icon "fa-sun" isDarkMode in
  ret tt.

(** [initDarkMode()], lines 86-95. *)
Definition initDarkMode : M unit :=
  let* savedMode := localStorage_getItem "darkMode" in
  let* systemPrefersDark := gets prefersDark in
  if strict_eq savedMode "dark" || (falsy savedMode && systemPrefersDark) then
    let* b := gets body in
    classList_add b "dark-mode";;
    updateDarkModeIcon true
  else ret tt.

(** [toggleDarkMode()], lines 97-101. *)
Definition toggleDarkMode : M unit :=
  let* b := gets body in
  let* isDarkMode := classList_toggle b "dark-mode" in
  updateDarkModeIcon isDarkMode;;
  localStorage_setItem "darkMode" (js (if isDarkMode then "dark" else "light")).

(** [handleSmoothScroll(e, anchor)], lines 110-126.  A null [href] is
    stringified by [querySelector]. *)
Definition handleSmoothScroll (anchor : ref) : M unit :=
  preventDefault;;
  let* targetId := getAttribute anchor "href" in
  let* targetElement := querySelector_text (default "null" targetId) in
  match targetElement with
  | Some target =>
      let* top := gets (λ s, offsetTop (elem s target)) in
      window_scrollTo (top - 80);;
      let* menu := gets (λ s, mobileMenu (this s)) in
      match menu with
      | Some m =>
          let* active := classList_contains m "active" in
          if active then toggleMobileMenu else ret tt
      | None => ret tt
      end
  | None => ret tt
  end.

(** [handleNavbarScroll()], lines 129-135. *)
Definition handleNavbarScroll : M unit :=
  let* y := gets scrollY in
  if (50 <? y)%Z then
    let* nav := gets (λ s, navbar (this s)) in
    let* nav := deref nav in
    classList_add nav "scrolled"
  else
    let* nav := gets (λ s, navbar (this s)) in
    let* nav := deref nav in
    classList_remove nav "scrolled".

(** The callback given to [new IntersectionObserver]; an entry is a pair of
    [entry.target] and [entry.isIntersecting]. *)
Definition observerCallback (entries : list (ref * bool)) : M unit :=
  forEach entries (λ entry _,
    if snd entry then
      classList_add (fst entry) "visible";;
      unobserve (fst entry)
    else ret tt).

(** [setupScrollAnimations()], lines 138-160. *)
Definition setupScrollAnimations : M unit :=
  let* fadeElements := querySelectorAll (SelClass "fade-in") in
  if (0 <? length fadeElements)%nat then
    new_IntersectionObserver;;
    forEach fadeElements (λ element index,
      set_style_transitionDelay element
        (Seconds (float64_mul (float64_of_nat index) float64_0_1));;
      observe element)
  else ret tt.

(** [showError(input, message)], lines 195-199. *)
Definition showError (input : ref) (message : jsstring) : M unit :=
  let* errorElement := get_nextElementSibling input in
  let* errorElement := deref errorElement in
  set_textContent errorElement message;;
  classList_add input "error".

(** [showSuccessMessage(element)], lines 206-213. *)
Definition showSuccessMessage (element : option ref) : M unit :=
  let* element := deref element in
  set_textContent element
    (js "Thank you for your message! I will get back to you soon.");;
  set_style_display element "block";;
  let* _ := setTimeout (HideElement element) 5000 in
  ret tt.

(** One round of the [forEach] over the field names; [isValid] is the
    local flag of [handleFormSubmit], returned updated. *)
Definition validateField (isValid : bool) (field : string) : M bool :=
  let* input := getElementById field in
  let* input := deref input in
  let* raw := get_value input in
  let formData_field := trim raw in
  if falsy (Some formData_field) then
    showError input (js (capitalize field ++ " is required"));;
    ret false
  else if String.eqb field "email" && negb (validateEmail formData_field) then
    showError input (js "Please enter a valid email");;
    ret false
  else ret isValid.

Fixpoint validateFields (isValid : bool) (fields : list string) : M bool :=
  match fields with
  | [] => ret isValid
  | field :: rest =>
      let* isValid := validateField isValid field in
      validateFields isValid rest
  end.

(** [handleFormSubmit(e)], lines 163-193. *)
Definition handleFormSubmit : M unit :=
  preventDefault;;
  let* successMessage := getElementById "form-success" in
  let* errors := querySelectorAll (SelClass "error-message") in
  forEach errors (λ el _, set_textContent el []);;
  let* isValid := validateFields true ["name"; "email"; "message"] in
  if isValid then
    showSuccessMessage successMessage;;
    let* form := gets (λ s, contactForm (this s)) in
    let* form := deref form in
    form_reset form
  else ret tt.

(** [setCopyrightYear()], lines 216-220. *)
Definition setCopyrightYear : M unit :=
  let* el := gets (λ s, yearElement (this s)) in
  match el with
  | Some y =>
      let* year := gets currentYear in
      set_textContent y (js_of_Z year)
  | None => ret tt
  end.

(** [setupEventListeners()], lines 39-56. *)
Definition setupEventListeners : M unit :=
  let* burger := gets (λ s, hamburger (this s)) in
  match burger with
  | Some h => addEventListener (Node h) "click" OnHamburgerClick
  | None => ret tt
  end;;
  let* toggle := gets (λ s, darkModeToggle (this s)) in
  match toggle with
  | Some t => addEventListener (Node t) "click" OnDarkModeClick
  | None => ret tt
  end;;
  let* anchors := querySelectorAll SelAnchorHash in
  forEach anchors (λ anchor _,
    addEventListener (Node anchor) "click" (OnAnchorClick anchor));;
  let* form := gets (λ s, contactForm (this s)) in
  match form with
  | Some f => addEventListener (Node f) "submit" OnFormSubmit
  | None => ret tt
  end;;
  addEventListener Window "scroll" OnWindowScroll.

(** [init()], lines 18-37. *)
Definition init : M unit :=
  let* r := querySelector (SelClass "navbar") in
  modify (set_this (with_navbar r));;
  let* r := querySelector (SelClass "hamburger") in
  modify (set_this (with_hamburger r));;
  let* r := querySelector (SelClass "mobile-menu") in
  modify (set_this (with_mobileMenu r));;
  let* r := querySelector (SelClass "dark-mode-toggle") in
  modify (set_this (with_darkModeToggle r));;
  let* r := getElementById "contact-form" in
  modify (set_this (with_contactForm r));;
  let* r := getElementById "year" in
  modify (set_this (with_yearElement r));;
  setupEventListeners;;
  setupScrollAnimations;;
  setCopyrightYear;;
  initDarkMode;;
  let* typing := querySelector (SelClass "typing-text") in
  match typing with
  | Some _ => typeEffect
  | None => ret tt
  end.

(** ** The event loop *)

Definition run_handler (h : handler) : M unit :=
  match h with
  | OnHamburgerClick => toggleMobileMenu
  | OnDarkModeClick => toggleDarkMode
  | OnAnchorClick anchor => handleSmoothScroll anchor
  | OnFormSubmit => handleFormSubmit
  | OnWindowScroll => handleNavbarScroll
  end.

Definition eventTarget_eqb (a b : eventTarget) : bool :=
  match a, b with
  | Window, Window => true
  | Node x, Node y => Nat.eqb x y
  | _, _ => false
  end.

Definition listens (tgt : eventTarget) (type : string) (l : listener) : bool :=
  eventTarget_eqb (l_target l) tgt && String.eqb (l_type l) type.

(** Listeners run in registration order; an exception in one is reported
    by the browser and does not stop the next. *)
Definition dispatch (tgt : eventTarget) (type : string) (s : state) : state :=
  fold_left
    (λ s l, if listens tgt type l then exec (run_handler (l_handler l)) s else s)
    (listeners s) (set_defaultPrevented false s).

(** Runs a timer callback; the result is the closure with its variables
    as the call left them. *)
Definition run_callback (tid : nat) (cb : callback) : M callback :=
  match cb with
  | HideElement element =>
      set_style_display element "none";;
      ret cb
  | TypingTick typingText text i =>
      let* i' := typingTick tid typingText text i in
      ret (TypingTick typingText text i')
  end.

(** After a timer has run: a timeout is dropped, an interval that was not
    cleared is re-armed one period later. *)
Definition rearm (tid : nat) (cb : callback) (t : timer) : option timer :=
  if Nat.eqb (timer_id t) tid then
    match period t with
    | Some p => Some (Timer tid (due t + p) (Some p) cb)
    | None => None
    end
  else Some t.

Definition fire (t : timer) (s : state) : state :=
  match run_callback (timer_id t) (action t) s with
  | (Ok cb, s') => set_timers (omap (rearm (timer_id t) cb)) s'
  | (Throw _, s') => set_timers (omap (rearm (timer_id t) (action t))) s'
  end.

Definition is_due (t_now : N) (t : timer) : bool := (due t <=? t_now)%N.

(** Fires the timer with the given id if it is still pending and due. *)
Definition fire_id (tid : nat) (s : state) : state :=
  match List.find (λ t, Nat.eqb (timer_id t) tid) (timers s) with
  | Some t => if is_due (now s) t then fire t s else s
  | None => s
  end.

(** One millisecond passes: the timers that have come due run in the
    order they were created. *)
Definition tick (s : state) : state :=
  let s1 := set_now (N.succ (now s)) s in
  fold_left (λ s tid, fire_id tid s)
    (map timer_id (List.filter (is_due (now s1)) (timers s1))) s1.

Definition elapse (ms : N) (s : state) : state := N.iter ms tick s.

(** What the browser and the user can do to a loaded page. *)
Inductive event :=
| Click (target : ref)
| Submit (target : ref)
| Scroll (y : Z)
| Intersect (entries : list (ref * bool))
| Input (target : ref) (text : jsstring)
| Elapse (ms : N).

Definition step (ev : event) (s : state) : state :=
  match ev with
  | Click r => dispatch (Node r) "click" s
  | Submit r => dispatch (Node r) "submit" s
  | Scroll y => dispatch Window "scroll" (set_scrollY y s)
  | Intersect entries =>
      match observer s with
      | Some _ => exec (observerCallback entries) s
      | None => s
      end
  | Input r text => set_dom (alter (with_value text) r) s
  | Elapse ms => elapse ms s
  end.

(** The states a page goes through under a sequence of events, the
    starting state first. *)
Fixpoint trace (evs : list event) (s : state) : list state :=
  s :: match evs with
       | [] => []
       | ev :: evs' => trace evs' (step ev s)
       end.

(** The [DOMContentLoaded] listener: [new Portfolio()]. *)
Definition load (s : state) : state := exec init s.

(** A page as the browser hands it to the script: markup, stored
    preferences and environment, nothing scheduled or bound yet. *)
Definition page (d : list element) (b : ref) (storage : gmap string jsstring)
    (dark : bool) (engine : string → list element → outcome (option ref))
    (year : Z) : state :=
  State d b (Controller None None None None None None) [] storage dark engine
    0 None year 0 0 [] None false.

(** ** A concrete page

    Markup in the shape the script expects, used to run the embedding. *)
Module Sample.

Definition node (tag i : string) (classes : list string)
    (attrs : list (string * string)) (parent : option ref)
    (text : string) : element :=
  Element tag i classes (list_to_map attrs) parent (js text) [] [] 0 "" None.

Definition markup : list element :=
  [ node "body" "" [] [] None "";
    node "nav" "" ["navbar"] [] (Some 0) "";
    node "button" "" ["hamburger"] [("aria-expanded", "false")] (Some 1) "";
    node "div" "" ["mobile-menu"] [] (Some 1) "";
    node "a" "" [] [("href", "#about")] (Some 3) "About";
    node "button" "" ["dark-mode-toggle"] [] (Some 1) "";
    node "i" "" ["fas"; "fa-moon"] [] (Some 5) "";
    node "h1" "" ["typing-text"] [] (Some 0) "Hi!";
    node "section" "about" ["fade-in"] [] (Some 0) "";
    node "section" "" ["fade-in"] [] (Some 0) "";
    node "form" "contact-form" [] [] (Some 0) "";
    node "input" "name" [] [] (Some 10) "";
    node "span" "" ["error-message"] [] (Some 10) "";
    node "input" "email" [] [] (Some 10) "";
    node "span" "" ["error-message"] [] (Some 10) "";
    node "textarea" "message" [] [] (Some 10) "";
    node "span" "" ["error-message"] [] (Some 10) "";
    node "div" "form-success" [] [] (Some 10) "";
    node "span" "year" [] [] (Some 0) "" ].

(** Selector engine for the sample: [#about] is the only target. *)
Definition engine (text : string) (d : list element) : outcome (option ref) :=
  if String.eqb text "#about" then Ok (head (select_all (SelId "about") d))
  else if String.eqb text "#" then Throw SyntaxError
  else Ok None.

Definition fresh (d : list element) (storage : gmap string jsstring)
    (dark : bool) : state :=
  page d 0 storage dark engine 2024.

Definition start : state := load (fresh markup ∅ false).

(** The markup with element [r] replaced by a plain [div]: a page that
    lacks that region. *)
Definition without (r : ref) (d : list element) : list element :=
  <[r := node "div" "" [] [] (Some 0) ""]> d.

(** The sample markup with the controller's fields bound as [init] binds
    them, before any feature has run. *)
Definition bound (storage : gmap string jsstring) (dark : bool) : state :=
  set_this (λ _, this start) (fresh markup storage dark).

Definition fill (name email message : string) (s : state) : state :=
  step (Input 15 (js message)) (step (Input 13 (js email)) (step (Input 11 (js name)) s)).

End Sample.

(** ** Observations on the page, used to state the properties *)

Definition has_class (s : state) (r : ref) (tok : string) : bool :=
  contains tok (classList (elem s r)).

(** The menu panel is shown. *)
Definition menu_open (s : state) : bool :=
  match mobileMenu (this s) with
  | Some m => has_class s m "active"
  | None => false
  end.

(** The hamburger carries [aria-expanded="true"]. *)
Definition marked_expanded (s : state) : bool :=
  match hamburger (this s) with
  | Some h => bool_decide (attributes (elem s h) !! "aria-expanded" = Some "true")
  | None => false
  end.

Definition dark_visuals (s : state) : bool := has_class s (body s) "dark-mode".

Definition stored_preference (s : state) : option jsstring :=
  localStorage s !! "darkMode".

(** The icon inside the theme toggle, as [updateDarkModeIcon] finds it. *)
Definition theme_icon (s : state) : option ref :=
  match darkModeToggle (this s) with
  | Some t =>
      head (List.filter (descendant_of (dom s) t) (select_all (SelTag "i") (dom s)))
  | None => None
  end.

Definition visible (s : state) (r : ref) : bool := has_class s r "visible".

Definition observed (s : state) (r : ref) : Prop :=
  ∃ l, observer s = Some l ∧ r ∈ l.

Definition icon_sun (s : state) : bool :=
  match theme_icon s with
  | Some i => has_class s i "fa-sun"
  | None => false
  end.

Definition icon_moon (s : state) : bool :=
  match theme_icon s with
  | Some i => has_class s i "fa-moon"
  | None => false
  end.

Inductive theme := Dark | Light.

Definition is_dark (t : theme) : bool :=
  match t with Dark => true | Light => false end.

(** What [localStorage] holds for a preference, as [toggleDarkMode] writes it. *)
Definition stored_as (o : option theme) : option jsstring :=
  match o with
  | Some Dark => Some (js "dark")
  | Some Light => Some (js "light")
  | None => None
  end.

(** The rule in the specification's words: the stored preference if
    present, else the ambient scheme preference, else light. *)
Definition theme_on_load (stored : option theme) (ambient_dark : bool) : theme :=
  match stored with
  | Some t => t
  | None => if ambient_dark then Dark else Light
  end.

Definition theme_literal (dark : bool) : jsstring :=
  js (if dark then "dark" else "light").

(** The contact form's markup as the script relies on it: the three
    fields are found by id, each is followed by a sibling element, and that
    sibling carries the [error-message] class. *)
Record form_markup (s : state) (name_in name_err email_in email_err
    message_in message_err : ref) : Prop := FormMarkup {
  fm_name : head (select_all (SelId "name") (dom s)) = Some name_in;
  fm_email : head (select_all (SelId "email") (dom s)) = Some email_in;
  fm_message : head (select_all (SelId "message") (dom s)) = Some message_in;
  fm_name_err : next_sibling (dom s) name_in = Some name_err;
  fm_email_err : next_sibling (dom s) email_in = Some email_err;
  fm_message_err : next_sibling (dom s) message_in = Some message_err;
  fm_name_cls : has_class s name_err "error-message" = true;
  fm_email_cls : has_class s email_err "error-message" = true;
  fm_message_cls : has_class s message_err "error-message" = true
}.

(** The rest of the form's markup: the success element, the form the
    controller holds, and the three fields being controls of that form
    that start out empty. *)
Record reset_markup (s : state) (sx form name_in email_in message_in : ref) : Prop :=
  ResetMarkup {
  rm_success : head (select_all (SelId "form-success") (dom s)) = Some sx;
  rm_form : contactForm (this s) = Some form;
  rm_name : descendant_of (dom s) form name_in = true;
  rm_email : descendant_of (dom s) form email_in = true;
  rm_message : descendant_of (dom s) form message_in = true;
  rm_name_default : defaultValue (elem s name_in) = [];
  rm_email_default : defaultValue (elem s email_in) = [];
  rm_message_default : defaultValue (elem s message_in) = []
}.

(** The trimmed value of a field, as [handleFormSubmit] reads it. *)
Definition entered (s : state) (input : ref) : jsstring := trim (value (elem s input)).

(** The three fields hold what a submit accepts. *)
Definition acceptable (s : state) (name_in email_in message_in : ref) : Prop :=
  entered s name_in ≠ [] ∧ entered s email_in ≠ [] ∧
  validateEmail (entered s email_in) = true ∧ entered s message_in ≠ [].

(** The timeout [showSuccessMessage] schedules when called in state [s]. *)
Definition hide_timer (s : state) (sx : ref) : timer :=
  Timer (nextTimerId s) (now s + 5000) None (HideElement sx).

Definition success_text : jsstring :=
  js "Thank you for your message! I will get back to you soon.".

(** Timer ids are handed out in increasing order and never reused. *)
Definition timers_wf (s : state) : Prop :=
  NoDup (timer_id <$> timers s) ∧ ∀ t, t ∈ timers s → timer_id t < nextTimerId s.

(** The timer is a timeout that hides element [r]. *)
Definition hides (r : ref) (t : timer) : Prop := action t = HideElement r.

(** The timer is an interval of the typing effect. *)
Definition is_typing (t : timer) : bool :=
  match action t with
  | TypingTick _ _ _ => true
  | HideElement _ => false
  end.

(** How often a flag goes from off to on, and from on to off, along a
    sequence of states. *)
Fixpoint rises (f : state → bool) (l : list state) : nat :=
  match l with
  | s :: (s' :: _) as rest =>
      (if negb (f s) && f s' then 1 else 0) + rises f rest
  | _ => 0
  end.

Fixpoint falls (f : state → bool) (l : list state) : nat :=
  match l with
  | s :: (s' :: _) as rest =>
      (if f s && negb (f s') then 1 else 0) + falls f rest
  | _ => 0
  end.

(** The delay [setupScrollAnimations] computes for the element at
    position [index]: [index * 0.1] seconds. *)
Definition stagger (index : nat) : cssTime :=
  Seconds (float64_mul (float64_of_nat index) float64_0_1).

(** The interval of [typeEffect] as it is pending once [q] characters
    have been revealed, for an effect started at time [start]. *)
Definition typing_timer (start : N) (tid : nat) (r : ref) (text : jsstring)
    (q : nat) : timer :=
  Timer tid (start + 100 * (N.of_nat q + 1)) (Some 100%N) (TypingTick r text q).

(** ** Auxiliary definitions for the proofs *)

(** The parent of every element: what sibling and descendant queries
    depend on. *)
Definition parents (d : list element) : list (option ref) := parentNode <$> d.

(** The store after one [toggleMobileMenu] on hamburger [h] and panel [m]. *)
Definition toggled_menu (h m : ref) (expanded : bool) (d : list element) : list element :=
  alter (with_attributes (insert "aria-expanded" (string_of_bool (negb expanded)))) h
    (alter (with_classList (toggle_token "active")) h
       (alter (with_classList (toggle_token "active")) m d)).

(** The store after [updateDarkModeIcon(isDarkMode)] on icon [icon]. *)
Definition iconised (icon : ref) (isDarkMode : bool) (d : list element) : list element :=
  alter (with_classList (if isDarkMode then add_token "fa-sun" else remove_token "fa-sun")) icon
    (alter (with_classList
              (if negb isDarkMode then add_token "fa-moon" else remove_token "fa-moon"))
       icon d).

(** The message [validateField] shows for a field, if any. *)
Definition field_error (field : string) (raw : jsstring) : option jsstring :=
  if falsy (Some (trim raw)) then Some (js (capitalize field ++ " is required"))
  else if String.eqb field "email" && negb (validateEmail (trim raw))
       then Some (js "Please enter a valid email")
       else None.

(** The store after [showError(input, msg)], [err] being the sibling. *)
Definition marked (input err : ref) (msg : jsstring) (d : list element) : list element :=
  alter (with_classList (add_token "error")) input
    (alter (with_textContent (λ _, msg)) err d).

(** The store after one round of the validation loop. *)
Definition checked (field : string) (input err : ref) (d : list element) : list element :=
  match field_error field (value (get d input)) with
  | Some msg => marked input err msg d
  | None => d
  end.

(** The store after the error messages have been reset. *)
Definition cleared (l : list ref) (d : list element) : list element :=
  fold_left (λ d r, alter (with_textContent (λ _, [])) r d) l d.

(** The store after the reset and the three validation rounds of
    [handleFormSubmit]. *)
Definition submitted (errs : list ref) (ni ne ei ee mi me : ref)
    (d : list element) : list element :=
  checked "message" mi me (checked "email" ei ee (checked "name" ni ne (cleared errs d))).

Definition no_error (field : string) (raw : jsstring) : bool :=
  match field_error field raw with Some _ => false | None => true end.

(** The value of [isValid] after the three rounds. *)
Definition form_valid (s : state) (ni ei mi : ref) : bool :=
  no_error "name" (value (elem s ni)) && no_error "email" (value (elem s ei))
  && no_error "message" (value (elem s mi)).

(** The store after [showSuccessMessage] on element [sx]. *)
Definition shown (sx : ref) (d : list element) : list element :=
  alter (with_display "block") sx (alter (with_textContent (λ _, success_text)) sx d).

(** The state after a submit that passed validation. *)
Definition accepted (errs : list ref) (sx form : ref) (s : state) : state :=
  set_dom (λ d, reset_controls form (shown sx (cleared errs d)))
    (set_nextTimerId (S (nextTimerId s))
       (set_timers (λ l, l ++ [hide_timer s sx])
          (set_defaultPrevented true s))).

(** The state after a submit that failed validation. *)
Definition rejected (errs : list ref) (ni ne ei ee mi me : ref) (s : state) : state :=
  set_dom (submitted errs ni ne ei ee mi me) (set_defaultPrevented true s).

(** Running the timers with the given ids, in order. *)
Definition fire_all (ids : list nat) (s : state) : state :=
  fold_left (λ s tid, fire_id tid s) ids s.

(** The ids of the timers that are due. *)
Definition due_ids (s : state) : list nat :=
  map timer_id (List.filter (is_due (now s)) (timers s)).

(** [preserved R m]: whatever [m] does, returning or throwing, the state
    it leaves is [R]-related to the one it started from. *)
Definition preserved (R : state → state → Prop) {A} (m : M A) : Prop :=
  ∀ s, R s (snd (m s)).

(** The fade-in state is as it was: same [visible] marks, same observed
    targets. *)
Definition fade_untouched (s s' : state) : Prop :=
  (∀ r, visible s' r = visible s r) ∧ observer s' = observer s.

(** No typing interval is pending. *)
Definition no_typing (s : state) : Prop :=
  ∀ t, t ∈ timers s → is_typing t = false.

(** The timers are well-formed and none of them is a typing interval. *)
Definition quiet (s : state) : Prop := timers_wf s ∧ no_typing s.

(** No typing interval has been started. *)
Definition typing_not_started (s s' : state) : Prop := quiet s → quiet s'.

(** The fade-in state has only moved forward: nothing visible became
    pending, nothing new is observed, and whatever became visible is no
    longer observed. *)
Definition fade_progress (s s' : state) : Prop :=
  (∀ r, visible s r = true → visible s' r = true) ∧
  (∀ r, observed s' r → observed s r) ∧
  (∀ r, visible s' r = true → visible s r = false → ¬ observed s' r).

(** The state after one round of the loop of [setupScrollAnimations]. *)
Definition staggered (element : ref) (index : nat) (s : state) : state :=
  set_observer
    (option_map (λ l, if existsb (Nat.eqb element) l then l else l ++ [element])
       (observer s))
    (set_dom (alter (with_transitionDelay (stagger index)) element) s).

(** The typing effect on [r] is under way with [q] characters revealed:
    its interval is the only typing interval pending. *)
Definition typing_at (start : N) (tid : nat) (r : ref) (text : jsstring)
    (q : nat) (s : state) : Prop :=
  timers_wf s ∧ r < length (dom s) ∧
  (∀ t, t ∈ timers s → is_typing t = true → timer_id t = tid) ∧
  typing_timer start tid r text q ∈ timers s ∧
  textContent (elem s r) = take q text ∧ (q ≤ length text)%nat.

(** The typing effect on [r] is over. *)
Definition typing_done (r : ref) (text : jsstring) (s : state) : Prop :=
  timers_wf s ∧ no_typing s ∧ textContent (elem s r) = text.

(** Where the typing effect stands [j] milliseconds after its start. *)
Definition typing_phase (start : N) (tid : nat) (r : ref) (text : jsstring)
    (j : N) (s : state) : Prop :=
  now s = (start + j)%N ∧
  ((∃ (q : nat) (rem : N), j = (100 * N.of_nat q + rem)%N ∧ (rem < 100)%N ∧
      typing_at start tid r text q s) ∨
   ((100 * (N.of_nat (length text) + 1) ≤ j)%N ∧ typing_done r text s)).

(** ** Start-up and event routing *)

(** The fields of the controller as [init] binds them on markup [d]. *)
Definition bound_to (d : list element) : controller :=
  Controller (head (select_all (SelClass "navbar") d))
    (head (select_all (SelClass "hamburger") d))
    (head (select_all (SelClass "mobile-menu") d))
    (head (select_all (SelClass "dark-mode-toggle") d))
    (head (select_all (SelId "contact-form") d))
    (head (select_all (SelId "year") d)).

(** The listener a region gets if it was found. *)
Definition optional_listener (o : option ref) (type : string) (h : handler) : list listener :=
  match o with
  | Some r => [Listener (Node r) type h]
  | None => []
  end.

Definition anchor_listener (anchor : ref) : listener :=
  Listener (Node anchor) "click" (OnAnchorClick anchor).

(** The listeners [setupEventListeners] registers for controller [c] on
    markup [d], in registration order. *)
Definition wiring (c : controller) (d : list element) : list listener :=
  optional_listener (hamburger c) "click" OnHamburgerClick ++
  optional_listener (darkModeToggle c) "click" OnDarkModeClick ++
  (anchor_listener <$> select_all SelAnchorHash d) ++
  optional_listener (contactForm c) "submit" OnFormSubmit ++
  [Listener Window "scroll" OnWindowScroll].

(** The state [init] has reached when it starts the components: fields
    bound, listeners registered. *)
Definition wired (s : state) : state :=
  set_listeners (λ l, l ++ wiring (bound_to (dom s)) (dom s))
    (set_this (λ _, bound_to (dom s)) s).

(** The rest of [init], lines 28-36. *)
Definition start_components : M unit :=
  setupScrollAnimations;;
  setCopyrightYear;;
  initDarkMode;;
  let* typing := querySelector (SelClass "typing-text") in
  match typing with
  | Some _ => typeEffect
  | None => ret tt
  end.

(** The handlers an event on [tgt] runs, in order. *)
Definition handlers_for (tgt : eventTarget) (type : string) (s : state) : list handler :=
  l_handler <$> List.filter (listens tgt type) (listeners s).

Definition run_handlers (hs : list handler) (s : state) : state :=
  fold_left (λ s h, exec (run_handler h) s) hs s.

(** The handlers [setupEventListeners] binds to a click on element [r]. *)
Definition click_handlers (c : controller) (d : list element) (r : ref) : list handler :=
  (if decide (hamburger c = Some r) then [OnHamburgerClick] else []) ++
  (if decide (darkModeToggle c = Some r) then [OnDarkModeClick] else []) ++
  (if decide (r ∈ select_all SelAnchorHash d) then [OnAnchorClick r] else []).

(** The condition under which [initDarkMode] makes the page dark. *)
Definition dark_rule (s : state) : bool :=
  strict_eq (stored_preference s) "dark" || (falsy (stored_preference s) && prefersDark s).

(** [m] completes in every state. *)
Definition never_throws {A} (m : M A) : Prop := ∀ s, ∃ a, fst (m s) = Ok a.

(** An observation of the state reads the same afterwards. *)
Definition kept {B} (π : state → B) (s s' : state) : Prop := π s' = π s.

(** What no part of the script writes: the controller's fields and the
    registered listeners once [init] has set them, the body handle, the
    environment. *)
Definition fixtures (s : state) :=
  (this s, listeners s, body s, prefersDark s, currentYear s).

(** The fields of an element the script never writes. *)
Definition skeleton (e : element) :=
  (tagName e, el_id e, parentNode e, defaultValue e, offsetTop e).

(** The state in which [init] calls [initDarkMode]. *)
Definition prepared (s : state) : state :=
  exec setCopyrightYear (exec setupScrollAnimations (wired s)).

(** The icon of the theme toggle in markup [d]: the first [i] element
    inside the first element with class [dark-mode-toggle]. *)
Definition markup_icon (d : list element) : option ref :=
  match head (select_all (SelClass "dark-mode-toggle") d) with
  | Some t => head (List.filter (descendant_of d t) (select_all (SelTag "i") d))
  | None => None
  end.

(** The guarded start of the typing effect, lines 33-36. *)
Definition start_typing : M unit :=
  let* typing := querySelector (SelClass "typing-text") in
  match typing with
  | Some _ => typeEffect
  | None => ret tt
  end.

(** The element is the target of an entry that reports an intersection. *)
Definition intersecting (entries : list (ref * bool)) (r : ref) : bool :=
  existsb (λ entry, Nat.eqb (fst entry) r && snd entry) entries.

(** A class, once on an element, is still on it. *)
Definition class_kept (tok : string) (s s' : state) : Prop :=
  ∀ r, has_class s r tok = true → has_class s' r tok = true.

(** ** Invariants *)

(** If [Inv] held before, it holds afterwards. *)
Definition inv_kept (Inv : state → Prop) (s s' : state) : Prop := Inv s → Inv s'.

(** The menu panel is open exactly when the hamburger is marked
    expanded, both being on the page. *)
Definition menu_in_step (h m : ref) (s : state) : Prop :=
  hamburger (this s) = Some h ∧ mobileMenu (this s) = Some m ∧
  h < length (dom s) ∧ m < length (dom s) ∧
  menu_open s = marked_expanded s.

(** The stored preference says what the page looks like, the toggle and
    its icon being on the page. *)
Definition theme_in_step (s : state) : Prop :=
  is_Some (darkModeToggle (this s)) ∧ is_Some (theme_icon s) ∧
  body s < length (dom s) ∧
  stored_preference s = Some (theme_literal (dark_visuals s)).

(** * Properties *)

Open Scope nat_scope.

(** ** Lists of indices *)

Lemma indices_from_map {A} (p : A → bool) i l :
  indices_from p i l = indices_from (λ b : bool, b) i (p <$> l).
Proof.
  revert i; induction l as [|x l IH]; intros i; simpl; [done|].
  by rewrite IH.
Qed.

Lemma indices_from_lookup {A} (p : A → bool) i l j :
  j ∈ indices_from p i l ↔ i ≤ j ∧ ∃ x, l !! (j - i) = Some x ∧ p x = true.
Proof.
  revert i; induction l as [|x l IH]; intros i; simpl.
  - split; [by intros ?%elem_of_nil | by intros (_ & ? & ? & _)].
  - assert (j ∈ indices_from p (S i) l ↔
            (i ≤ j ∧ j ≠ i ∧ ∃ y, l !! (j - S i) = Some y ∧ p y = true)) as IH'.
    { rewrite IH. split; [intros [? ?]; split_and!; [lia|lia|done]
                        | intros (? & ? & ?); split; [lia|done]]. }
    destruct (p x) eqn:Hp.
    + rewrite elem_of_cons, IH'. split.
      * intros [->|(Hle & Hne & y & Hy & Hpy)].
        -- split; [lia|]. exists x. by rewrite Nat.sub_diag.
        -- split; [done|]. exists y. split; [|done].
           by replace (j - i) with (S (j - S i)) by lia.
      * intros (Hle & y & Hy & Hpy).
        destruct (decide (j = i)) as [->|Hne]; [by left|right].
        split_and!; [done..|]. exists y. split; [|done].
        by replace (j - i) with (S (j - S i)) in Hy by lia.
    + rewrite IH'. split.
      * intros (Hle & Hne & y & Hy & Hpy). split; [done|]. exists y.
        split; [|done]. by replace (j - i) with (S (j - S i)) by lia.
      * intros (Hle & y & Hy & Hpy).
        destruct (decide (j = i)) as [->|Hne].
        { rewrite Nat.sub_diag in Hy. simpl in Hy. congruence. }
        split_and!; [done..|]. exists y. split; [|done].
        by replace (j - i) with (S (j - S i)) in Hy by lia.
Qed.

Lemma indices_from_lt {A} (p : A → bool) i l j :
  j ∈ indices_from p i l → i ≤ j < i + length l.
Proof.
  rewrite indices_from_lookup. intros (? & x & Hx & _).
  apply lookup_lt_Some in Hx. lia.
Qed.

(** The indices come out in increasing order. *)
Lemma indices_from_sorted {A} (p : A → bool) i l a b j k :
  indices_from p i l !! a = Some j → indices_from p i l !! b = Some k →
  a < b → j < k.
Proof.
  revert i a b; induction l as [|x l IH]; intros i a b; simpl; [done|].
  destruct (p x).
  - destruct a as [|a], b as [|b]; simpl; try lia.
    + intros [= <-] Hk _.
      assert (k ∈ indices_from p (S i) l) as Hin by (by eapply list_elem_of_lookup_2).
      apply indices_from_lt in Hin. lia.
    + intros Hj Hk ?. eapply IH; eauto with lia.
  - apply IH.
Qed.

Lemma indices_from_NoDup {A} (p : A → bool) i l : NoDup (indices_from p i l).
Proof.
  apply NoDup_alt. intros a b j Ha Hb.
  destruct (Nat.lt_trichotomy a b) as [Hlt|[->|Hlt]]; [|done|].
  - pose proof (indices_from_sorted _ _ _ _ _ _ _ Ha Hb Hlt). lia.
  - pose proof (indices_from_sorted _ _ _ _ _ _ _ Hb Ha Hlt). lia.
Qed.

(** The head is the first position that qualifies. *)
Lemma head_indices_from {A} (p : A → bool) i l j :
  head (indices_from p i l) = Some j →
  i ≤ j ∧ (∃ x, l !! (j - i) = Some x ∧ p x = true) ∧
  ∀ k x, i ≤ k < j → l !! (k - i) = Some x → p x = false.
Proof.
  revert i; induction l as [|x l IH]; intros i; simpl; [done|].
  destruct (p x) eqn:Hp.
  - simpl. intros [= <-]. split_and!; [lia| |intros; lia].
    exists x. by rewrite Nat.sub_diag.
  - intros (Hle & (y & Hy & Hpy) & Hmin)%IH. split_and!; [lia| |].
    + exists y. split; [|done]. by replace (j - i) with (S (j - S i)) by lia.
    + intros k z Hk Hz. destruct (decide (k = i)) as [->|Hne].
      * rewrite Nat.sub_diag in Hz. simpl in Hz. congruence.
      * apply (Hmin k z); [lia|].
        by replace (k - i) with (S (k - S i)) in Hz by lia.
Qed.

(** ** Reading the store after an update *)

Lemma get_alter_eq f (r : ref) (d : list element) :
  r < length d → get (alter f r d) r = f (get d r).
Proof.
  intros Hr. unfold get. rewrite list_lookup_alter_eq.
  destruct (lookup_lt_is_Some_2 _ _ Hr) as [e He]. by rewrite He.
Qed.

Lemma get_alter_ne f (r r' : ref) (d : list element) : r ≠ r' → get (alter f r d) r' = get d r'.
Proof. intros Hr. unfold get. by rewrite list_lookup_alter_ne. Qed.

(** A field the update does not touch reads the same everywhere, whether
    or not the handle is the updated one. *)
Lemma get_alter_proj {B} (π : element → B) f (r r' : ref) (d : list element) :
  (∀ e, π (f e) = π e) → π (get (alter f r d) r') = π (get d r').
Proof.
  intros Hf. destruct (decide (r = r')) as [<-|Hne].
  - unfold get. rewrite list_lookup_alter_eq.
    destruct (d !! r); simpl; [apply Hf|done].
  - by rewrite get_alter_ne.
Qed.

Lemma map_alter_proj {B} (π : element → B) f (r : ref) (d : list element) :
  (∀ e, π (f e) = π e) → π <$> alter f r d = π <$> d.
Proof.
  intros Hf. apply list_eq. intros i.
  rewrite !list_lookup_fmap.
  destruct (decide (r = i)) as [<-|Hne].
  - rewrite list_lookup_alter_eq. destruct (d !! r); simpl; [by rewrite Hf|done].
  - by rewrite list_lookup_alter_ne.
Qed.

Lemma get_map_proj {B} (π : element → B) (d d' : list element) (r : ref) :
  π <$> d = π <$> d' → π (get d r) = π (get d' r).
Proof.
  intros Hmap. unfold get.
  assert (π <$> (d !! r) = π <$> (d' !! r)) as H.
  { rewrite <- !list_lookup_fmap. by rewrite Hmap. }
  destruct (d !! r), (d' !! r); simpl in *; congruence.
Qed.

(** ** What the queries depend on *)

Lemma select_all_ext sel (d d' : list element) :
  matches sel <$> d = matches sel <$> d' → select_all sel d = select_all sel d'.
Proof.
  intros H. unfold select_all.
  by rewrite (indices_from_map _ _ d), (indices_from_map _ _ d'), H.
Qed.

Lemma select_all_lt sel d r : r ∈ select_all sel d → r < length d.
Proof. intros H%indices_from_lt. lia. Qed.

Lemma select_all_matches sel d r :
  r ∈ select_all sel d → matches sel (get d r) = true.
Proof.
  intros (_ & x & Hx & Hp)%indices_from_lookup.
  rewrite Nat.sub_0_r in Hx. unfold get. by rewrite Hx.
Qed.

Lemma head_select_all_lt sel d r : head (select_all sel d) = Some r → r < length d.
Proof. intros H. apply (select_all_lt sel). by eapply head_Some_elem_of. Qed.

Lemma lookup_parents (d : list element) (r : ref) :
  parents d !! r = parentNode <$> d !! r.
Proof. apply list_lookup_fmap. Qed.

Lemma next_sibling_ext (d d' : list element) (r : ref) :
  parents d = parents d' → next_sibling d r = next_sibling d' r.
Proof.
  intros H. unfold next_sibling.
  pose proof (lookup_parents d r) as H1. pose proof (lookup_parents d' r) as H2.
  rewrite H in H1. rewrite H1 in H2.
  destruct (d !! r) as [e|], (d' !! r) as [e'|]; simpl in *; try congruence.
  injection H2 as ->. destruct (parentNode e') as [p|]; [|done].
  f_equal. rewrite (indices_from_map _ _ (drop _ d)), (indices_from_map _ _ (drop _ d')).
  f_equal.
  change (same_parent p) with
    ((λ o : option ref, match o with Some q => p =? q | None => false end) ∘ parentNode).
  rewrite !list_fmap_compose, !fmap_drop. by fold (parents d) (parents d'); rewrite H.
Qed.

(** ** Tokens *)

Lemma contains_app tok l1 l2 :
  contains tok (l1 ++ l2) = contains tok l1 || contains tok l2.
Proof. unfold contains. apply existsb_app. Qed.

Lemma contains_add_token t tok l :
  contains t (add_token tok l) = String.eqb t tok || contains t l.
Proof.
  unfold add_token. destruct (contains tok l) eqn:E.
  - destruct (String.eqb_spec t tok) as [->|]; [by rewrite E|done].
  - rewrite contains_app. simpl. rewrite orb_false_r. apply orb_comm.
Qed.

Lemma contains_remove_token t tok l :
  contains t (remove_token tok l) = negb (String.eqb t tok) && contains t l.
Proof.
  unfold contains, remove_token. induction l as [|x l IH]; simpl.
  - by rewrite andb_false_r.
  - destruct (String.eqb_spec tok x) as [->|Hne]; simpl.
    + rewrite IH. destruct (String.eqb_spec t x); simpl; [done|done].
    + rewrite IH. destruct (String.eqb_spec t x) as [->|]; simpl; [|done].
      destruct (String.eqb_spec x tok); [congruence|done].
Qed.

Lemma contains_toggle_token t tok l :
  contains t (toggle_token tok l) =
  if String.eqb t tok then negb (contains tok l) else contains t l.
Proof.
  unfold toggle_token. destruct (contains tok l) eqn:E.
  - rewrite contains_remove_token. by destruct (String.eqb_spec t tok).
  - rewrite contains_add_token. by destruct (String.eqb_spec t tok).
Qed.

(** ** Running script code *)

Lemma bind_Ok {A B} (m : M A) (k : A → M B) s a s' :
  m s = (Ok a, s') → bind m k s = k a s'.
Proof. intros H. unfold bind. by rewrite H. Qed.

Lemma bind_Throw {A B} (m : M A) (k : A → M B) s e s' :
  m s = (Throw e, s') → bind m k s = (Throw e, s').
Proof. intros H. unfold bind. by rewrite H. Qed.

Ltac run_script :=
  cbn [bind ret gets modify throw deref fst snd update
       querySelectorAll querySelector getElementById element_querySelector
       classList_add classList_remove classList_contains
       getAttribute setAttribute
       get_textContent set_textContent get_value get_nextElementSibling
       set_style_display set_style_transitionDelay form_reset preventDefault
       addEventListener localStorage_getItem localStorage_setItem
       window_scrollTo clearInterval new_IntersectionObserver
       observe unobserve].

Ltac state_fields :=
  cbn [dom body this listeners localStorage prefersDark css_engine scrollY
       scrollRequest currentYear now nextTimerId timers observer
       defaultPrevented set_dom set_this set_listeners set_localStorage
       set_scrollY set_scrollRequest set_now set_nextTimerId set_timers
       set_observer set_defaultPrevented].

Lemma classList_toggle_eq r tok s :
  classList_toggle r tok s =
  (Ok (negb (has_class s r tok)),
   set_dom (alter (with_classList (toggle_token tok)) r) s).
Proof.
  unfold classList_toggle, has_class. run_script.
  destruct (contains tok (classList (elem s r))) eqn:E; run_script;
    cbn [negb]; f_equal; unfold set_dom; f_equal.
  all: apply list_alter_ext; [|done]; intros e He;
    unfold with_classList, toggle_token; f_equal.
  all: unfold elem, get in E; rewrite He in E; simpl in E; by rewrite E.
Qed.

Lemma elem_set_dom f s r : elem (set_dom f s) r = get (f (dom s)) r.
Proof. reflexivity. Qed.

(** ** Mobile menu *)

Lemma toggleMobileMenu_eq s h m :
  hamburger (this s) = Some h → mobileMenu (this s) = Some m →
  toggleMobileMenu s =
  (Ok tt, set_dom (toggled_menu h m (marked_expanded s)) s).
Proof.
  intros Hh Hm. unfold toggleMobileMenu. run_script. rewrite Hm. run_script.
  rewrite (bind_Ok _ _ _ _ _ (classList_toggle_eq _ _ _)).
  run_script. state_fields. rewrite Hh. run_script.
  rewrite (bind_Ok _ _ _ _ _ (classList_toggle_eq _ _ _)).
  run_script. state_fields. unfold marked_expanded. rewrite Hh.
  rewrite !elem_set_dom. state_fields.
  rewrite !(get_alter_proj attributes) by done. reflexivity.
Qed.

Lemma toggleMobileMenu_flips s h m :
  hamburger (this s) = Some h → mobileMenu (this s) = Some m → h ≠ m →
  h < length (dom s) → m < length (dom s) →
  let s' := exec toggleMobileMenu s in
  this s' = this s ∧ length (dom s') = length (dom s) ∧
  menu_open s' = negb (menu_open s) ∧
  marked_expanded s' = negb (marked_expanded s).
Proof.
  intros Hh Hm Hne Hlh Hlm. unfold exec.
  rewrite (toggleMobileMenu_eq s h m) by done. cbn [snd]. state_fields.
  split_and!; [done| |..].
  - unfold toggled_menu. by rewrite !length_alter.
  - unfold menu_open, has_class. state_fields. rewrite Hm, elem_set_dom.
    unfold toggled_menu.
    rewrite !(get_alter_ne _ h m) by done.
    rewrite get_alter_eq by done. cbn [classList with_classList].
    by rewrite contains_toggle_token.
  - unfold marked_expanded at 1. state_fields. rewrite Hh, elem_set_dom.
    unfold toggled_menu. rewrite get_alter_eq by (by rewrite !length_alter).
    cbn [attributes with_attributes]. rewrite lookup_insert_eq.
    by destruct (marked_expanded s).
Qed.

Lemma menu_toggles s h m n :
  hamburger (this s) = Some h → mobileMenu (this s) = Some m → h ≠ m →
  h < length (dom s) → m < length (dom s) →
  let s' := Nat.iter n (exec toggleMobileMenu) s in
  this s' = this s ∧ length (dom s') = length (dom s) ∧
  menu_open s' = xorb (Nat.odd n) (menu_open s) ∧
  marked_expanded s' = xorb (Nat.odd n) (marked_expanded s).
Proof.
  intros Hh Hm Hne Hlh Hlm. induction n as [|n IH].
  - simpl. by destruct (menu_open s), (marked_expanded s).
  - cbn zeta in *. rewrite Nat.odd_succ, <- Nat.negb_odd, Nat.iter_succ.
    destruct IH as (Ht & Hl & Ho & He).
    destruct (toggleMobileMenu_flips (Nat.iter n (exec toggleMobileMenu) s) h m)
      as (Ht' & Hl' & Ho' & He'); try congruence; try lia.
    split_and!; try congruence.
    + rewrite Ho', Ho. by destruct (Nat.odd n), (menu_open s).
    + rewrite He', He. by destruct (Nat.odd n), (marked_expanded s).
Qed.

(** ** Theme *)

Lemma classList_toggle_force_eq r tok force s :
  classList_toggle_force r tok force s =
  (Ok force,
   set_dom (alter (with_classList
                     (if force then add_token tok else remove_token tok)) r) s).
Proof. unfold classList_toggle_force. by destruct force. Qed.

Lemma parents_length (d d' : list element) :
  parents d = parents d' → length d = length d'.
Proof.
  unfold parents. intros H. by rewrite <- (length_fmap parentNode d), H, length_fmap.
Qed.

Lemma has_ancestor_ext (d d' : list element) k anc r :
  parents d = parents d' → has_ancestor d k anc r = has_ancestor d' k anc r.
Proof.
  intros H. revert r. induction k as [|k IH]; intros r; simpl; [done|].
  pose proof (lookup_parents d r) as H1. pose proof (lookup_parents d' r) as H2.
  rewrite H in H1. rewrite H1 in H2.
  destruct (d !! r) as [e|], (d' !! r) as [e'|]; simpl in *; try congruence.
  injection H2 as ->. destruct (parentNode e'); [|done]. by rewrite IH.
Qed.

Lemma descendant_of_ext (d d' : list element) anc r :
  parents d = parents d' → descendant_of d anc r = descendant_of d' anc r.
Proof.
  intros H. unfold descendant_of.
  rewrite (parents_length _ _ H). by apply has_ancestor_ext.
Qed.

Lemma parents_alter f (r : ref) (d : list element) :
  (∀ e, parentNode (f e) = parentNode e) → parents (alter f r d) = parents d.
Proof. apply map_alter_proj. Qed.

Lemma select_all_alter sel f (r : ref) (d : list element) :
  (∀ e, matches sel (f e) = matches sel e) →
  select_all sel (alter f r d) = select_all sel d.
Proof. intros H. apply select_all_ext. by apply map_alter_proj. Qed.

Lemma filter_ext_eq {A} (p q : A → bool) l :
  (∀ x, p x = q x) → List.filter p l = List.filter q l.
Proof. intros H. induction l as [|x l IH]; simpl; [done|]. by rewrite H, IH. Qed.

Lemma matches_tag_fmap t (d : list element) :
  matches (SelTag t) <$> d = (λ g, String.eqb g t) <$> (tagName <$> d).
Proof. rewrite <- list_fmap_compose. reflexivity. Qed.

Lemma theme_icon_tree s s' :
  this s' = this s → parents (dom s') = parents (dom s) →
  tagName <$> dom s' = tagName <$> dom s →
  theme_icon s' = theme_icon s.
Proof.
  intros Ht Hp Hg. unfold theme_icon. rewrite Ht.
  destruct (darkModeToggle (this s)) as [t|]; [|done].
  rewrite (select_all_ext (SelTag "i") (dom s') (dom s)).
  - f_equal. apply filter_ext_eq. intros x. by apply descendant_of_ext.
  - by rewrite !matches_tag_fmap, Hg.
Qed.

Lemma theme_icon_lt s icon : theme_icon s = Some icon → icon < length (dom s).
Proof.
  unfold theme_icon. destruct (darkModeToggle (this s)); [|done].
  intros H%head_Some_elem_of. apply list_elem_of_In, filter_In in H as [H _].
  apply list_elem_of_In in H. by eapply select_all_lt.
Qed.

Lemma updateDarkModeIcon_eq s t icon b :
  darkModeToggle (this s) = Some t → theme_icon s = Some icon →
  updateDarkModeIcon b s = (Ok tt, set_dom (iconised icon b) s).
Proof.
  intros Ht Hi. unfold updateDarkModeIcon. run_script. rewrite Ht. run_script.
  unfold theme_icon in Hi. rewrite Ht in Hi. rewrite Hi. run_script.
  rewrite (bind_Ok _ _ _ _ _ (classList_toggle_force_eq _ _ _ _)).
  rewrite (bind_Ok _ _ _ _ _ (classList_toggle_force_eq _ _ _ _)).
  reflexivity.
Qed.

Lemma iconised_length icon b d : length (iconised icon b d) = length d.
Proof. unfold iconised. by rewrite !length_alter. Qed.

Lemma iconised_parents icon b d : parents (iconised icon b d) = parents d.
Proof. unfold iconised. by rewrite !parents_alter. Qed.

Lemma iconised_tags icon b d : tagName <$> iconised icon b d = tagName <$> d.
Proof. unfold iconised. by rewrite !(map_alter_proj tagName). Qed.

(** The icon's marker classes after [updateDarkModeIcon]; other tokens of
    any element are as before. *)
Lemma iconised_class icon b d r tok :
  icon < length d →
  contains tok (classList (get (iconised icon b d) r)) =
  if decide (r = icon) then
    if String.eqb tok "fa-sun" then b
    else if String.eqb tok "fa-moon" then negb b
    else contains tok (classList (get d r))
  else contains tok (classList (get d r)).
Proof.
  intros Hlt. unfold iconised. case_decide as Hr.
  - subst r. rewrite !get_alter_eq by (by rewrite ?length_alter).
    cbn [classList with_classList].
    destruct b; cbn [negb];
      repeat (rewrite contains_add_token || rewrite contains_remove_token);
      destruct (String.eqb_spec tok "fa-sun") as [Hs|Hs];
      destruct (String.eqb_spec tok "fa-moon") as [Hm|Hm];
      try (subst; discriminate); simpl; try done.
  - by rewrite !(get_alter_ne _ icon r).
Qed.

Lemma theme_icon_body_class s f :
  theme_icon (set_dom (alter (with_classList f) (body s)) s) = theme_icon s.
Proof.
  apply theme_icon_tree; state_fields; [done| |].
  - by apply parents_alter.
  - by apply (map_alter_proj tagName).
Qed.

Lemma initDarkMode_eq s t icon :
  darkModeToggle (this s) = Some t → theme_icon s = Some icon →
  initDarkMode s =
  (Ok tt,
   if strict_eq (stored_preference s) "dark"
      || (falsy (stored_preference s) && prefersDark s)
   then set_dom (λ d, iconised icon true
                        (alter (with_classList (add_token "dark-mode")) (body s) d)) s
   else s).
Proof.
  intros Ht Hi. unfold initDarkMode, stored_preference. run_script.
  destruct (strict_eq _ _ || _); [|done]. run_script.
  rewrite (updateDarkModeIcon_eq _ t icon); [done|done|].
  by rewrite theme_icon_body_class.
Qed.

Lemma toggleDarkMode_eq s t icon :
  darkModeToggle (this s) = Some t → theme_icon s = Some icon →
  toggleDarkMode s =
  (Ok tt,
   set_localStorage (insert "darkMode" (theme_literal (negb (dark_visuals s))))
     (set_dom (λ d, iconised icon (negb (dark_visuals s))
                      (alter (with_classList (toggle_token "dark-mode")) (body s) d)) s)).
Proof.
  intros Ht Hi. unfold toggleDarkMode. run_script.
  rewrite (bind_Ok _ _ _ _ _ (classList_toggle_eq _ _ _)).
  state_fields.
  erewrite bind_Ok;
    [|apply (updateDarkModeIcon_eq _ t icon);
      [done|by rewrite theme_icon_body_class]].
  reflexivity.
Qed.

(** What one [toggleDarkMode] does to the observations. *)
Lemma toggleDarkMode_flips s t icon :
  darkModeToggle (this s) = Some t → theme_icon s = Some icon →
  body s < length (dom s) →
  let s' := exec toggleDarkMode s in
  result toggleDarkMode s = Ok tt ∧
  this s' = this s ∧ body s' = body s ∧ length (dom s') = length (dom s) ∧
  theme_icon s' = Some icon ∧
  dark_visuals s' = negb (dark_visuals s) ∧
  stored_preference s' = Some (theme_literal (dark_visuals s')) ∧
  icon_sun s' = dark_visuals s' ∧ icon_moon s' = negb (dark_visuals s').
Proof.
  intros Ht Hi Hb. unfold exec, result.
  rewrite (toggleDarkMode_eq s t icon Ht Hi). cbn [fst snd].
  pose proof (theme_icon_lt _ _ Hi) as Hlt.
  set (d1 := alter (with_classList (toggle_token "dark-mode")) (body s) (dom s)).
  assert (length d1 = length (dom s)) as Hd1 by apply length_alter.
  assert (theme_icon
            (set_localStorage (insert "darkMode" (theme_literal (negb (dark_visuals s))))
               (set_dom (λ d, iconised icon (negb (dark_visuals s))
                  (alter (with_classList (toggle_token "dark-mode")) (body s) d)) s))
          = Some icon) as Hi'.
  { rewrite <- Hi. apply theme_icon_tree; state_fields; [done| |].
    - rewrite iconised_parents. by apply parents_alter.
    - rewrite iconised_tags. by apply (map_alter_proj tagName). }
  assert (dark_visuals
            (set_localStorage (insert "darkMode" (theme_literal (negb (dark_visuals s))))
               (set_dom (λ d, iconised icon (negb (dark_visuals s))
                  (alter (with_classList (toggle_token "dark-mode")) (body s) d)) s))
          = negb (dark_visuals s)) as Hdark.
  { unfold dark_visuals at 1, has_class, elem. state_fields. fold d1.
    rewrite iconised_class by lia.
    assert (contains "dark-mode" (classList (get d1 (body s)))
            = negb (dark_visuals s)) as ->.
    { unfold d1. rewrite get_alter_eq by done. cbn [classList with_classList].
      by rewrite contains_toggle_token. }
    by case_decide. }
  split_and!; try done.
  - state_fields. by rewrite iconised_length.
  - rewrite Hdark. unfold stored_preference. state_fields.
    by rewrite lookup_insert_eq.
  - unfold icon_sun. rewrite Hi', Hdark. unfold has_class, elem. state_fields.
    fold d1. rewrite iconised_class by lia. by rewrite decide_True.
  - unfold icon_moon. rewrite Hi', Hdark. unfold has_class, elem. state_fields.
    fold d1. rewrite iconised_class by lia. by rewrite decide_True.
Qed.

(** ** Contact form *)

Lemma matches_id_fmap i (d : list element) :
  matches (SelId i) <$> d = (λ x, String.eqb x i) <$> (el_id <$> d).
Proof. rewrite <- list_fmap_compose. reflexivity. Qed.

Lemma select_all_id_ext i (d d' : list element) :
  el_id <$> d = el_id <$> d' → select_all (SelId i) d = select_all (SelId i) d'.
Proof. intros H. apply select_all_ext. by rewrite !matches_id_fmap, H. Qed.

Lemma marked_proj {B} (π : element → B) input err msg d :
  (∀ f e, π (with_classList f e) = π e) →
  (∀ f e, π (with_textContent f e) = π e) →
  π <$> marked input err msg d = π <$> d.
Proof.
  intros H1 H2. unfold marked.
  rewrite (map_alter_proj π) by apply H1. by rewrite (map_alter_proj π) by apply H2.
Qed.

Lemma checked_proj {B} (π : element → B) field input err d :
  (∀ f e, π (with_classList f e) = π e) →
  (∀ f e, π (with_textContent f e) = π e) →
  π <$> checked field input err d = π <$> d.
Proof.
  intros H1 H2. unfold checked.
  destruct (field_error _ _); [by apply marked_proj|done].
Qed.

Lemma cleared_proj {B} (π : element → B) l d :
  (∀ f e, π (with_textContent f e) = π e) →
  π <$> cleared l d = π <$> d.
Proof.
  intros H. unfold cleared. revert d. induction l as [|r l IH]; intros d; simpl; [done|].
  rewrite IH. by apply map_alter_proj.
Qed.

Lemma fmap_length_eq {B} (π : element → B) (d d' : list element) :
  π <$> d = π <$> d' → length d = length d'.
Proof. intros H. by rewrite <- (length_fmap π d), H, length_fmap. Qed.

Lemma cleared_text l d r :
  r < length d →
  textContent (get (cleared l d) r) =
  if bool_decide (r ∈ l) then [] else textContent (get d r).
Proof.
  unfold cleared. revert d. induction l as [|x l IH]; intros d Hr; simpl; [done|].
  rewrite IH by (by rewrite length_alter).
  destruct (decide (x = r)) as [->|Hne].
  - rewrite get_alter_eq by done. cbn [textContent with_textContent].
    rewrite (bool_decide_eq_true_2 (r ∈ r :: l)) by left.
    by case_bool_decide.
  - rewrite get_alter_ne by done.
    destruct (bool_decide (r ∈ l)) eqn:E.
    + apply bool_decide_eq_true in E.
      by rewrite (bool_decide_eq_true_2 (r ∈ x :: l)) by (by right).
    + apply bool_decide_eq_false in E.
      rewrite (bool_decide_eq_false_2 (r ∈ x :: l)); [done|].
      intros [?|?]%elem_of_cons; congruence.
Qed.

Lemma forEach_from_clear i l s :
  forEach_from i l (λ el _, set_textContent el []) s = (Ok tt, set_dom (cleared l) s).
Proof.
  revert i s. induction l as [|r l IH]; intros i s; simpl.
  - by destruct s.
  - run_script. rewrite IH. by destruct s.
Qed.

Lemma showError_eq s input err msg :
  next_sibling (dom s) input = Some err →
  showError input msg s = (Ok tt, set_dom (marked input err msg) s).
Proof.
  intros Herr. unfold showError. run_script. rewrite Herr. by run_script.
Qed.

Lemma validateField_eq s b field input err :
  head (select_all (SelId field) (dom s)) = Some input →
  next_sibling (dom s) input = Some err →
  validateField b field s =
  (Ok (match field_error field (value (elem s input)) with
       | Some _ => false | None => b end),
   set_dom (checked field input err) s).
Proof.
  intros Hin Herr.
  assert (set_dom (checked field input err) s =
          match field_error field (value (elem s input)) with
          | Some msg => set_dom (marked input err msg) s
          | None => s
          end) as ->.
  { unfold checked, elem, set_dom.
    destruct (field_error _ _); [done|by destruct s]. }
  unfold validateField. run_script. rewrite Hin. run_script.
  unfold field_error.
  destruct (falsy (Some (trim (value (elem s input))))).
  { by rewrite (bind_Ok _ _ _ _ _ (showError_eq _ _ err _ Herr)). }
  destruct (String.eqb field "email" && _).
  { by rewrite (bind_Ok _ _ _ _ _ (showError_eq _ _ err _ Herr)). }
  done.
Qed.

Lemma checked_value field input err (d d0 : list element) :
  value <$> d = value <$> d0 →
  checked field input err d =
  match field_error field (value (get d0 input)) with
  | Some msg => marked input err msg d
  | None => d
  end.
Proof. intros H. unfold checked. by rewrite (get_map_proj value d d0). Qed.

Lemma validateFields_eq s errs ni ne ei ee mi me :
  form_markup s ni ne ei ee mi me →
  validateFields true ["name"; "email"; "message"]
    (set_dom (cleared errs) (set_defaultPrevented true s)) =
  (Ok (form_valid s ni ei mi), rejected errs ni ne ei ee mi me s).
Proof.
  intros [Hn He Hm Hns Hes Hms _ _ _].
  set (s0 := set_defaultPrevented true s).
  assert (∀ d field input err,
    el_id <$> d = el_id <$> dom s → parents d = parents (dom s) →
    value <$> d = value <$> dom s →
    head (select_all (SelId field) (dom s)) = Some input →
    next_sibling (dom s) input = Some err →
    ∀ b, validateField b field (set_dom (λ _, d) s0) =
    (Ok (b && no_error field (value (elem s input))),
     set_dom (λ _, checked field input err d) s0)) as Hstep.
  { intros d field input err Hid Hpar Hval Hin Herr b.
    rewrite (validateField_eq _ b field input err).
    - unfold no_error, elem. state_fields.
      rewrite (get_map_proj value d (dom s)) by done.
      f_equal. by destruct (field_error _ _), b.
    - state_fields. by rewrite (select_all_id_ext _ d (dom s)).
    - state_fields. by rewrite (next_sibling_ext d (dom s)). }
  change (set_dom (cleared errs) s0) with (set_dom (λ _, cleared errs (dom s)) s0).
  cbn [validateFields].
  erewrite bind_Ok; [|apply (Hstep _ "name" ni ne); try done;
    by rewrite ?cleared_proj; unfold parents; rewrite ?cleared_proj].
  erewrite bind_Ok; [|apply (Hstep _ "email" ei ee); try done;
    by rewrite ?checked_proj, ?cleared_proj; unfold parents;
       rewrite ?checked_proj, ?cleared_proj].
  erewrite bind_Ok; [|apply (Hstep _ "message" mi me); try done;
    by rewrite ?checked_proj, ?cleared_proj; unfold parents;
       rewrite ?checked_proj, ?cleared_proj].
  unfold form_valid. reflexivity.
Qed.

Lemma handleFormSubmit_eq s ni ne ei ee mi me :
  form_markup s ni ne ei ee mi me →
  let errs := select_all (SelClass "error-message") (dom s) in
  handleFormSubmit s =
  if form_valid s ni ei mi then
    match head (select_all (SelId "form-success") (dom s)), contactForm (this s) with
    | Some sx, Some form => (Ok tt, accepted errs sx form s)
    | Some sx, None =>
        (Throw TypeError,
         set_dom (shown sx)
           (set_nextTimerId (S (nextTimerId s))
              (set_timers
                 (λ l, l ++ [Timer (nextTimerId s) (now s + 5000) None (HideElement sx)])
                 (rejected errs ni ne ei ee mi me s))))
    | None, _ => (Throw TypeError, rejected errs ni ne ei ee mi me s)
    end
  else (Ok tt, rejected errs ni ne ei ee mi me s).
Proof.
  intros Hfm errs. unfold handleFormSubmit. run_script. state_fields.
  unfold forEach. rewrite (bind_Ok _ _ _ _ _ (forEach_from_clear _ _ _)).
  rewrite (bind_Ok _ _ _ _ _ (validateFields_eq _ _ _ _ _ _ _ _ Hfm)).
  fold errs.
  destruct (form_valid s ni ei mi) eqn:Hvalid; [|done].
  unfold showSuccessMessage. run_script.
  destruct (head (select_all (SelId "form-success") (dom s))) as [sx|];
    run_script; [|done].
  unfold setTimeout, schedule. run_script. state_fields.
  assert (rejected errs ni ne ei ee mi me s =
          set_dom (cleared errs) (set_defaultPrevented true s)) as Hrej.
  { unfold rejected, submitted, form_valid, no_error in *.
    apply andb_prop in Hvalid as [[H1 H2]%andb_prop H3].
    assert (∀ d, value <$> d = value <$> dom s →
       checked "name" ni ne d = d ∧ checked "email" ei ee d = d
       ∧ checked "message" mi me d = d) as Hid.
    { intros d Hd. rewrite !(checked_value _ _ _ d (dom s)) by done.
      unfold elem in *.
      destruct (field_error "name" _); [done|].
      destruct (field_error "email" _); [done|].
      by destruct (field_error "message" _). }
    unfold set_dom. state_fields. f_equal.
    destruct (Hid (cleared errs (dom s))) as (-> & -> & ->); [|done].
    by rewrite cleared_proj. }
  rewrite Hrej. state_fields.
  destruct (contactForm (this s)) as [form|]; run_script; reflexivity.
Qed.

(** The next sibling is the first later element with the same parent. *)
Lemma next_sibling_spec (d : list element) a c :
  next_sibling d a = Some c →
  ∃ p, parentNode (get d a) = Some p ∧ a < c < length d ∧
       parentNode (get d c) = Some p ∧
       ∀ k, a < k < c → parentNode (get d k) ≠ Some p.
Proof.
  unfold next_sibling, get. destruct (d !! a) as [ea|] eqn:Ha; [|done].
  simpl. destruct (parentNode ea) as [p|] eqn:Hp; [|done].
  intros (Hle & (x & Hx & Hpx) & Hmin)%head_indices_from.
  rewrite lookup_drop in Hx. replace (S a + (c - S a)) with c in Hx by lia.
  exists p. split_and!; [done|lia|by eapply lookup_lt_Some| |].
  - rewrite Hx. simpl. unfold same_parent in Hpx.
    destruct (parentNode x) as [q|]; [|done].
    by apply Nat.eqb_eq in Hpx as ->.
  - intros k Hk Hpk.
    destruct (d !! k) as [y|] eqn:Hy; simpl in Hpk; [|done].
    assert (same_parent p y = false) as Hf.
    { apply (Hmin k); [lia|]. rewrite lookup_drop.
      by replace (S a + (k - S a)) with k by lia. }
    unfold same_parent in Hf. rewrite Hpk in Hf.
    by rewrite Nat.eqb_refl in Hf.
Qed.

Lemma next_sibling_inj (d : list element) a b c :
  next_sibling d a = Some c → next_sibling d b = Some c → a = b.
Proof.
  intros (p & Hpa & Hac & Hpc & Hmin)%next_sibling_spec
         (q & Hqb & Hbc & Hqc & Hmin')%next_sibling_spec.
  assert (p = q) as <- by congruence.
  destruct (Nat.lt_trichotomy a b) as [Hlt|[->|Hlt]]; [|done|].
  - by destruct (Hmin b ltac:(lia)).
  - by destruct (Hmin' a ltac:(lia)).
Qed.

Lemma select_all_elem sel (d : list element) r :
  r < length d → matches sel (get d r) = true → r ∈ select_all sel d.
Proof.
  intros Hr Hm. apply indices_from_lookup. split; [lia|].
  destruct (lookup_lt_is_Some_2 _ _ Hr) as [e He].
  exists e. rewrite Nat.sub_0_r. split; [done|].
  unfold get in Hm. by rewrite He in Hm.
Qed.

Lemma head_select_id i (d : list element) r :
  head (select_all (SelId i) d) = Some r → el_id (get d r) = i.
Proof.
  intros H%head_Some_elem_of%select_all_matches. simpl in H.
  by apply String.eqb_eq.
Qed.

(** What the markup hypotheses give: the handles are valid, the error
    elements are three different elements, and the reset reaches them. *)
Lemma form_markup_facts s ni ne ei ee mi me :
  form_markup s ni ne ei ee mi me →
  (ni < length (dom s) ∧ ei < length (dom s) ∧ mi < length (dom s)) ∧
  (ne < length (dom s) ∧ ee < length (dom s) ∧ me < length (dom s)) ∧
  (ne ≠ ee ∧ ne ≠ me ∧ ee ≠ me) ∧
  (ne ∈ select_all (SelClass "error-message") (dom s) ∧
   ee ∈ select_all (SelClass "error-message") (dom s) ∧
   me ∈ select_all (SelClass "error-message") (dom s)).
Proof.
  intros [Hn He Hm Hns Hes Hms Hnc Hec Hmc].
  pose proof (head_select_id _ _ _ Hn) as Hidn.
  pose proof (head_select_id _ _ _ He) as Hide.
  pose proof (head_select_id _ _ _ Hm) as Hidm.
  destruct (next_sibling_spec _ _ _ Hns) as (_ & _ & [_ Hlne] & _).
  destruct (next_sibling_spec _ _ _ Hes) as (_ & _ & [_ Hlee] & _).
  destruct (next_sibling_spec _ _ _ Hms) as (_ & _ & [_ Hlme] & _).
  split_and!; try done; try (by eapply head_select_all_lt).
  - intros ->. pose proof (next_sibling_inj _ _ _ _ Hns Hes). congruence.
  - intros ->. pose proof (next_sibling_inj _ _ _ _ Hns Hms). congruence.
  - intros ->. pose proof (next_sibling_inj _ _ _ _ Hes Hms). congruence.
  - by apply select_all_elem.
  - by apply select_all_elem.
  - by apply select_all_elem.
Qed.

Lemma checked_length field input err d : length (checked field input err d) = length d.
Proof.
  unfold checked, marked. destruct (field_error _ _); [|done].
  by rewrite !length_alter.
Qed.

Lemma cleared_length l d : length (cleared l d) = length d.
Proof. apply (fmap_length_eq el_id). by apply cleared_proj. Qed.

(** The text one validation round leaves in an element. *)
Lemma checked_text field input err (d d0 : list element) r :
  value <$> d = value <$> d0 → err < length d →
  textContent (get (checked field input err d) r) =
  if decide (r = err) then
    match field_error field (value (get d0 input)) with
    | Some msg => msg
    | None => textContent (get d r)
    end
  else textContent (get d r).
Proof.
  intros Hv Hlt. rewrite (checked_value _ _ _ d d0 Hv).
  destruct (field_error _ _) as [msg|]; [|by case_decide; subst].
  unfold marked. rewrite (get_alter_proj textContent) by done.
  case_decide as Hr.
  - subst r. by rewrite get_alter_eq.
  - by rewrite get_alter_ne.
Qed.

Lemma checked_class_mono field input err (d : list element) r tok :
  contains tok (classList (get d r)) = true →
  contains tok (classList (get (checked field input err d) r)) = true.
Proof.
  intros H. unfold checked. destruct (field_error _ _) as [msg|]; [|done].
  unfold marked. destruct (decide (input = r)) as [->|Hne].
  - destruct (decide (r < length d)) as [Hlt|Hge].
    + rewrite get_alter_eq by (by rewrite length_alter).
      cbn [classList with_classList]. rewrite contains_add_token.
      rewrite (get_alter_proj classList) by done. by rewrite H, orb_true_r.
    + unfold get. rewrite list_lookup_alter_eq.
      rewrite (lookup_ge_None_2 (alter _ err d)) by (rewrite length_alter; lia).
      unfold get in H. rewrite (lookup_ge_None_2 d) in H by lia. done.
  - rewrite get_alter_ne by done. by rewrite (get_alter_proj classList).
Qed.

Lemma checked_class_marks field input err (d d0 : list element) :
  value <$> d = value <$> d0 → input < length d →
  is_Some (field_error field (value (get d0 input))) →
  contains "error" (classList (get (checked field input err d) input)) = true.
Proof.
  intros Hv Hlt [msg Hmsg]. rewrite (checked_value _ _ _ d d0 Hv), Hmsg.
  unfold marked. rewrite get_alter_eq by (by rewrite length_alter).
  cbn [classList with_classList]. by rewrite contains_add_token.
Qed.

Lemma field_error_empty field raw :
  trim raw = [] → field_error field raw = Some (js (capitalize field ++ " is required")).
Proof. intros H. unfold field_error. by rewrite H. Qed.

Lemma field_error_filled field raw :
  trim raw ≠ [] →
  field_error field raw =
  if String.eqb field "email" && negb (validateEmail (trim raw))
  then Some (js "Please enter a valid email") else None.
Proof. intros H. unfold field_error. by destruct (trim raw). Qed.

Section Rejected.
Variables (s : state) (ni ne ei ee mi me : ref).
Hypothesis markup : form_markup s ni ne ei ee mi me.

Let errs := select_all (SelClass "error-message") (dom s).
Let d1 := cleared errs (dom s).
Let d2 := checked "name" ni ne d1.
Let d3 := checked "email" ei ee d2.
Let d4 := checked "message" mi me d3.

Local Lemma rejected_dom : dom (rejected errs ni ne ei ee mi me s) = d4.
Proof. reflexivity. Qed.

Local Lemma values1 : value <$> d1 = value <$> dom s.
Proof. by apply cleared_proj. Qed.
Local Lemma values2 : value <$> d2 = value <$> dom s.
Proof. unfold d2. rewrite checked_proj by done. apply values1. Qed.
Local Lemma values3 : value <$> d3 = value <$> dom s.
Proof. unfold d3. rewrite checked_proj by done. apply values2. Qed.
Local Lemma values4 : value <$> d4 = value <$> dom s.
Proof. unfold d4. rewrite checked_proj by done. apply values3. Qed.

Local Lemma length1 : length d1 = length (dom s).
Proof. apply cleared_length. Qed.
Local Lemma length2 : length d2 = length (dom s).
Proof. unfold d2. rewrite checked_length. apply length1. Qed.
Local Lemma length3 : length d3 = length (dom s).
Proof. unfold d3. rewrite checked_length. apply length2. Qed.

Lemma rejected_text_name :
  textContent (elem (rejected errs ni ne ei ee mi me s) ne) =
  default [] (field_error "name" (value (elem s ni))).
Proof.
  destruct (form_markup_facts _ _ _ _ _ _ _ markup)
    as (_ & (Hne & Hee & Hme) & (H1 & H2 & H3) & (Hin & _ & _)).
  unfold elem. rewrite rejected_dom. unfold d4.
  rewrite (checked_text _ _ _ d3 (dom s)) by (apply values3 || rewrite length3; done).
  rewrite decide_False by done. unfold d3.
  rewrite (checked_text _ _ _ d2 (dom s)) by (apply values2 || rewrite length2; done).
  rewrite decide_False by done. unfold d2.
  rewrite (checked_text _ _ _ d1 (dom s)) by (apply values1 || rewrite length1; done).
  rewrite decide_True by done.
  destruct (field_error _ _); [done|]. simpl. unfold d1.
  rewrite cleared_text by done. by rewrite bool_decide_eq_true_2.
Qed.

Lemma rejected_text_email :
  textContent (elem (rejected errs ni ne ei ee mi me s) ee) =
  default [] (field_error "email" (value (elem s ei))).
Proof.
  destruct (form_markup_facts _ _ _ _ _ _ _ markup)
    as (_ & (Hne & Hee & Hme) & (H1 & H2 & H3) & (_ & Hin & _)).
  unfold elem. rewrite rejected_dom. unfold d4.
  rewrite (checked_text _ _ _ d3 (dom s)) by (apply values3 || rewrite length3; done).
  rewrite decide_False by done. unfold d3.
  rewrite (checked_text _ _ _ d2 (dom s)) by (apply values2 || rewrite length2; done).
  rewrite decide_True by done.
  destruct (field_error _ _); [done|]. simpl. unfold d2.
  rewrite (checked_text _ _ _ d1 (dom s)) by (apply values1 || rewrite length1; done).
  rewrite decide_False by done. unfold d1.
  rewrite cleared_text by done. by rewrite bool_decide_eq_true_2.
Qed.

Lemma rejected_text_message :
  textContent (elem (rejected errs ni ne ei ee mi me s) me) =
  default [] (field_error "message" (value (elem s mi))).
Proof.
  destruct (form_markup_facts _ _ _ _ _ _ _ markup)
    as (_ & (Hne & Hee & Hme) & (H1 & H2 & H3) & (_ & _ & Hin)).
  unfold elem. rewrite rejected_dom. unfold d4.
  rewrite (checked_text _ _ _ d3 (dom s)) by (apply values3 || rewrite length3; done).
  rewrite decide_True by done.
  destruct (field_error _ _); [done|]. simpl. unfold d3.
  rewrite (checked_text _ _ _ d2 (dom s)) by (apply values2 || rewrite length2; done).
  rewrite decide_False by done. unfold d2.
  rewrite (checked_text _ _ _ d1 (dom s)) by (apply values1 || rewrite length1; done).
  rewrite decide_False by done. unfold d1.
  rewrite cleared_text by done. by rewrite bool_decide_eq_true_2.
Qed.

Lemma rejected_class_name :
  is_Some (field_error "name" (value (elem s ni))) →
  has_class (rejected errs ni ne ei ee mi me s) ni "error" = true.
Proof.
  intros Herr.
  destruct (form_markup_facts _ _ _ _ _ _ _ markup) as ((Hni & _ & _) & _).
  unfold has_class, elem. rewrite rejected_dom. unfold d4, d3.
  do 2 apply checked_class_mono. unfold d2.
  apply (checked_class_marks _ _ _ d1 (dom s));
    [apply values1|by rewrite length1|done].
Qed.

Lemma rejected_class_email :
  is_Some (field_error "email" (value (elem s ei))) →
  has_class (rejected errs ni ne ei ee mi me s) ei "error" = true.
Proof.
  intros Herr.
  destruct (form_markup_facts _ _ _ _ _ _ _ markup) as ((_ & Hei & _) & _).
  unfold has_class, elem. rewrite rejected_dom. unfold d4.
  apply checked_class_mono. unfold d3.
  apply (checked_class_marks _ _ _ d2 (dom s));
    [apply values2|by rewrite length2|done].
Qed.

Lemma rejected_class_message :
  is_Some (field_error "message" (value (elem s mi))) →
  has_class (rejected errs ni ne ei ee mi me s) mi "error" = true.
Proof.
  intros Herr.
  destruct (form_markup_facts _ _ _ _ _ _ _ markup) as ((_ & _ & Hmi) & _).
  unfold has_class, elem. rewrite rejected_dom. unfold d4.
  apply (checked_class_marks _ _ _ d3 (dom s));
    [apply values3|by rewrite length3|done].
Qed.

Lemma rejected_value r :
  value (elem (rejected errs ni ne ei ee mi me s) r) = value (elem s r).
Proof.
  unfold elem. rewrite rejected_dom. apply get_map_proj, values4.
Qed.

Lemma rejected_display r :
  style_display (elem (rejected errs ni ne ei ee mi me s) r) = style_display (elem s r).
Proof.
  unfold elem. rewrite rejected_dom. apply get_map_proj.
  unfold d4, d3, d2, d1. rewrite !checked_proj by done. by apply cleared_proj.
Qed.

End Rejected.

(** ** Timers *)

Lemma elapse_succ k s : elapse (N.succ k) s = tick (elapse k s).
Proof. unfold elapse. apply N.iter_succ. Qed.

Lemma elapse_add a b s : elapse (a + b) s = elapse b (elapse a s).
Proof. unfold elapse. rewrite N.add_comm. apply N.iter_add. Qed.

Lemma find_timer_Some tid (l : list timer) t :
  List.find (λ t, Nat.eqb (timer_id t) tid) l = Some t → t ∈ l ∧ timer_id t = tid.
Proof.
  intros [Hin Heq]%find_some. split; [by apply list_elem_of_In|].
  by apply Nat.eqb_eq.
Qed.

Lemma find_timer_unique tid (l : list timer) t :
  NoDup (timer_id <$> l) → t ∈ l → timer_id t = tid →
  List.find (λ t, Nat.eqb (timer_id t) tid) l = Some t.
Proof.
  induction l as [|x l IH]; intros Hnd Hin Hid; [by apply elem_of_nil in Hin|].
  simpl in *. apply NoDup_cons in Hnd as [Hx Hnd].
  destruct (Nat.eqb_spec (timer_id x) tid) as [Heq|Hne].
  - apply elem_of_cons in Hin as [->|Hin]; [done|].
    destruct Hx. rewrite Heq, <- Hid. by apply list_elem_of_fmap_2.
  - apply elem_of_cons in Hin as [->|Hin]; [congruence|]. by apply IH.
Qed.

(** Re-arming and clearing touch only the timer with the given id. *)
Lemma elem_of_rearm_other tid cb (l : list timer) t :
  timer_id t ≠ tid → t ∈ omap (rearm tid cb) l ↔ t ∈ l.
Proof.
  intros Hne. rewrite list_elem_of_omap. unfold rearm. split.
  - intros (x & Hx & Hr). destruct (Nat.eqb_spec (timer_id x) tid).
    + destruct (period x); [|done]. injection Hr as <-. by destruct Hne.
    + by injection Hr as <-.
  - intros Hin. exists t. split; [done|].
    by destruct (Nat.eqb_spec (timer_id t) tid).
Qed.

Lemma rearm_ids_sublist tid cb (l : list timer) :
  sublist (timer_id <$> omap (rearm tid cb) l) (timer_id <$> l).
Proof.
  induction l as [|x l IH]; simpl; [done|].
  unfold rearm at 1. destruct (Nat.eqb_spec (timer_id x) tid) as [Heq|Hne].
  - destruct (period x); simpl.
    + subst tid. by apply sublist_skip.
    + by apply sublist_cons.
  - simpl. by apply sublist_skip.
Qed.

Lemma elem_of_clear_other tid (l : list timer) t :
  timer_id t ≠ tid →
  t ∈ List.filter (λ t, negb (Nat.eqb (timer_id t) tid)) l ↔ t ∈ l.
Proof.
  intros Hne. rewrite !list_elem_of_In, filter_In. split; [tauto|].
  intros H. split; [done|]. by destruct (Nat.eqb_spec (timer_id t) tid).
Qed.

Lemma clear_ids_sublist tid (l : list timer) :
  sublist (timer_id <$> List.filter (λ t, negb (Nat.eqb (timer_id t) tid)) l)
          (timer_id <$> l).
Proof.
  induction l as [|x l IH]; simpl; [done|].
  destruct (negb _); simpl; [by apply sublist_skip|by apply sublist_cons].
Qed.

(** The cases of [fire_id]: nothing to fire, a hide, a typing step, the
    end of the typing. *)
Ltac fire_cases tid s :=
  unfold fire_id;
  let t := fresh "t" in
  let Hfind := fresh "Hfind" in
  let Hdue := fresh "Hdue" in
  let Hact := fresh "Hact" in
  let Hi := fresh "Hi" in
  destruct (List.find (λ t, Nat.eqb (timer_id t) tid) (timers s)) as [t|] eqn:Hfind;
  [destruct (is_due (now s) t) eqn:Hdue;
   [unfold fire, run_callback;
    destruct (action t) as [?el|?el ?text ?i] eqn:Hact;
    [run_script
    |unfold typingTick;
     destruct (Nat.ltb i (length text)) eqn:Hi; run_script];
    state_fields
   |]
  |].

Lemma fire_id_now tid s : now (fire_id tid s) = now s.
Proof. fire_cases tid s; reflexivity. Qed.

Lemma fire_id_nextTimerId tid s : nextTimerId (fire_id tid s) = nextTimerId s.
Proof. fire_cases tid s; reflexivity. Qed.

Lemma fire_id_length tid s : length (dom (fire_id tid s)) = length (dom s).
Proof. fire_cases tid s; by rewrite ?length_alter. Qed.

Lemma fire_id_other tid s t0 :
  timer_id t0 ≠ tid → t0 ∈ timers (fire_id tid s) ↔ t0 ∈ timers s.
Proof.
  intros Hne. fire_cases tid s; try done.
  all: apply find_timer_Some in Hfind as [_ ->].
  all: rewrite ?elem_of_rearm_other, ?elem_of_clear_other by done; done.
Qed.

Lemma fire_id_ids tid s :
  sublist (timer_id <$> timers (fire_id tid s)) (timer_id <$> timers s).
Proof.
  fire_cases tid s; try done.
  - apply rearm_ids_sublist.
  - apply rearm_ids_sublist.
  - etrans; [apply rearm_ids_sublist|apply clear_ids_sublist].
Qed.

Lemma fire_id_wf tid s : timers_wf s → timers_wf (fire_id tid s).
Proof.
  intros [Hnd Hlt]. split.
  - eapply sublist_NoDup; [done|apply fire_id_ids].
  - intros t Ht. rewrite fire_id_nextTimerId.
    assert (timer_id t ∈ timer_id <$> timers s) as Hin.
    { eapply elem_of_sublist; [|apply fire_id_ids]. by apply list_elem_of_fmap_2. }
    apply list_elem_of_fmap in Hin as (t' & -> & Ht'). by apply Hlt.
Qed.

Lemma tick_eq s :
  tick s = fire_all (due_ids (set_now (N.succ (now s)) s)) (set_now (N.succ (now s)) s).
Proof. reflexivity. Qed.

Lemma fire_all_cons tid ids s : fire_all (tid :: ids) s = fire_all ids (fire_id tid s).
Proof. reflexivity. Qed.

Lemma fire_all_app ids1 ids2 s :
  fire_all (ids1 ++ ids2) s = fire_all ids2 (fire_all ids1 s).
Proof. unfold fire_all. apply fold_left_app. Qed.

(** An invariant of the firings is an invariant of the round. *)
Lemma fire_all_ind (P : state → Prop) (Q : nat → Prop) ids s :
  (∀ tid s, Q tid → P s → P (fire_id tid s)) →
  Forall Q ids → P s → P (fire_all ids s).
Proof.
  intros Hstep. revert s. induction ids as [|tid ids IH]; intros s HQ HP; [done|].
  apply Forall_cons in HQ as [Hq HQ]. rewrite fire_all_cons. apply IH; [done|].
  by apply Hstep.
Qed.

Lemma timer_id_inj (l : list timer) t t' :
  NoDup (timer_id <$> l) → t ∈ l → t' ∈ l → timer_id t = timer_id t' → t = t'.
Proof.
  intros Hnd Ht Ht' Heq.
  pose proof (find_timer_unique (timer_id t') l t Hnd Ht Heq) as H1.
  pose proof (find_timer_unique (timer_id t') l t' Hnd Ht' eq_refl) as H2.
  congruence.
Qed.

Lemma elem_of_due_ids s tid :
  tid ∈ due_ids s ↔ ∃ t, t ∈ timers s ∧ timer_id t = tid ∧ is_due (now s) t = true.
Proof.
  unfold due_ids. rewrite list_elem_of_In, in_map_iff. split.
  - intros (t & Hid & [Hin Hdue]%filter_In). exists t.
    by rewrite list_elem_of_In.
  - intros (t & Hin & Hid & Hdue). exists t. split; [done|].
    apply filter_In. by rewrite <- list_elem_of_In.
Qed.

Lemma tick_now s : now (tick s) = N.succ (now s).
Proof.
  rewrite tick_eq.
  apply (fire_all_ind (λ s', now s' = N.succ (now s)) (λ _, True)); [|by apply Forall_true|done].
  intros tid s' _ <-. apply fire_id_now.
Qed.

Lemma tick_length s : length (dom (tick s)) = length (dom s).
Proof.
  rewrite tick_eq.
  apply (fire_all_ind (λ s', length (dom s') = length (dom s)) (λ _, True));
    [|by apply Forall_true|done].
  intros tid s' _ <-. apply fire_id_length.
Qed.

Lemma tick_wf s : timers_wf s → timers_wf (tick s).
Proof.
  intros Hwf. rewrite tick_eq.
  apply (fire_all_ind timers_wf (λ _, True)); [|by apply Forall_true|done].
  intros tid s' _. apply fire_id_wf.
Qed.

(** A timer that is not due yet is still pending after the round. *)
Lemma tick_pending s t0 :
  timers_wf s → t0 ∈ timers s → (N.succ (now s) < due t0)%N → t0 ∈ timers (tick s).
Proof.
  intros [Hnd _] Hin Hdue. rewrite tick_eq.
  apply (fire_all_ind (λ s', t0 ∈ timers s') (λ tid, tid ≠ timer_id t0)); [| |done].
  - intros tid s' Hne Hin'. by apply fire_id_other.
  - apply Forall_forall. intros tid (t & Ht & Hid & Htd)%elem_of_due_ids Heq.
    state_fields. simpl in Ht.
    assert (t = t0) as -> by (eapply timer_id_inj; eauto; congruence).
    unfold is_due in Htd. apply N.leb_le in Htd. simpl in Htd. lia.
Qed.

(** *** Hiding the success message *)

Lemma display_alter_hide v el (d : list element) r :
  style_display (get (alter (with_display v) el d) r) =
  if decide (r = el ∧ el < length d) then v else style_display (get d r).
Proof.
  case_decide as H.
  - destruct H as [-> Hlt]. by rewrite get_alter_eq.
  - destruct (decide (el = r)) as [->|Hne]; [|by rewrite get_alter_ne].
    unfold get. rewrite list_lookup_alter_eq.
    by rewrite lookup_ge_None_2 by lia.
Qed.

(** Timers only ever hide: an element hidden stays hidden. *)
Lemma fire_id_hidden tid s r :
  style_display (elem s r) = "none" → style_display (elem (fire_id tid s) r) = "none".
Proof.
  intros H. fire_cases tid s; try done; unfold elem; state_fields.
  - rewrite display_alter_hide. by case_decide.
  - by rewrite (get_alter_proj style_display).
Qed.

Lemma fire_id_hides tid s t r :
  timers_wf s → t ∈ timers s → timer_id t = tid → hides r t →
  is_due (now s) t = true → r < length (dom s) →
  style_display (elem (fire_id tid s) r) = "none".
Proof.
  intros [Hnd _] Hin Hid Hhide Hdue Hlt. unfold fire_id.
  rewrite (find_timer_unique tid _ t Hnd Hin Hid), Hdue.
  unfold fire, run_callback. rewrite Hhide. run_script. unfold elem. state_fields.
  rewrite display_alter_hide. by rewrite decide_True.
Qed.

(** While no timeout hiding [r] is due, [r]'s display is left alone, and
    no earlier hide is introduced. *)
Lemma fire_id_block tid s r (limit : N) :
  timers_wf s → (now s < limit)%N →
  (∀ t, t ∈ timers s → hides r t → (limit ≤ due t)%N) →
  style_display (elem (fire_id tid s) r) = style_display (elem s r) ∧
  (∀ t, t ∈ timers (fire_id tid s) → hides r t → (limit ≤ due t)%N).
Proof.
  intros [Hnd Hfresh] Hnow Hlim.
  assert (∀ cb t0 t (l : list timer),
    t ∈ omap (rearm tid cb) l → (∀ x, x ∈ l → timer_id x = tid → x = t0) →
    (cb = HideElement r → hides r t0) →
    hides r t → ∃ x, x ∈ l ∧ hides r x ∧ (due x ≤ due t)%N) as Hrearm.
  { intros cb t0 t l (x & Hx & Hr)%list_elem_of_omap Huniq Hcb Hh.
    unfold rearm in Hr. destruct (Nat.eqb_spec (timer_id x) tid) as [Heq|Hne].
    - destruct (period x) as [p|]; [|done]. injection Hr as <-.
      unfold hides in Hh. simpl in Hh.
      pose proof (Huniq x Hx Heq) as ->.
      exists t0. split_and!; [done|by apply Hcb|simpl; lia].
    - injection Hr as <-. exists x. split_and!; [done..|lia]. }
  fire_cases tid s; try done.
  all: pose proof (find_timer_Some _ _ _ Hfind) as [Hin Hid].
  all: rewrite ?Hid.
  all: assert (∀ x, x ∈ timers s → timer_id x = tid → x = t) as Huniq
      by (intros x Hx Hxid; eapply timer_id_inj; eauto; congruence).
  - assert (el ≠ r) as Hne.
    { intros ->. specialize (Hlim t Hin Hact).
      unfold is_due in Hdue. apply N.leb_le in Hdue. lia. }
    split.
    + unfold elem. state_fields. by rewrite get_alter_ne.
    + intros t' Ht' Hh.
      destruct (Hrearm _ t _ _ Ht' Huniq) as (x & Hx & Hhx & Hle);
        [unfold hides; congruence|done|].
      specialize (Hlim x Hx Hhx). lia.
  - split.
    + unfold elem. state_fields. by rewrite (get_alter_proj style_display).
    + intros t' Ht' Hh.
      destruct (Hrearm _ t _ _ Ht' Huniq) as (x & Hx & Hhx & Hle); [done|done|].
      specialize (Hlim x Hx Hhx). lia.
  - split; [done|].
    intros t' Ht' Hh.
    destruct (Hrearm _ t _ _ Ht') as (x & Hx & Hhx & Hle); [|done|done|].
    + intros x [Hx _]%list_elem_of_In%filter_In Hxid.
      apply Huniq; [by apply list_elem_of_In|done].
    + apply list_elem_of_In, filter_In in Hx as [Hx _].
      specialize (Hlim x ltac:(by apply list_elem_of_In) Hhx). lia.
Qed.

Lemma fire_all_hidden ids s r :
  style_display (elem s r) = "none" → style_display (elem (fire_all ids s) r) = "none".
Proof.
  intros H.
  apply (fire_all_ind (λ s', style_display (elem s' r) = "none") (λ _, True));
    [|by apply Forall_true|done].
  intros tid s' _. apply fire_id_hidden.
Qed.

(** A due timeout hiding [r] leaves [r] hidden at the end of the round. *)
Lemma tick_hides s t r :
  timers_wf s → t ∈ timers s → hides r t → (due t ≤ N.succ (now s))%N →
  r < length (dom s) →
  style_display (elem (tick s) r) = "none".
Proof.
  intros Hwf Hin Hhide Hdue Hlt. rewrite tick_eq.
  set (s1 := set_now (N.succ (now s)) s).
  assert (timer_id t ∈ due_ids s1) as Hids.
  { apply elem_of_due_ids. exists t. split_and!; [done..|].
    unfold is_due. by apply N.leb_le. }
  apply list_elem_of_split_l in Hids as (pre & post & -> & Hpre).
  rewrite fire_all_app, fire_all_cons. apply fire_all_hidden.
  assert (timers_wf (fire_all pre s1) ∧ t ∈ timers (fire_all pre s1) ∧
          now (fire_all pre s1) = N.succ (now s) ∧
          length (dom (fire_all pre s1)) = length (dom s)) as (Hwf' & Hin' & Hnow' & Hlen').
  { apply (fire_all_ind
      (λ s', timers_wf s' ∧ t ∈ timers s' ∧ now s' = N.succ (now s) ∧
             length (dom s') = length (dom s))
      (λ tid, tid ≠ timer_id t)); [| |done].
    - intros tid s' Hne (? & ? & ? & ?).
      split_and!; [by apply fire_id_wf|by apply fire_id_other
                   |by rewrite fire_id_now|by rewrite fire_id_length].
    - apply Forall_forall. intros tid Htid ->. by destruct Hpre. }
  apply (fire_id_hides (timer_id t) (fire_all pre s1) t r Hwf' Hin' eq_refl Hhide);
    [|by rewrite Hlen'].
  unfold is_due. apply N.leb_le. by rewrite Hnow'.
Qed.

Lemma elapse_pending k s t :
  timers_wf s → t ∈ timers s → (now s + k < due t)%N →
  timers_wf (elapse k s) ∧ t ∈ timers (elapse k s) ∧
  now (elapse k s) = (now s + k)%N ∧
  length (dom (elapse k s)) = length (dom s).
Proof.
  intros Hwf Hin. induction k as [|k IH] using N.peano_ind; intros Hdue.
  - by rewrite N.add_0_r.
  - rewrite elapse_succ. destruct IH as (Hwf' & Hin' & Hnow' & Hlen'); [lia|].
    split_and!.
    + by apply tick_wf.
    + apply tick_pending; [done..|]. lia.
    + rewrite tick_now. lia.
    + by rewrite tick_length.
Qed.

(** A pending timeout hides its element when its delay has passed. *)
Lemma elapse_hides d s t r :
  timers_wf s → t ∈ timers s → hides r t → due t = (now s + d)%N → (0 < d)%N →
  r < length (dom s) →
  style_display (elem (elapse d s) r) = "none".
Proof.
  intros Hwf Hin Hhide Hdue Hpos Hlt.
  assert (∃ k, d = N.succ k) as [k ->] by (exists (N.pred d); lia).
  rewrite elapse_succ.
  destruct (elapse_pending k s t Hwf Hin) as (Hwf' & Hin' & Hnow' & Hlen'); [lia|].
  apply (tick_hides _ t); [done|done|done| |by rewrite Hlen'].
  rewrite Hnow', Hdue. lia.
Qed.

Lemma tick_block s r (limit : N) :
  timers_wf s → (N.succ (now s) < limit)%N →
  (∀ t, t ∈ timers s → hides r t → (limit ≤ due t)%N) →
  style_display (elem (tick s) r) = style_display (elem s r) ∧
  (∀ t, t ∈ timers (tick s) → hides r t → (limit ≤ due t)%N).
Proof.
  intros Hwf Hnow Hlim. rewrite tick_eq.
  set (s1 := set_now (N.succ (now s)) s).
  assert (timers_wf (fire_all (due_ids s1) s1) ∧
          now (fire_all (due_ids s1) s1) = N.succ (now s) ∧
          style_display (elem (fire_all (due_ids s1) s1) r) = style_display (elem s r) ∧
          (∀ t, t ∈ timers (fire_all (due_ids s1) s1) → hides r t → (limit ≤ due t)%N))
    as (_ & _ & ? & ?); [|done].
  apply (fire_all_ind
    (λ s', timers_wf s' ∧ now s' = N.succ (now s) ∧
           style_display (elem s' r) = style_display (elem s r) ∧
           (∀ t, t ∈ timers s' → hides r t → (limit ≤ due t)%N))
    (λ _, True)); [|by apply Forall_true|done].
  intros tid s' _ (Hwf' & Hnow' & Hdisp' & Hlim').
  destruct (fire_id_block tid s' r limit) as [Hd Hl]; [done|lia|done|].
  split_and!; [by apply fire_id_wf|by rewrite fire_id_now|congruence|done].
Qed.

(** Until the earliest pending hide of [r] comes due, the passing of time
    leaves [r]'s display as it is. *)
Lemma elapse_block k s r (limit : N) :
  timers_wf s → (now s + k < limit)%N →
  (∀ t, t ∈ timers s → hides r t → (limit ≤ due t)%N) →
  style_display (elem (elapse k s) r) = style_display (elem s r) ∧
  timers_wf (elapse k s) ∧ now (elapse k s) = (now s + k)%N ∧
  (∀ t, t ∈ timers (elapse k s) → hides r t → (limit ≤ due t)%N).
Proof.
  intros Hwf Hnow Hlim. induction k as [|k IH] using N.peano_ind.
  - by rewrite N.add_0_r.
  - rewrite elapse_succ. destruct IH as (Hd & Hwf' & Hnow' & Hlim'); [lia|].
    destruct (tick_block (elapse k s) r limit) as [Hd' Hl']; [done|lia|done|].
    split_and!; [congruence|by apply tick_wf|rewrite tick_now; lia|done].
Qed.

(** ** The typing effect *)

Lemma due_ids_sublist (p : timer → bool) (l : list timer) :
  sublist (map timer_id (List.filter p l)) (timer_id <$> l).
Proof.
  induction l as [|x l IH]; simpl; [done|].
  destruct (p x); simpl; [by apply sublist_skip|by apply sublist_cons].
Qed.

Lemma due_ids_NoDup s : NoDup (timer_id <$> timers s) → NoDup (due_ids s).
Proof. intros H. eapply sublist_NoDup; [done|apply due_ids_sublist]. Qed.

(** A timer that is not a typing interval leaves every text alone. *)
Lemma fire_id_text tid s r :
  (∀ t, t ∈ timers s → timer_id t = tid → is_typing t = false) →
  textContent (elem (fire_id tid s) r) = textContent (elem s r).
Proof.
  intros Hhide. fire_cases tid s; try done.
  all: pose proof (find_timer_Some _ _ _ Hfind) as [Hin Hid].
  - unfold elem. state_fields. by rewrite (get_alter_proj textContent).
  - specialize (Hhide t Hin Hid). unfold is_typing in Hhide. by rewrite Hact in Hhide.
Qed.

(** Firing creates no typing interval. *)
Lemma fire_id_typing tid s t' :
  timers_wf s → t' ∈ timers (fire_id tid s) → is_typing t' = true →
  ∃ t0, t0 ∈ timers s ∧ timer_id t0 = timer_id t' ∧ is_typing t0 = true.
Proof.
  intros [Hnd _] Hin' Htyp.
  destruct (decide (timer_id t' = tid)) as [Heq|Hne].
  2: { exists t'. split_and!; [|done|done]. by apply (fire_id_other tid s t'). }
  revert Hin'. fire_cases tid s; intros Hin'; try (by exists t').
  all: pose proof (find_timer_Some _ _ _ Hfind) as [Hin Hid].
  all: assert (∀ x, x ∈ timers s → timer_id x = tid → x = t) as Huniq
      by (intros x Hx Hxid; eapply timer_id_inj; eauto; congruence).
  - apply list_elem_of_omap in Hin' as (x & Hx & Hr). unfold rearm in Hr.
    rewrite Hid in Hr. destruct (Nat.eqb_spec (timer_id x) tid) as [Hxid|Hxid].
    + destruct (period x); [|done]. injection Hr as <-. done.
    + injection Hr as <-. congruence.
  - exists t. split_and!; [done|congruence|]. unfold is_typing. by rewrite Hact.
  - exists t. split_and!; [done|congruence|]. unfold is_typing. by rewrite Hact.
Qed.

Lemma fire_id_no_typing tid s : timers_wf s → no_typing s → no_typing (fire_id tid s).
Proof.
  intros Hwf Hno t Ht. destruct (is_typing t) eqn:E; [|done].
  destruct (fire_id_typing tid s t Hwf Ht E) as (t0 & Ht0 & _ & Htyp).
  by rewrite (Hno t0 Ht0) in Htyp.
Qed.

Lemma take_S_charAt (text : jsstring) q :
  q < length text → take q text ++ charAt text q = take (S q) text.
Proof.
  intros Hlt. unfold charAt.
  destruct (lookup_lt_is_Some_2 text q Hlt) as [c Hc].
  rewrite (take_S_r _ _ c Hc). f_equal.
  rewrite (drop_S _ c q Hc). reflexivity.
Qed.

(** Other timers leave the typing effect where it is. *)
Lemma fire_id_typing_at start tid r text q tid' s :
  tid' ≠ tid → typing_at start tid r text q s →
  typing_at start tid r text q (fire_id tid' s).
Proof.
  intros Hne (Hwf & Hlen & Honly & Hin & Htext & Hq). split_and!.
  - by apply fire_id_wf.
  - by rewrite fire_id_length.
  - intros t Ht Htyp.
    destruct (fire_id_typing tid' s t Hwf Ht Htyp) as (t0 & Ht0 & <- & Htyp0).
    by apply Honly.
  - by apply fire_id_other.
  - rewrite fire_id_text; [done|]. intros t Ht Hid.
    destruct (is_typing t) eqn:E; [|done]. specialize (Honly t Ht E). congruence.
  - done.
Qed.

Lemma fire_id_typing_done r text tid s :
  typing_done r text s → typing_done r text (fire_id tid s).
Proof.
  intros (Hwf & Hno & Htext). split_and!.
  - by apply fire_id_wf.
  - by apply fire_id_no_typing.
  - rewrite fire_id_text; [done|]. intros t Ht _. by apply Hno.
Qed.

Lemma fire_all_now ids s : now (fire_all ids s) = now s.
Proof.
  apply (fire_all_ind (λ s', now s' = now s) (λ _, True)); [|by apply Forall_true|done].
  intros tid s' _ <-. apply fire_id_now.
Qed.

Lemma fire_all_typing_at start tid r text q ids s :
  tid ∉ ids → typing_at start tid r text q s →
  typing_at start tid r text q (fire_all ids s).
Proof.
  intros Hnin. apply (fire_all_ind _ (λ tid', tid' ≠ tid)).
  - intros tid' s' Hne. by apply fire_id_typing_at.
  - apply Forall_forall. intros tid' Hin ->. by destruct Hnin.
Qed.

Lemma fire_all_typing_done r text ids s :
  typing_done r text s → typing_done r text (fire_all ids s).
Proof.
  apply (fire_all_ind _ (λ _, True)); [|by apply Forall_true].
  intros tid s' _. apply fire_id_typing_done.
Qed.

(** The typing interval fires: one more character. *)
Lemma fire_id_typing_step start tid r text q s :
  typing_at start tid r text q s →
  is_due (now s) (typing_timer start tid r text q) = true → q < length text →
  typing_at start tid r text (S q) (fire_id tid s).
Proof.
  intros (Hwf & Hlen & Honly & Hin & Htext & Hq) Hdue Hlt.
  assert (fire_id tid s =
    set_timers (omap (rearm tid (TypingTick r text (S q))))
      (set_dom (alter (with_textContent
                         (λ _, textContent (elem s r) ++ charAt text q)) r) s)) as Heq.
  { unfold fire_id. destruct Hwf as [Hnd _].
    rewrite (find_timer_unique tid _ _ Hnd Hin eq_refl), Hdue.
    unfold fire, run_callback, typingTick. cbn [action typing_timer timer_id].
    apply Nat.ltb_lt in Hlt. rewrite Hlt. by run_script. }
  split_and!.
  - by apply fire_id_wf.
  - by rewrite fire_id_length.
  - intros t Ht Htyp.
    destruct (fire_id_typing tid s t Hwf Ht Htyp) as (t0 & Ht0 & <- & Htyp0).
    by apply Honly.
  - rewrite Heq. state_fields. apply list_elem_of_omap.
    exists (typing_timer start tid r text q). split; [done|].
    unfold rearm. cbn [typing_timer timer_id period due]. rewrite Nat.eqb_refl.
    unfold typing_timer. do 2 f_equal. lia.
  - rewrite Heq. unfold elem. state_fields. rewrite get_alter_eq by done.
    cbn [textContent with_textContent]. fold (elem s r). rewrite Htext.
    by apply take_S_charAt.
  - lia.
Qed.

(** The typing interval fires with nothing left to reveal: it clears itself. *)
Lemma fire_id_typing_stop start tid r text q s :
  typing_at start tid r text q s →
  is_due (now s) (typing_timer start tid r text q) = true → q = length text →
  typing_done r text (fire_id tid s).
Proof.
  intros (Hwf & Hlen & Honly & Hin & Htext & Hq) Hdue ->.
  assert (fire_id tid s =
    set_timers (omap (rearm tid (TypingTick r text (length text))))
      (set_timers (List.filter (λ t, negb (Nat.eqb (timer_id t) tid))) s)) as Heq.
  { unfold fire_id. destruct Hwf as [Hnd _].
    rewrite (find_timer_unique tid _ _ Hnd Hin eq_refl), Hdue.
    unfold fire, run_callback, typingTick. cbn [action typing_timer timer_id].
    rewrite Nat.ltb_irrefl. by run_script. }
  split_and!.
  - by apply fire_id_wf.
  - intros t Ht. destruct (is_typing t) eqn:Htyp; [|done].
    destruct (fire_id_typing tid s t Hwf Ht Htyp) as (t0 & Ht0 & Hid & Htyp0).
    pose proof (Honly t0 Ht0 Htyp0) as Hid0.
    rewrite Heq in Ht. simpl in Ht.
    apply list_elem_of_omap in Ht as (x & Hx & Hr).
    apply list_elem_of_In, filter_In in Hx as [_ Hx]. unfold rearm in Hr.
    destruct (Nat.eqb_spec (timer_id x) tid) as [|Hne]; [done|].
    injection Hr as <-. congruence.
  - rewrite Heq. unfold elem. state_fields. fold (elem s r). rewrite Htext.
    by apply take_ge.
Qed.

Lemma typing_at_set_now start tid r text q n s :
  typing_at start tid r text q s → typing_at start tid r text q (set_now n s).
Proof. done. Qed.

Lemma typing_timer_due_id start tid r text q s :
  typing_at start tid r text q s →
  tid ∈ due_ids s ↔ is_due (now s) (typing_timer start tid r text q) = true.
Proof.
  intros ([Hnd _] & _ & _ & Hin & _). rewrite elem_of_due_ids. split.
  - intros (t & Ht & Hid & Hdue).
    by rewrite <- (timer_id_inj _ _ _ Hnd Ht Hin Hid).
  - intros Hdue. by exists (typing_timer start tid r text q).
Qed.

Lemma tick_typing_wait start tid r text q s :
  typing_at start tid r text q s →
  (N.succ (now s) < due (typing_timer start tid r text q))%N →
  typing_at start tid r text q (tick s).
Proof.
  intros Hat Hdue. rewrite tick_eq.
  set (s1 := set_now (N.succ (now s)) s).
  assert (typing_at start tid r text q s1) as Hat1 by done.
  apply fire_all_typing_at; [|done].
  rewrite (typing_timer_due_id _ _ _ _ _ _ Hat1). unfold is_due.
  intros H%N.leb_le. change (now s1) with (N.succ (now s)) in H. lia.
Qed.

Lemma tick_typing_fires start tid r text q s :
  typing_at start tid r text q s →
  N.succ (now s) = due (typing_timer start tid r text q) →
  (q < length text → typing_at start tid r text (S q) (tick s)) ∧
  (q = length text → typing_done r text (tick s)).
Proof.
  intros Hat Hdue. rewrite tick_eq.
  set (s1 := set_now (N.succ (now s)) s).
  assert (typing_at start tid r text q s1) as Hat1 by done.
  assert (is_due (now s1) (typing_timer start tid r text q) = true) as Hdue1.
  { unfold is_due. apply N.leb_le. change (now s1) with (N.succ (now s)). lia. }
  pose proof (proj2 (typing_timer_due_id _ _ _ _ _ _ Hat1) Hdue1) as Hids.
  assert (NoDup (due_ids s1)) as Hnd.
  { apply due_ids_NoDup. by destruct Hat1 as ([? _] & _). }
  apply list_elem_of_split_l in Hids as (pre & post & Hsplit & Hpre).
  rewrite Hsplit in Hnd |- *.
  apply NoDup_app in Hnd as (_ & _ & [Hpost _]%NoDup_cons).
  rewrite fire_all_app, fire_all_cons.
  pose proof (fire_all_typing_at _ _ _ _ _ pre s1 Hpre Hat1) as Hat2.
  assert (is_due (now (fire_all pre s1)) (typing_timer start tid r text q) = true)
    as Hdue2 by (by rewrite fire_all_now).
  split.
  - intros Hlt. apply fire_all_typing_at; [done|].
    by apply fire_id_typing_step.
  - intros Heq. apply fire_all_typing_done.
    by apply (fire_id_typing_stop start tid r text q).
Qed.

Lemma tick_typing_done r text s : typing_done r text s → typing_done r text (tick s).
Proof. intros H. rewrite tick_eq. by apply fire_all_typing_done. Qed.

(** One millisecond of the typing effect. *)
Lemma tick_typing_phase start tid r text j s :
  typing_phase start tid r text j s →
  typing_phase start tid r text (N.succ j) (tick s).
Proof.
  intros [Hnow Hphase]. split; [rewrite tick_now; lia|].
  destruct Hphase as [(q & rem & -> & Hrem & Hat)|[Hj Hdone]].
  - destruct (decide (rem = 99%N)) as [->|Hne].
    + destruct (tick_typing_fires start tid r text q s Hat) as [Hstep Hstop].
      { unfold typing_timer. cbn [due]. lia. }
      pose proof Hat as (_ & _ & _ & _ & _ & Hq).
      destruct (decide (q = length text)) as [Heq|Hlt].
      * right. split; [lia|by apply Hstop].
      * left. exists (S q), 0%N. split_and!; [lia|lia|]. apply Hstep. lia.
    + left. exists q, (N.succ rem). split_and!; [lia|lia|].
      apply tick_typing_wait; [done|]. unfold typing_timer. cbn [due]. lia.
  - right. split; [lia|by apply tick_typing_done].
Qed.

Lemma elapse_typing_phase start tid r text j s :
  typing_phase start tid r text 0 s →
  typing_phase start tid r text j (elapse j s).
Proof.
  intros H0. induction j as [|j IH] using N.peano_ind; [done|].
  rewrite elapse_succ. by apply tick_typing_phase.
Qed.

(** ** Relating the state before and after a piece of script *)

Section Preserved.
Context (R : state → state → Prop) `{!Reflexive R} `{!Transitive R}.

Lemma preserved_ret {A} (a : A) : preserved R (ret a).
Proof. intros s. simpl. reflexivity. Qed.

Lemma preserved_throw {A} e : preserved R (@throw A e).
Proof. intros s. simpl. reflexivity. Qed.

Lemma preserved_gets {A} (f : state → A) : preserved R (gets f).
Proof. intros s. simpl. reflexivity. Qed.

Lemma preserved_bind {A B} (m : M A) (k : A → M B) :
  preserved R m → (∀ a, preserved R (k a)) → preserved R (bind m k).
Proof.
  intros Hm Hk s. unfold bind. specialize (Hm s).
  destruct (m s) as [[a|e] s1]; simpl in *; [|done].
  etrans; [done|apply Hk].
Qed.

Lemma preserved_deref o : preserved R (deref o).
Proof. destruct o; [apply preserved_ret|apply preserved_throw]. Qed.

Lemma preserved_forEach_from {A} i (l : list A) f :
  (∀ x j, preserved R (f x j)) → preserved R (forEach_from i l f).
Proof.
  intros Hf. revert i. induction l as [|x l IH]; intros i; simpl.
  - apply preserved_ret.
  - apply preserved_bind; [done|]. intros _. apply IH.
Qed.

Lemma preserved_forEach {A} (l : list A) f :
  (∀ x j, preserved R (f x j)) → preserved R (forEach l f).
Proof. apply preserved_forEach_from. Qed.

Lemma preserved_modify f : (∀ s, R s (f s)) → preserved R (modify f).
Proof. intros H s. apply H. Qed.

Lemma preserved_querySelector_text text : preserved R (querySelector_text text).
Proof. intros s. simpl. reflexivity. Qed.

End Preserved.

(** Takes a method apart down to the primitives that change the state,
    which are left as goals. *)
Ltac preserve_step :=
  first
    [ match goal with
      | |- Reflexive _ => apply _
      | |- Transitive _ => apply _
      end
    | apply preserved_ret | apply preserved_throw | apply preserved_gets
    | apply preserved_deref | apply preserved_querySelector_text
    | apply preserved_bind; [..|intros ?]
    | apply preserved_forEach; [..|intros ? ?]
    | match goal with
      | |- preserved _ (if ?b then _ else _) => destruct b
      | |- preserved _ (match ?o with Some _ => _ | None => _ end) => destruct o
      end ].

Ltac preserve := repeat preserve_step.

(** ** Fade-in elements *)

Global Instance fade_untouched_refl : Reflexive fade_untouched.
Proof. by intros s. Qed.

Global Instance fade_untouched_trans : Transitive fade_untouched.
Proof.
  intros s1 s2 s3 [H1 H1'] [H2 H2']. split; [|congruence].
  intros r. by rewrite H2, H1.
Qed.

Lemma fade_untouched_class s r f :
  (∀ l, contains "visible" (f l) = contains "visible" l) →
  fade_untouched s (set_dom (alter (with_classList f) r) s).
Proof.
  intros Hf. split; [|done]. intros r'. unfold visible, has_class, elem.
  state_fields. destruct (decide (r = r')) as [<-|Hne]; [|by rewrite get_alter_ne].
  unfold get. rewrite list_lookup_alter_eq.
  destruct (dom s !! r); simpl; [apply Hf|done].
Qed.

Lemma fade_untouched_field s r f :
  (∀ e, classList (f e) = classList e) →
  fade_untouched s (set_dom (alter f r) s).
Proof.
  intros Hf. split; [|done]. intros r'. unfold visible, has_class, elem.
  state_fields. by rewrite (get_alter_proj classList).
Qed.

Lemma reset_controls_proj {B} (π : element → B) form (d : list element) :
  (∀ v e, π (with_value v e) = π e) →
  π <$> reset_controls form d = π <$> d.
Proof.
  intros Hπ. apply list_eq. intros i. unfold reset_controls.
  rewrite !list_lookup_fmap, list_lookup_imap.
  destruct (d !! i) as [e|]; simpl; [|done].
  by destruct (descendant_of d form i); rewrite ?Hπ.
Qed.

Lemma fade_untouched_reset s form :
  fade_untouched s (set_dom (reset_controls form) s).
Proof.
  split; [|done]. intros r. unfold visible, has_class, elem. state_fields.
  f_equal. apply get_map_proj. by apply reset_controls_proj.
Qed.

Ltac fade_leaf :=
  first
    [ apply preserved_modify; intros ?;
      first
        [ by split
        | apply fade_untouched_reset
        | apply fade_untouched_field; done
        | apply fade_untouched_class; intros ?;
          rewrite ?contains_add_token, ?contains_remove_token; done ]
    | intros ?; by split ].

Ltac unfold_script :=
  unfold run_handler, toggleMobileMenu, toggleDarkMode, updateDarkModeIcon,
    handleSmoothScroll, handleFormSubmit, handleNavbarScroll,
    showSuccessMessage, showError, validateField,
    classList_toggle, classList_toggle_force, classList_add, classList_remove,
    classList_contains, getAttribute, setAttribute, get_textContent,
    set_textContent, get_value, get_nextElementSibling, set_style_display,
    set_style_transitionDelay, form_reset, preventDefault, addEventListener,
    localStorage_getItem, localStorage_setItem, window_scrollTo, setTimeout,
    setInterval, clearInterval, querySelectorAll, querySelector, getElementById,
    element_querySelector, update.

(** No event handler touches the [visible] class or the observer. *)
Lemma handler_fade_untouched h : preserved fade_untouched (run_handler h).
Proof.
  destruct h; unfold_script; cbn [validateFields]; unfold_script;
    preserve; fade_leaf.
Qed.

Global Instance fade_progress_refl : Reflexive fade_progress.
Proof. intros s. split_and!; [done|done|]. intros r H1 H2. congruence. Qed.

Global Instance fade_progress_trans : Transitive fade_progress.
Proof.
  intros s1 s2 s3 (Hv & Ho & Hn) (Hv' & Ho' & Hn'). split_and!.
  - auto.
  - auto.
  - intros r H3 H1 Hobs. destruct (visible s2 r) eqn:H2.
    + by apply (Hn r H2 H1), Ho'.
    + by apply (Hn' r H3 H2).
Qed.

Lemma fade_untouched_progress s s' : fade_untouched s s' → fade_progress s s'.
Proof.
  intros [Hv Ho]. split_and!.
  - intros r. by rewrite Hv.
  - intros r. unfold observed. by rewrite Ho.
  - intros r. rewrite Hv. congruence.
Qed.

Lemma dispatch_fade_untouched tgt type s : fade_untouched s (dispatch tgt type s).
Proof.
  unfold dispatch.
  assert (fade_untouched s (set_defaultPrevented false s)) as H0 by (by split).
  revert H0. generalize (set_defaultPrevented false s) as s0.
  induction (listeners s) as [|l ls IH]; intros s0 H0; simpl; [done|].
  apply IH. destruct (listens tgt type l); [|done].
  etrans; [done|]. apply handler_fade_untouched.
Qed.

Lemma fade_untouched_classes s s' :
  classList <$> dom s' = classList <$> dom s → observer s' = observer s →
  fade_untouched s s'.
Proof.
  intros Hc Ho. split; [|done]. intros r. unfold visible, has_class, elem.
  f_equal. by apply get_map_proj.
Qed.

Lemma fire_id_fade_untouched tid s : fade_untouched s (fire_id tid s).
Proof.
  fire_cases tid s; try done; apply fade_untouched_classes; state_fields;
    by rewrite ?(map_alter_proj classList).
Qed.

Lemma tick_fade_untouched s : fade_untouched s (tick s).
Proof.
  rewrite tick_eq.
  apply (fire_all_ind (fade_untouched s) (λ _, True)); [|by apply Forall_true|by split].
  intros tid s' _ H. etrans; [done|]. apply fire_id_fade_untouched.
Qed.

Lemma elapse_fade_untouched k s : fade_untouched s (elapse k s).
Proof.
  induction k as [|k IH] using N.peano_ind; [done|].
  rewrite elapse_succ. etrans; [done|]. apply tick_fade_untouched.
Qed.

(** One entry of the observer callback. *)
Lemma observer_entry_progress r s :
  fade_progress s (exec (classList_add r "visible";; unobserve r) s).
Proof.
  unfold exec. run_script. split_and!.
  - intros r' H. unfold visible, has_class, elem in *. state_fields.
    destruct (decide (r = r')) as [<-|Hne]; [|by rewrite get_alter_ne].
    unfold get in *. rewrite list_lookup_alter_eq.
    destruct (dom s !! r); simpl in *; [|done].
    by rewrite contains_add_token, H, orb_true_r.
  - intros r' (l & Hl & Hin). unfold observed. simpl in Hl.
    destruct (observer s) as [l0|]; simpl in Hl; [|done]. injection Hl as <-.
    exists l0. split; [done|].
    by apply list_elem_of_In, filter_In in Hin as [Hin%list_elem_of_In _].
  - intros r' H1 H0 (l & Hl & Hin). simpl in Hl.
    unfold visible, has_class, elem in *. simpl in H1.
    destruct (decide (r = r')) as [<-|Hne]; [|rewrite get_alter_ne in H1 by done; congruence].
    destruct (observer s) as [l0|]; simpl in Hl; [|done]. injection Hl as <-.
    apply list_elem_of_In, filter_In in Hin as [_ Hin].
    by rewrite Nat.eqb_refl in Hin.
Qed.

Lemma observerCallback_progress entries :
  preserved fade_progress (observerCallback entries).
Proof.
  unfold observerCallback. apply preserved_forEach; [apply _..|].
  intros [r isIntersecting] _. cbn [fst snd].
  destruct isIntersecting; [|apply preserved_ret; apply _].
  intros s. apply observer_entry_progress.
Qed.

Lemma step_fade_progress ev s : fade_progress s (step ev s).
Proof.
  destruct ev as [r|r|y|entries|r text|ms]; simpl.
  - apply fade_untouched_progress, dispatch_fade_untouched.
  - apply fade_untouched_progress, dispatch_fade_untouched.
  - etrans; [|apply fade_untouched_progress, dispatch_fade_untouched].
    apply fade_untouched_progress. by split.
  - destruct (observer s); [apply observerCallback_progress|reflexivity].
  - apply fade_untouched_progress. by apply fade_untouched_field.
  - apply fade_untouched_progress, elapse_fade_untouched.
Qed.

Lemma trace_fade_progress evs s s' : s' ∈ trace evs s → fade_progress s s'.
Proof.
  revert s. induction evs as [|ev evs IH]; intros s; simpl.
  - intros ->%list_elem_of_singleton. reflexivity.
  - intros [->|Hin]%elem_of_cons; [reflexivity|].
    etrans; [apply step_fade_progress|by apply IH].
Qed.

Lemma trace_head evs s : ∃ rest, trace evs s = s :: rest.
Proof. destruct evs; simpl; eauto. Qed.

Lemma rises_cons f s s1 rest :
  rises f (s :: s1 :: rest) = (if negb (f s) && f s1 then 1 else 0) + rises f (s1 :: rest).
Proof. reflexivity. Qed.

Lemma falls_cons f s s1 rest :
  falls f (s :: s1 :: rest) = (if f s && negb (f s1) then 1 else 0) + falls f (s1 :: rest).
Proof. reflexivity. Qed.

(** Along any sequence of events an element becomes visible at most once
    and never stops being visible. *)
Lemma trace_rises_falls r evs s :
  rises (λ s, visible s r) (trace evs s) ≤ 1 ∧
  (visible s r = true → rises (λ s, visible s r) (trace evs s) = 0) ∧
  falls (λ s, visible s r) (trace evs s) = 0.
Proof.
  revert s. induction evs as [|ev evs IH]; intros s; [simpl; auto with lia|].
  cbn [trace]. destruct (IH (step ev s)) as (Hle & Hzero & Hfalls).
  destruct (trace_head evs (step ev s)) as [rest Hrest].
  rewrite Hrest in *. rewrite rises_cons, falls_cons.
  destruct (step_fade_progress ev s) as (Hmono & _ & _). specialize (Hmono r).
  destruct (visible s r) eqn:Hs.
  - rewrite (Hmono eq_refl) in *. cbn [negb andb]. rewrite (Hzero eq_refl), Hfalls.
    auto with lia.
  - cbn [negb andb]. destruct (visible (step ev s) r) eqn:Hs1.
    + rewrite (Hzero eq_refl), Hfalls. split_and!; [lia|done|done].
    + rewrite Hfalls. split_and!; [lia|done|done].
Qed.

Lemma staggered_eq element index s :
  (set_style_transitionDelay element (stagger index);; observe element) s =
  (Ok tt, staggered element index s).
Proof. reflexivity. Qed.

Lemma delay_alter v el (d : list element) r :
  style_transitionDelay (get (alter (with_transitionDelay v) el d) r) =
  if decide (r = el ∧ el < length d) then Some v else style_transitionDelay (get d r).
Proof.
  case_decide as H.
  - destruct H as [-> Hlt]. by rewrite get_alter_eq.
  - destruct (decide (el = r)) as [->|Hne]; [|by rewrite get_alter_ne].
    unfold get. rewrite list_lookup_alter_eq.
    by rewrite lookup_ge_None_2 by lia.
Qed.

Lemma staggered_observed element index s r :
  is_Some (observer s) → r = element ∨ observed s r →
  observed (staggered element index s) r.
Proof.
  intros [l Hl] Hr. unfold observed, staggered. state_fields. rewrite Hl. simpl.
  eexists. split; [done|].
  destruct (existsb (Nat.eqb element) l) eqn:E.
  - destruct Hr as [->|(l' & Hl' & Hin)]; [|congruence].
    apply existsb_exists in E as (x & Hx & ->%Nat.eqb_eq). by apply list_elem_of_In.
  - apply elem_of_app. destruct Hr as [->|(l' & Hl' & Hin)].
    + right. by apply list_elem_of_singleton.
    + left. congruence.
Qed.

(** The loop of [setupScrollAnimations], started at index [k]. *)
Lemma stagger_loop (l : list ref) k s :
  NoDup l → (∀ x, x ∈ l → x < length (dom s)) → is_Some (observer s) →
  let body := λ element index,
    (set_style_transitionDelay element (stagger index);; observe element) in
  let s' := exec (forEach_from k l body) s in
  result (forEach_from k l body) s = Ok tt ∧
  length (dom s') = length (dom s) ∧
  (∀ i r, l !! i = Some r →
     style_transitionDelay (elem s' r) = Some (stagger (k + i))) ∧
  (∀ r, r ∉ l → style_transitionDelay (elem s' r) = style_transitionDelay (elem s r)) ∧
  (∀ r, r ∈ l ∨ observed s r → observed s' r).
Proof.
  intros Hnd Hvalid Hobs body. revert k s Hvalid Hobs.
  induction l as [|x l IH]; intros k s Hvalid Hobs.
  - simpl. split_and!; try done.
    intros r [Hr|Hr]; [by apply elem_of_nil in Hr|done].
  - apply NoDup_cons in Hnd as [Hx Hnd].
    cbn zeta. unfold exec, result. cbn [forEach_from].
    unfold body at 1 3 5 7 9. rewrite (bind_Ok _ _ _ _ _ (staggered_eq x k s)).
    destruct (IH Hnd (S k) (staggered x k s)) as (Hres & Hlen & Hdelay & Hframe & Hobserved).
    { intros y Hy. unfold staggered. state_fields. rewrite length_alter.
      apply Hvalid. by right. }
    { unfold staggered. state_fields. destruct Hobs as [o ->]. by eexists. }
    fold body. unfold exec, result in *.
    assert (length (dom (staggered x k s)) = length (dom s)) as Hlen0.
    { unfold staggered. state_fields. apply length_alter. }
    split_and!.
    + done.
    + congruence.
    + intros [|i] r Hr; simpl in Hr.
      * injection Hr as <-. rewrite (Hframe x Hx). unfold staggered, elem. state_fields.
        rewrite delay_alter, decide_True; [by rewrite Nat.add_0_r|].
        split; [done|]. apply Hvalid. by left.
      * rewrite (Hdelay i r Hr). do 2 f_equal. lia.
    + intros r Hr. rewrite Hframe by (intros ?; apply Hr; by right).
      unfold staggered, elem. state_fields.
      rewrite delay_alter, decide_False; [done|].
      intros [-> _]. apply Hr. by left.
    + intros r Hr. apply Hobserved.
      destruct (decide (r ∈ l)) as [?|Hnin]; [by left|right].
      apply staggered_observed; [done|].
      destruct Hr as [[->|?]%elem_of_cons|?]; [by left|done|by right].
Qed.

(** ** No handler starts the typing effect *)

Lemma schedule_wf cb delay repeat s :
  timers_wf s → timers_wf (snd (schedule cb delay repeat s)).
Proof.
  intros [Hnd Hlt]. unfold schedule. cbn [snd]. split; state_fields.
  - rewrite fmap_app. apply NoDup_app. split_and!; [done| |].
    + intros x (t & -> & Ht)%list_elem_of_fmap Hx. simpl in Hx.
      apply list_elem_of_singleton in Hx. specialize (Hlt t Ht). lia.
    + simpl. apply NoDup_singleton.
  - intros t [Ht| ->%list_elem_of_singleton]%elem_of_app;
      [specialize (Hlt t Ht); lia|simpl; lia].
Qed.

Global Instance typing_not_started_refl : Reflexive typing_not_started.
Proof. intros s H. exact H. Qed.

Global Instance typing_not_started_trans : Transitive typing_not_started.
Proof. intros s1 s2 s3 H1 H2 H. by apply H2, H1. Qed.

Ltac typing_leaf :=
  first
    [ apply preserved_modify; intros ? Hq; exact Hq
    | intros ? [Hwf Hno]; split;
      [ by apply schedule_wf
      | intros t Ht; simpl in Ht;
        apply elem_of_app in Ht as [Ht|Ht%list_elem_of_singleton];
        [by apply Hno|by subst] ] ].

Lemma handler_typing_not_started h : preserved typing_not_started (run_handler h).
Proof.
  destruct h; unfold_script; cbn [validateFields]; unfold_script;
    preserve; typing_leaf.
Qed.

Lemma dispatch_quiet tgt type s : quiet s → quiet (dispatch tgt type s).
Proof.
  unfold dispatch.
  assert (quiet s → quiet (set_defaultPrevented false s)) as H0 by done.
  revert H0. generalize (set_defaultPrevented false s) as s0.
  induction (listeners s) as [|l ls IH]; intros s0 H0; simpl; [done|].
  apply IH. destruct (listens tgt type l); [|done].
  intros Hq. by apply handler_typing_not_started, H0.
Qed.

Lemma observerCallback_quiet entries s :
  quiet s → quiet (exec (observerCallback entries) s).
Proof.
  assert (preserved typing_not_started (observerCallback entries)) as H; [|apply H].
  unfold observerCallback. unfold_script. unfold observe, unobserve.
  preserve; typing_leaf.
Qed.

Lemma tick_quiet s : quiet s → quiet (tick s).
Proof.
  intros Hq. rewrite tick_eq.
  apply (fire_all_ind quiet (λ _, True)); [|by apply Forall_true|done].
  intros tid s' _ [? ?]. split; [by apply fire_id_wf|by apply fire_id_no_typing].
Qed.

Lemma elapse_quiet k s : quiet s → quiet (elapse k s).
Proof.
  intros Hq. induction k as [|k IH] using N.peano_ind; [done|].
  rewrite elapse_succ. by apply tick_quiet.
Qed.

Lemma step_quiet ev s : quiet s → quiet (step ev s).
Proof.
  intros Hq. destruct ev as [r|r|y|entries|r text|ms]; simpl.
  - by apply dispatch_quiet.
  - by apply dispatch_quiet.
  - by apply dispatch_quiet.
  - destruct (observer s); [by apply observerCallback_quiet|done].
  - done.
  - by apply elapse_quiet.
Qed.

(** Once no typing interval is pending, none is ever pending again. *)
Lemma trace_quiet evs s s' : quiet s → s' ∈ trace evs s → quiet s'.
Proof.
  revert s. induction evs as [|ev evs IH]; intros s Hq; simpl.
  - by intros ->%list_elem_of_singleton.
  - intros [->|Hin]%elem_of_cons; [done|].
    apply (IH (step ev s)); [by apply step_quiet|done].
Qed.

(** ** An accepted submit *)

Lemma get_reset_controls form (d : list element) r :
  get (reset_controls form d) r =
  if descendant_of d form r then with_value (defaultValue (get d r)) (get d r)
  else get d r.
Proof.
  unfold get, reset_controls. rewrite list_lookup_imap.
  destruct (d !! r) as [e|] eqn:He; simpl.
  - by destruct (descendant_of d form r).
  - assert (descendant_of d form r = false) as ->; [|done].
    unfold descendant_of. destruct (length d); simpl; [done|by rewrite He].
Qed.

Lemma acceptable_valid s ni ei mi :
  acceptable s ni ei mi → form_valid s ni ei mi = true.
Proof.
  intros (Hn & He & Hv & Hm). unfold form_valid, no_error, entered in *.
  rewrite !field_error_filled by done. by rewrite Hv.
Qed.

Lemma handleFormSubmit_accepted s ni ne ei ee mi me sx form :
  form_markup s ni ne ei ee mi me → reset_markup s sx form ni ei mi →
  acceptable s ni ei mi →
  handleFormSubmit s =
  (Ok tt, accepted (select_all (SelClass "error-message") (dom s)) sx form s).
Proof.
  intros Hfm Hrm Hok. rewrite (handleFormSubmit_eq s ni ne ei ee mi me Hfm).
  rewrite (acceptable_valid _ _ _ _ Hok).
  by rewrite (rm_success _ _ _ _ _ _ Hrm), (rm_form _ _ _ _ _ _ Hrm).
Qed.

Section Accepted.
Variables (s : state) (errs : list ref) (sx form : ref).

Lemma accepted_proj {B} (π : element → B) :
  (∀ f e, π (with_textContent f e) = π e) →
  (∀ v e, π (with_display v e) = π e) →
  (∀ v e, π (with_value v e) = π e) →
  π <$> dom (accepted errs sx form s) = π <$> dom s.
Proof.
  intros H1 H2 H3. unfold accepted, shown. state_fields.
  rewrite reset_controls_proj by done.
  rewrite (map_alter_proj π) by apply H2.
  rewrite (map_alter_proj π) by apply H1.
  by apply cleared_proj.
Qed.

Lemma accepted_length : length (dom (accepted errs sx form s)) = length (dom s).
Proof. apply (fmap_length_eq el_id). by apply accepted_proj. Qed.

Lemma accepted_text :
  sx < length (dom s) → textContent (elem (accepted errs sx form s) sx) = success_text.
Proof.
  intros success_valid.
  unfold accepted, elem. state_fields. rewrite get_reset_controls.
  assert (textContent (get (shown sx (cleared errs (dom s))) sx) = success_text) as H.
  { unfold shown. rewrite (get_alter_proj textContent) by done.
    by rewrite get_alter_eq by (by rewrite cleared_length). }
  by destruct (descendant_of _ _ _).
Qed.

Lemma accepted_display :
  sx < length (dom s) → style_display (elem (accepted errs sx form s) sx) = "block".
Proof.
  intros success_valid.
  unfold accepted, elem. state_fields. rewrite get_reset_controls.
  assert (style_display (get (shown sx (cleared errs (dom s))) sx) = "block") as H.
  { unfold shown. by rewrite get_alter_eq by (by rewrite length_alter, cleared_length). }
  by destruct (descendant_of _ _ _).
Qed.

Lemma accepted_value r :
  value (elem (accepted errs sx form s) r) =
  if descendant_of (dom s) form r then defaultValue (elem s r) else value (elem s r).
Proof.
  unfold accepted, elem. state_fields. rewrite get_reset_controls.
  set (d := shown sx (cleared errs (dom s))).
  assert (∀ {B} (π : element → B),
    (∀ f e, π (with_textContent f e) = π e) →
    (∀ v e, π (with_display v e) = π e) → π <$> d = π <$> dom s) as Hd.
  { intros B π H1 H2. unfold d, shown.
    rewrite (map_alter_proj π) by apply H2.
    rewrite (map_alter_proj π) by apply H1. by apply cleared_proj. }
  rewrite (descendant_of_ext d (dom s)) by (by apply (Hd _ parentNode)).
  destruct (descendant_of (dom s) form r); cbn [value with_value].
  - apply get_map_proj. by apply Hd.
  - apply get_map_proj. by apply Hd.
Qed.

Lemma accepted_timers :
  timers (accepted errs sx form s) = timers s ++ [hide_timer s sx].
Proof. reflexivity. Qed.

Lemma accepted_now : now (accepted errs sx form s) = now s.
Proof. reflexivity. Qed.

Lemma accepted_wf : timers_wf s → timers_wf (accepted errs sx form s).
Proof.
  intros [Hnd Hlt]. split.
  - rewrite accepted_timers, fmap_app. apply NoDup_app. split_and!; [done| |].
    + intros x (t & -> & Ht)%list_elem_of_fmap Hx. simpl in Hx.
      apply list_elem_of_singleton in Hx. specialize (Hlt t Ht). lia.
    + simpl. apply NoDup_singleton.
  - intros t. rewrite accepted_timers, elem_of_app. unfold accepted. state_fields.
    intros [Ht| ->%list_elem_of_singleton]; [specialize (Hlt t Ht); lia|simpl; lia].
Qed.

End Accepted.

(** ** What the markup hypotheses depend on *)

Lemma form_markup_ext s s' ni ne ei ee mi me :
  el_id <$> dom s' = el_id <$> dom s → parents (dom s') = parents (dom s) →
  classList <$> dom s' = classList <$> dom s →
  form_markup s ni ne ei ee mi me → form_markup s' ni ne ei ee mi me.
Proof.
  intros Hid Hpar Hcls [Hn He Hm Hns Hes Hms Hnc Hec Hmc].
  assert (∀ r tok, has_class s' r tok = has_class s r tok) as Hc.
  { intros r tok. unfold has_class, elem. f_equal. by apply get_map_proj. }
  constructor; rewrite ?Hc; try done.
  all: try by rewrite (select_all_id_ext _ (dom s') (dom s)).
  all: by rewrite (next_sibling_ext (dom s') (dom s)).
Qed.

Lemma reset_markup_ext s s' sx form ni ei mi :
  el_id <$> dom s' = el_id <$> dom s → parents (dom s') = parents (dom s) →
  defaultValue <$> dom s' = defaultValue <$> dom s → this s' = this s →
  reset_markup s sx form ni ei mi → reset_markup s' sx form ni ei mi.
Proof.
  intros Hid Hpar Hdef Hthis [Hsx Hform Hdn Hde Hdm Hvn Hve Hvm].
  assert (∀ r, defaultValue (elem s' r) = defaultValue (elem s r)) as Hd.
  { intros r. unfold elem. by apply get_map_proj. }
  constructor; rewrite ?Hd, ?Hthis; try done.
  - by rewrite (select_all_id_ext _ (dom s') (dom s)).
  - by rewrite (descendant_of_ext (dom s') (dom s)).
  - by rewrite (descendant_of_ext (dom s') (dom s)).
  - by rewrite (descendant_of_ext (dom s') (dom s)).
Qed.

(** Timers change displays and texts, nothing else of the page. *)
Lemma fire_id_proj {B} (π : element → B) tid s :
  (∀ f e, π (with_textContent f e) = π e) →
  (∀ v e, π (with_display v e) = π e) →
  π <$> dom (fire_id tid s) = π <$> dom s.
Proof.
  intros H1 H2. fire_cases tid s; try done.
  - by apply map_alter_proj.
  - by apply map_alter_proj.
Qed.

Lemma fire_id_this tid s : this (fire_id tid s) = this s.
Proof. fire_cases tid s; reflexivity. Qed.

Lemma elapse_proj {B} (π : element → B) k s :
  (∀ f e, π (with_textContent f e) = π e) →
  (∀ v e, π (with_display v e) = π e) →
  π <$> dom (elapse k s) = π <$> dom s ∧ this (elapse k s) = this s.
Proof.
  intros H1 H2. induction k as [|k [IH IH']] using N.peano_ind; [done|].
  rewrite elapse_succ, tick_eq.
  apply (fire_all_ind (λ s', π <$> dom s' = π <$> dom s ∧ this s' = this s) (λ _, True));
    [|by apply Forall_true|done].
  intros tid s' _ [<- <-]. split; [by apply fire_id_proj|apply fire_id_this].
Qed.

Lemma elapse_now k s : now (elapse k s) = (now s + k)%N.
Proof.
  induction k as [|k IH] using N.peano_ind; [by rewrite N.add_0_r|].
  rewrite elapse_succ, tick_now, IH. lia.
Qed.

(** *** The user fills the three fields in again *)

Section Refill.
Variables (s : state) (ni ei mi : ref) (v1 v2 v3 : jsstring).
Let s' := step (Input mi v3) (step (Input ei v2) (step (Input ni v1) s)).

Lemma refill_proj {B} (π : element → B) :
  (∀ v e, π (with_value v e) = π e) → π <$> dom s' = π <$> dom s.
Proof.
  intros H. unfold s'. simpl. by rewrite !(map_alter_proj π).
Qed.

Lemma refill_values :
  ni < length (dom s) → ei < length (dom s) → mi < length (dom s) →
  ni ≠ ei → ni ≠ mi → ei ≠ mi →
  value (elem s' ni) = v1 ∧ value (elem s' ei) = v2 ∧ value (elem s' mi) = v3.
Proof.
  intros Hn He Hm H1 H2 H3. unfold s', elem. simpl. split_and!.
  - rewrite !get_alter_ne by done. by rewrite get_alter_eq.
  - rewrite get_alter_ne by done. by rewrite get_alter_eq by (by rewrite length_alter).
  - by rewrite get_alter_eq by (by rewrite !length_alter).
Qed.

End Refill.

(** ** The email pattern *)

Lemma lang_seq_inv r1 r2 s :
  Regex.lang (Regex.Seq r1 r2) s →
  ∃ s1 s2, s = s1 ++ s2 ∧ Regex.lang r1 s1 ∧ Regex.lang r2 s2.
Proof. intros H. inversion H; subst. eauto. Qed.

Lemma lang_or_inv r1 r2 s :
  Regex.lang (Regex.Or r1 r2) s → Regex.lang r1 s ∨ Regex.lang r2 s.
Proof. intros H. inversion H; subst; auto. Qed.

Lemma lang_class_inv p s :
  Regex.lang (Regex.Class p) s → ∃ c, s = [c] ∧ p c = true.
Proof. intros H. inversion H; subst. eauto. Qed.

Lemma lang_fail_inv s : ¬ Regex.lang Regex.Fail s.
Proof. intros H. inversion H. Qed.

Lemma lang_eps_inv s : Regex.lang Regex.Eps s → s = [].
Proof. intros H. by inversion H. Qed.

Lemma nullable_lang r : Regex.nullable r = true ↔ Regex.lang r [].
Proof.
  induction r as [| |p|r1 IH1 r2 IH2|r1 IH1 r2 IH2|r IH]; simpl.
  - split; [done|]. by intros ?%lang_fail_inv.
  - split; [constructor|done].
  - split; [done|]. by intros (c & ? & _)%lang_class_inv.
  - rewrite andb_true_iff, IH1, IH2. split.
    + intros [H1 H2]. by apply (Regex.lang_seq r1 r2 [] []).
    + intros (s1 & s2 & Heq & H1 & H2)%lang_seq_inv.
      symmetry in Heq. apply app_eq_nil in Heq as [-> ->]. done.
  - rewrite orb_true_iff, IH1, IH2. split.
    + intros [H|H]; [by apply Regex.lang_or_l|by apply Regex.lang_or_r].
    + apply lang_or_inv.
  - split; [constructor|done].
Qed.

Lemma lang_star_head c r s :
  Regex.lang (Regex.Star r) (c :: s) →
  ∃ s1 s2, s = s1 ++ s2 ∧ Regex.lang r (c :: s1) ∧ Regex.lang (Regex.Star r) s2.
Proof.
  intros H. remember (Regex.Star r) as r' eqn:Hr. remember (c :: s) as w eqn:Hw.
  induction H as [| | | | | |r0 s1 s2 H1 _ H2 IH2]; try discriminate.
  injection Hr as ->. destruct s1 as [|c' s1]; simpl in Hw.
  - by apply IH2.
  - injection Hw as -> <-. by exists s1, s2.
Qed.

Lemma deriv_lang c r s : Regex.lang (Regex.deriv c r) s ↔ Regex.lang r (c :: s).
Proof.
  revert s. induction r as [| |p|r1 IH1 r2 IH2|r1 IH1 r2 IH2|r IH]; intros s; simpl.
  - split; by intros ?%lang_fail_inv.
  - split; [by intros ?%lang_fail_inv|by intros ?%lang_eps_inv].
  - destruct (p c) eqn:Hp; split.
    + intros ->%lang_eps_inv. by constructor.
    + intros (c' & [= -> ->] & _)%lang_class_inv. constructor.
    + by intros ?%lang_fail_inv.
    + intros (c' & [= -> ->] & ?)%lang_class_inv. congruence.
  - assert (Regex.lang (Regex.Seq (Regex.deriv c r1) r2) s →
            Regex.lang (Regex.Seq r1 r2) (c :: s)) as Hleft.
    { intros (s1 & s2 & -> & H1 & H2)%lang_seq_inv.
      apply IH1 in H1. by apply (Regex.lang_seq r1 r2 (c :: s1) s2). }
    assert (Regex.lang (Regex.Seq r1 r2) (c :: s) →
            Regex.lang (Regex.Seq (Regex.deriv c r1) r2) s ∨
            (Regex.lang r1 [] ∧ Regex.lang (Regex.deriv c r2) s)) as Hsplit.
    { intros (s1 & s2 & Heq & H1 & H2)%lang_seq_inv.
      destruct s1 as [|c' s1]; simpl in Heq.
      - subst s2. right. split; [done|by apply IH2].
      - injection Heq as <- ->. left. constructor; [by apply IH1|done]. }
    destruct (Regex.nullable r1) eqn:Hn.
    + split.
      * intros [H|H]%lang_or_inv; [by apply Hleft|].
        apply (Regex.lang_seq r1 r2 [] (c :: s)); [by apply nullable_lang|by apply IH2].
      * intros [H|[_ H]]%Hsplit; [by apply Regex.lang_or_l|by apply Regex.lang_or_r].
    + split; [done|].
      intros [H|[H _]]%Hsplit; [done|].
      apply nullable_lang in H. congruence.
  - split.
    + intros [H|H]%lang_or_inv;
        [apply Regex.lang_or_l; by apply IH1|apply Regex.lang_or_r; by apply IH2].
    + intros [H|H]%lang_or_inv;
        [apply Regex.lang_or_l; by apply IH1|apply Regex.lang_or_r; by apply IH2].
  - split.
    + intros (s1 & s2 & -> & H1 & H2)%lang_seq_inv.
      apply IH in H1. by apply (Regex.lang_star_cons r (c :: s1) s2).
    + intros (s1 & s2 & -> & H1 & H2)%lang_star_head.
      constructor; [by apply IH|done].
Qed.

(** The matcher decides membership in the pattern's language. *)
Lemma test_lang r s : Regex.test r s = true ↔ Regex.lang r s.
Proof.
  revert r. induction s as [|c s IH]; intros r; simpl.
  - apply nullable_lang.
  - rewrite IH. apply deriv_lang.
Qed.

Lemma lang_class_star p s :
  Regex.lang (Regex.Star (Regex.Class p)) s ↔ Forall (λ c, p c = true) s.
Proof.
  split.
  - intros H. remember (Regex.Star (Regex.Class p)) as r eqn:Hr.
    induction H as [| | | | | |r0 s1 s2 H1 _ H2 IH2]; try discriminate; [done|].
    injection Hr as ->. apply lang_class_inv in H1 as (c & -> & Hc).
    constructor; [done|by apply IH2].
  - induction 1 as [|c s Hc _ IH]; [constructor|].
    apply (Regex.lang_star_cons _ [c] s); [by constructor|done].
Qed.

Lemma lang_class_plus p s :
  Regex.lang (Regex.Plus (Regex.Class p)) s ↔ s ≠ [] ∧ Forall (λ c, p c = true) s.
Proof.
  unfold Regex.Plus. split.
  - intros (s1 & s2 & -> & (c & -> & Hc)%lang_class_inv & H2)%lang_seq_inv.
    split; [done|]. constructor; [done|by apply lang_class_star].
  - intros [Hne Hall]. destruct Hall as [|c s Hc Hall]; [done|].
    apply (Regex.lang_seq _ _ [c] s); [by constructor|by apply lang_class_star].
Qed.

Lemma lang_char c s : Regex.lang (Regex.Char c) s ↔ s = [c].
Proof.
  unfold Regex.Char. split.
  - intros (c' & -> & Hc)%lang_class_inv. by apply N.eqb_eq in Hc as ->.
  - intros ->. constructor. apply N.eqb_refl.
Qed.

(** What [validateEmail] accepts: a non-empty local part, [@], a non-empty
    part, a dot, a non-empty part, none of the three parts containing white
    space or [@]. *)
Lemma validateEmail_shape (email : jsstring) :
  validateEmail email = true ↔
  ∃ l d t, email = l ++ 64%N :: d ++ 46%N :: t ∧
    l ≠ [] ∧ d ≠ [] ∧ t ≠ [] ∧
    Forall (λ c, not_space_at c = true) l ∧
    Forall (λ c, not_space_at c = true) d ∧
    Forall (λ c, not_space_at c = true) t.
Proof.
  unfold validateEmail, email_re. rewrite test_lang. split.
  - intros (l & s1 & -> & Hl & H1)%lang_seq_inv.
    apply lang_seq_inv in H1 as (a & s2 & -> & Ha & H2).
    apply lang_seq_inv in H2 as (d & s3 & -> & Hd & H3).
    apply lang_seq_inv in H3 as (b & t & -> & Hb & Ht).
    apply lang_char in Ha as ->. apply lang_char in Hb as ->.
    apply lang_class_plus in Hl as [? ?], Hd as [? ?], Ht as [? ?].
    by exists l, d, t.
  - intros (l & d & t & -> & ? & ? & ? & ? & ? & ?).
    apply (Regex.lang_seq _ _ l); [by apply lang_class_plus|].
    apply (Regex.lang_seq _ _ [64%N]); [by apply lang_char|].
    apply (Regex.lang_seq _ _ d); [by apply lang_class_plus|].
    apply (Regex.lang_seq _ _ [46%N]); [by apply lang_char|].
    by apply lang_class_plus.
Qed.

(** ** Claim C6 *)

(** C6: starting from the closed state, an even number of calls of
    [toggleMobileMenu] brings the panel's visibility and the hamburger's
    [aria-expanded] mark back to closed, an odd number leaves the menu
    open, every call completes, and after any number of calls the menu is
    open exactly when the hamburger is marked expanded. *)
Theorem mobile_menu_parity (s : state) (h m : ref) (n : nat) :
  hamburger (this s) = Some h → mobileMenu (this s) = Some m → h ≠ m →
  h < length (dom s) → m < length (dom s) →
  menu_open s = false → marked_expanded s = false →
  let s' := Nat.iter n (exec toggleMobileMenu) s in
  (Nat.even n = true → menu_open s' = false ∧ marked_expanded s' = false) ∧
  (Nat.odd n = true → menu_open s' = true ∧ marked_expanded s' = true) ∧
  menu_open s' = marked_expanded s' ∧
  result toggleMobileMenu s' = Ok tt.
Proof.
  intros Hh Hm Hne Hlh Hlm Hclosed Hunmarked s'.
  destruct (menu_toggles s h m n Hh Hm Hne Hlh Hlm) as (Ht & Hl & Ho & He).
  fold s' in Ht, Hl, Ho, He. rewrite Hclosed in Ho. rewrite Hunmarked in He.
  rewrite xorb_false_r in Ho, He.
  split_and!.
  - rewrite <- Nat.negb_odd. intros Hev. rewrite Ho, He.
    by destruct (Nat.odd n).
  - intros Hodd. by rewrite Ho, He.
  - congruence.
  - unfold result. rewrite (toggleMobileMenu_eq s' h m) by congruence. done.
Qed.

Lemma mobile_menu_parity_witness :
  let s := Sample.start in
  (hamburger (this s) = Some 2 ∧ mobileMenu (this s) = Some 3 ∧ 2 ≠ 3 ∧
   2 < length (dom s) ∧ 3 < length (dom s) ∧
   menu_open s = false ∧ marked_expanded s = false) ∧
  let s' := Nat.iter 3 (exec toggleMobileMenu) s in
  (Nat.even 3 = true → menu_open s' = false ∧ marked_expanded s' = false) ∧
  (Nat.odd 3 = true → menu_open s' = true ∧ marked_expanded s' = true) ∧
  menu_open s' = marked_expanded s' ∧
  result toggleMobileMenu s' = Ok tt.
Proof.
  split.
  - split_and!; [reflexivity|reflexivity|lia|vm_compute; lia|vm_compute; lia
                 |reflexivity|reflexivity].
  - apply (mobile_menu_parity Sample.start 2 3 3);
      [reflexivity|reflexivity|lia|vm_compute; lia|vm_compute; lia
      |reflexivity|reflexivity].
Defined.

(** ** Claims C3 and C5 *)

(** C3: on load, [initDarkMode] applies the stored preference if there is
    one, else the ambient scheme preference, else light.  On markup that
    starts light with a moon icon, the body is dark and the icon a sun
    exactly when that rule says dark, and light with a moon otherwise; in
    particular no stored preference and an ambient dark preference give
    dark visuals and the sun, no stored and no ambient preference give
    light visuals and the moon. *)
Theorem theme_on_load_applied (s : state) (t icon : ref) (stored : option theme) :
  darkModeToggle (this s) = Some t → theme_icon s = Some icon →
  body s < length (dom s) →
  dark_visuals s = false → icon_moon s = true → icon_sun s = false →
  stored_preference s = stored_as stored →
  let s' := exec initDarkMode s in
  let applied := theme_on_load stored (prefersDark s) in
  result initDarkMode s = Ok tt ∧
  dark_visuals s' = is_dark applied ∧
  icon_sun s' = is_dark applied ∧
  icon_moon s' = negb (is_dark applied).
Proof.
  intros Ht Hi Hb Hlight Hmoon Hsun Hstored. unfold exec, result.
  rewrite (initDarkMode_eq s t icon Ht Hi). cbn [fst snd]. rewrite Hstored.
  pose proof (theme_icon_lt _ _ Hi) as Hlt.
  assert (∀ d, theme_on_load stored (prefersDark s) = d →
     (strict_eq (stored_as stored) "dark"
      || falsy (stored_as stored) && prefersDark s) = is_dark d) as Hrule.
  { intros d <-. destruct stored as [[]|]; [done|done|].
    simpl. by destruct (prefersDark s). }
  rewrite (Hrule _ eq_refl).
  destruct (is_dark (theme_on_load stored (prefersDark s))); [|done].
  cbn [negb].
  set (d1 := alter (with_classList (add_token "dark-mode")) (body s) (dom s)).
  assert (length d1 = length (dom s)) as Hd1 by apply length_alter.
  assert (theme_icon (set_dom (λ d, iconised icon true
            (alter (with_classList (add_token "dark-mode")) (body s) d)) s)
          = Some icon) as Hi'.
  { rewrite <- Hi. apply theme_icon_tree; state_fields; [done| |].
    - rewrite iconised_parents. by apply parents_alter.
    - rewrite iconised_tags. by apply (map_alter_proj tagName). }
  split_and!; [done| | |].
  - unfold dark_visuals, has_class, elem. state_fields. fold d1.
    rewrite iconised_class by lia.
    assert (contains "dark-mode" (classList (get d1 (body s))) = true) as ->.
    { unfold d1. rewrite get_alter_eq by done. cbn [classList with_classList].
      by rewrite contains_add_token. }
    by case_decide.
  - unfold icon_sun. rewrite Hi'. unfold has_class, elem. state_fields.
    fold d1. rewrite iconised_class by lia. by rewrite decide_True.
  - unfold icon_moon. rewrite Hi'. unfold has_class, elem. state_fields.
    fold d1. rewrite iconised_class by lia. by rewrite decide_True.
Qed.

Lemma theme_on_load_applied_witness :
  let s := Sample.bound ∅ true in
  (darkModeToggle (this s) = Some 5 ∧ theme_icon s = Some 6 ∧
   body s < length (dom s) ∧
   dark_visuals s = false ∧ icon_moon s = true ∧ icon_sun s = false ∧
   stored_preference s = stored_as None) ∧
  let s' := exec initDarkMode s in
  let applied := theme_on_load None (prefersDark s) in
  result initDarkMode s = Ok tt ∧
  dark_visuals s' = is_dark applied ∧
  icon_sun s' = is_dark applied ∧
  icon_moon s' = negb (is_dark applied).
Proof.
  split.
  - split_and!; [reflexivity|reflexivity|vm_compute; lia
                 |reflexivity|reflexivity|reflexivity|reflexivity].
  - apply (theme_on_load_applied (Sample.bound ∅ true) 5 6 None);
      [reflexivity|reflexivity|vm_compute; lia
      |reflexivity|reflexivity|reflexivity|reflexivity].
Defined.

(** C5, as the code has it: two calls of [toggleDarkMode] bring the body's
    dark/light class back to where it was and leave in storage the literal
    for that original visual state (so the stored value is back to the
    original one whenever the original one matched the visuals); one call
    writes exactly "dark" or "light", the one matching the visual state it
    produced, so that after every call the visual theme and the stored
    preference agree. *)
Theorem theme_toggle_twice (s : state) (t icon : ref) :
  darkModeToggle (this s) = Some t → theme_icon s = Some icon →
  body s < length (dom s) →
  let s1 := exec toggleDarkMode s in
  let s2 := exec toggleDarkMode s1 in
  (result toggleDarkMode s = Ok tt ∧ result toggleDarkMode s1 = Ok tt) ∧
  (dark_visuals s1 = negb (dark_visuals s) ∧
   stored_preference s1 = Some (theme_literal (dark_visuals s1))) ∧
  (dark_visuals s2 = dark_visuals s ∧
   stored_preference s2 = Some (theme_literal (dark_visuals s))) ∧
  (stored_preference s = Some (theme_literal (dark_visuals s)) →
   stored_preference s2 = stored_preference s).
Proof.
  intros Ht Hi Hb s1 s2.
  destruct (toggleDarkMode_flips s t icon Ht Hi Hb)
    as (Hr1 & Ht1 & Hb1 & Hl1 & Hi1 & Hd1 & Hs1 & _).
  fold s1 in Ht1, Hb1, Hl1, Hi1, Hd1, Hs1.
  destruct (toggleDarkMode_flips s1 t icon) as (Hr2 & _ & _ & _ & _ & Hd2 & Hs2 & _);
    [congruence|done|congruence|].
  fold s2 in Hd2, Hs2.
  assert (dark_visuals s2 = dark_visuals s) as Hback.
  { rewrite Hd2, Hd1. apply negb_involutive. }
  split_and!; try done.
  - by rewrite Hs2, Hback.
  - intros ->. by rewrite Hs2, Hback.
Qed.

Lemma theme_toggle_twice_witness :
  let s := Sample.start in
  (darkModeToggle (this s) = Some 5 ∧ theme_icon s = Some 6 ∧
   body s < length (dom s)) ∧
  let s1 := exec toggleDarkMode s in
  let s2 := exec toggleDarkMode s1 in
  (result toggleDarkMode s = Ok tt ∧ result toggleDarkMode s1 = Ok tt) ∧
  (dark_visuals s1 = negb (dark_visuals s) ∧
   stored_preference s1 = Some (theme_literal (dark_visuals s1))) ∧
  (dark_visuals s2 = dark_visuals s ∧
   stored_preference s2 = Some (theme_literal (dark_visuals s))) ∧
  (stored_preference s = Some (theme_literal (dark_visuals s)) →
   stored_preference s2 = stored_preference s).
Proof.
  split.
  - split_and!; [reflexivity|reflexivity|vm_compute; lia].
  - apply (theme_toggle_twice Sample.start 5 6);
      [reflexivity|reflexivity|vm_compute; lia].
Defined.

(** C5 as written fails: on a page with no stored preference, two toggles
    restore the visuals but leave "light" in storage, not the original
    absence of a value. *)
Lemma theme_toggle_twice_unset :
  ¬ (∀ (s : state) (t icon : ref),
       darkModeToggle (this s) = Some t → theme_icon s = Some icon →
       body s < length (dom s) →
       let s2 := exec toggleDarkMode (exec toggleDarkMode s) in
       dark_visuals s2 = dark_visuals s ∧
       stored_preference s2 = stored_preference s).
Proof.
  intros H.
  destruct (H Sample.start 5 6) as [_ H2];
    [reflexivity|reflexivity|vm_compute; lia|].
  vm_compute in H2. discriminate H2.
Qed.

(** ** Claims C2 and C4 *)

(** C2, as the code has it: on a submit with at least one of the three
    fields empty after trimming, every empty field is marked invalid and its
    error element shows "<Capitalized field> is required"; a name or message
    that is not empty shows no message; an email that is not empty shows no
    message when it passes the format check and is otherwise marked invalid
    too, with "Please enter a valid email"; the handler completes, no value
    is reset, the success message is not shown; the inline messages are
    determined by this attempt alone, whatever earlier attempts left. *)
Theorem submit_with_empty_fields (s : state) (ni ne ei ee mi me : ref) :
  form_markup s ni ne ei ee mi me →
  entered s ni = [] ∨ entered s ei = [] ∨ entered s mi = [] →
  let s' := exec handleFormSubmit s in
  result handleFormSubmit s = Ok tt ∧
  (entered s ni = [] →
   textContent (elem s' ne) = js "Name is required" ∧ has_class s' ni "error" = true) ∧
  (entered s ei = [] →
   textContent (elem s' ee) = js "Email is required" ∧ has_class s' ei "error" = true) ∧
  (entered s mi = [] →
   textContent (elem s' me) = js "Message is required" ∧ has_class s' mi "error" = true) ∧
  (entered s ni ≠ [] → textContent (elem s' ne) = []) ∧
  (entered s mi ≠ [] → textContent (elem s' me) = []) ∧
  (entered s ei ≠ [] →
   if validateEmail (entered s ei) then textContent (elem s' ee) = []
   else textContent (elem s' ee) = js "Please enter a valid email"
        ∧ has_class s' ei "error" = true) ∧
  (∀ r, value (elem s' r) = value (elem s r)) ∧
  (∀ r, style_display (elem s' r) = style_display (elem s r)) ∧
  timers s' = timers s.
Proof.
  intros Hfm Hempty s'.
  pose proof (handleFormSubmit_eq s ni ne ei ee mi me Hfm) as Heq.
  cbn zeta in Heq.
  assert (form_valid s ni ei mi = false) as Hinvalid.
  { unfold form_valid, no_error. unfold entered in Hempty.
    destruct Hempty as [H|[H|H]]; rewrite (field_error_empty _ _ H);
      by rewrite ?andb_false_r. }
  rewrite Hinvalid in Heq.
  unfold s', exec, result. rewrite Heq. cbn [fst snd].
  unfold entered.
  split_and!; [done|..].
  - intros H. split.
    + rewrite rejected_text_name by done. by rewrite (field_error_empty _ _ H).
    + apply rejected_class_name; [done|]. by rewrite (field_error_empty _ _ H).
  - intros H. split.
    + rewrite rejected_text_email by done. by rewrite (field_error_empty _ _ H).
    + apply rejected_class_email; [done|]. by rewrite (field_error_empty _ _ H).
  - intros H. split.
    + rewrite rejected_text_message by done. by rewrite (field_error_empty _ _ H).
    + apply rejected_class_message; [done|]. by rewrite (field_error_empty _ _ H).
  - intros H. rewrite rejected_text_name by done.
    by rewrite (field_error_filled _ _ H).
  - intros H. rewrite rejected_text_message by done.
    by rewrite (field_error_filled _ _ H).
  - intros H. rewrite rejected_text_email by done.
    pose proof (rejected_class_email s ni ne ei ee mi me Hfm) as Hcls.
    rewrite (field_error_filled _ _ H) in *. cbn [String.eqb Ascii.eqb Bool.eqb andb] in *.
    destruct (validateEmail _); cbn [negb] in *; [done|]. split; [done|].
    by apply Hcls.
  - intros r. by apply rejected_value.
  - intros r. by apply rejected_display.
  - reflexivity.
Qed.

Lemma submit_with_empty_fields_witness :
  let s := Sample.fill "" "a@b" "hello" Sample.start in
  (form_markup s 11 12 13 14 15 16 ∧
   (entered s 11 = [] ∨ entered s 13 = [] ∨ entered s 15 = [])) ∧
  let s' := exec handleFormSubmit s in
  result handleFormSubmit s = Ok tt ∧
  (entered s 11 = [] →
   textContent (elem s' 12) = js "Name is required" ∧ has_class s' 11 "error" = true) ∧
  (entered s 13 = [] →
   textContent (elem s' 14) = js "Email is required" ∧ has_class s' 13 "error" = true) ∧
  (entered s 15 = [] →
   textContent (elem s' 16) = js "Message is required" ∧ has_class s' 15 "error" = true) ∧
  (entered s 11 ≠ [] → textContent (elem s' 12) = []) ∧
  (entered s 15 ≠ [] → textContent (elem s' 16) = []) ∧
  (entered s 13 ≠ [] →
   if validateEmail (entered s 13) then textContent (elem s' 14) = []
   else textContent (elem s' 14) = js "Please enter a valid email"
        ∧ has_class s' 13 "error" = true) ∧
  (∀ r, value (elem s' r) = value (elem s r)) ∧
  (∀ r, style_display (elem s' r) = style_display (elem s r)) ∧
  timers s' = timers s.
Proof.
  split.
  - split; [by constructor|by left].
  - apply (submit_with_empty_fields
             (Sample.fill "" "a@b" "hello" Sample.start) 11 12 13 14 15 16);
      [by constructor|by left].
Defined.

(** C2 as written fails: with the name empty and the email "a@b", the
    email field is not empty and is marked invalid all the same. *)
Lemma submit_marks_nonempty_email :
  ¬ (∀ (s : state) (ni ne ei ee mi me : ref),
       form_markup s ni ne ei ee mi me →
       entered s ni = [] ∨ entered s ei = [] ∨ entered s mi = [] →
       let s' := exec handleFormSubmit s in
       (has_class s' ni "error" = true ↔ entered s ni = []) ∧
       (has_class s' ei "error" = true ↔ entered s ei = []) ∧
       (has_class s' mi "error" = true ↔ entered s mi = [])).
Proof.
  intros H.
  destruct (H (Sample.fill "" "a@b" "hello" Sample.start) 11 12 13 14 15 16)
    as (_ & [Hemail _] & _); [by constructor|by left|].
  assert (entered (Sample.fill "" "a@b" "hello" Sample.start) 13 = []) as Hnil
    by (apply Hemail; reflexivity).
  vm_compute in Hnil. discriminate Hnil.
Qed.

(** C4: the email pattern accepts "a@b.co" and rejects "a@b", "a b@c.com"
    and "abc.com"; and a submitted email that is empty after trimming gets
    the message "Email is required", not "Please enter a valid email". *)
Theorem email_rules (s : state) (ni ne ei ee mi me : ref) :
  form_markup s ni ne ei ee mi me →
  entered s ei = [] →
  (validateEmail (js "a@b.co") = true ∧
   validateEmail (js "a@b") = false ∧
   validateEmail (js "a b@c.com") = false ∧
   validateEmail (js "abc.com") = false) ∧
  let s' := exec handleFormSubmit s in
  textContent (elem s' ee) = js "Email is required" ∧
  textContent (elem s' ee) ≠ js "Please enter a valid email".
Proof.
  intros Hfm Hempty. split; [by split_and!|].
  pose proof (handleFormSubmit_eq s ni ne ei ee mi me Hfm) as Heq.
  cbn zeta in *.
  assert (form_valid s ni ei mi = false) as Hinvalid.
  { unfold form_valid, no_error. unfold entered in Hempty.
    rewrite (field_error_empty "email" _ Hempty). by rewrite andb_false_r. }
  rewrite Hinvalid in Heq. unfold exec. rewrite Heq. cbn [snd].
  rewrite rejected_text_email by done. unfold entered in Hempty.
  rewrite (field_error_empty _ _ Hempty). split; [done|discriminate].
Qed.

Lemma email_rules_witness :
  let s := Sample.fill "Ann" "   " "hello" Sample.start in
  (form_markup s 11 12 13 14 15 16 ∧ entered s 13 = []) ∧
  (validateEmail (js "a@b.co") = true ∧
   validateEmail (js "a@b") = false ∧
   validateEmail (js "a b@c.com") = false ∧
   validateEmail (js "abc.com") = false) ∧
  let s' := exec handleFormSubmit s in
  textContent (elem s' 14) = js "Email is required" ∧
  textContent (elem s' 14) ≠ js "Please enter a valid email".
Proof.
  split.
  - split; [by constructor|reflexivity].
  - apply (email_rules (Sample.fill "Ann" "   " "hello" Sample.start) 11 12 13 14 15 16);
      [by constructor|reflexivity].
Defined.

(** ** Claim C9 *)

Lemma setupScrollAnimations_stagger s0 index r :
  select_all (SelClass "fade-in") (dom s0) !! index = Some r →
  let s := exec setupScrollAnimations s0 in
  result setupScrollAnimations s0 = Ok tt ∧
  style_transitionDelay (elem s r) = Some (stagger index) ∧
  observed s r.
Proof.
  intros Hr. cbn zeta. unfold exec, result, setupScrollAnimations. run_script.
  set (fade := select_all (SelClass "fade-in") (dom s0)) in *.
  assert ((0 <? length fade) = true) as ->.
  { apply Nat.ltb_lt. apply lookup_lt_Some in Hr. lia. }
  fold (stagger 0). unfold forEach.
  destruct (stagger_loop fade 0 (set_observer (Some []) s0))
    as (Hres & _ & Hdelay & _ & Hobs).
  - apply indices_from_NoDup.
  - intros x Hx. state_fields. by eapply select_all_lt.
  - by eexists.
  - unfold exec, result in *. cbn zeta in *. run_script.
    split_and!.
    + exact Hres.
    + exact (Hdelay index r Hr).
    + apply Hobs. left. by eapply list_elem_of_lookup_2.
Qed.

(** The delays are binary64 products: at index 1 exactly the literal
    [0.1], at index 3 the double 0.30000000000000004. *)
Example stagger_values :
  stagger 0 = Seconds (S754_zero false) ∧
  stagger 1 = Seconds float64_0_1 ∧
  stagger 3 = Seconds (S754_finite false 5404319552844596 (-54)).
Proof. by split_and!. Qed.

(** C9: [setupScrollAnimations] gives the element at position [index] of
    the flagged set the delay [index * 0.1] seconds and starts observing
    it; and from any state of the page, along any sequence of events, the
    element goes from pending to visible at most once, never goes back, and
    once it has become visible it is no longer observed. *)
Theorem fade_in_one_shot (s0 : state) (index : nat) (r : ref)
    (s : state) (evs : list event) :
  select_all (SelClass "fade-in") (dom s0) !! index = Some r →
  (let s1 := exec setupScrollAnimations s0 in
   result setupScrollAnimations s0 = Ok tt ∧
   style_transitionDelay (elem s1 r) =
     Some (Seconds (float64_mul (float64_of_nat index) float64_0_1)) ∧
   observed s1 r) ∧
  rises (λ s', visible s' r) (trace evs s) ≤ 1 ∧
  falls (λ s', visible s' r) (trace evs s) = 0 ∧
  (∀ s', s' ∈ trace evs s →
     visible s' r = true → visible s r = false → ¬ observed s' r).
Proof.
  intros Hr. split; [by apply setupScrollAnimations_stagger|].
  destruct (trace_rises_falls r evs s) as (Hrise & _ & Hfall).
  split_and!; [done|done|].
  intros s' Hs'. destruct (trace_fade_progress evs s s' Hs') as (_ & _ & H).
  apply H.
Qed.

Lemma fade_in_one_shot_witness :
  let s0 := Sample.fresh Sample.markup ∅ false in
  let evs := [Intersect [(9, true)]; Scroll 120; Intersect [(9, true); (8, false)]] in
  select_all (SelClass "fade-in") (dom s0) !! 1 = Some 9 ∧
  (let s1 := exec setupScrollAnimations s0 in
   result setupScrollAnimations s0 = Ok tt ∧
   style_transitionDelay (elem s1 9) =
     Some (Seconds (float64_mul (float64_of_nat 1) float64_0_1)) ∧
   observed s1 9) ∧
  rises (λ s', visible s' 9) (trace evs Sample.start) ≤ 1 ∧
  falls (λ s', visible s' 9) (trace evs Sample.start) = 0 ∧
  (∀ s', s' ∈ trace evs Sample.start →
     visible s' 9 = true → visible Sample.start 9 = false → ¬ observed s' 9).
Proof.
  split; [reflexivity|].
  apply (fade_in_one_shot (Sample.fresh Sample.markup ∅ false) 1 9 Sample.start).
  reflexivity.
Defined.

(** ** Claim C7 *)

(** C7: a submit with the three fields non-empty after trimming and a
    valid email completes, shows exactly "Thank you for your message! I
    will get back to you soon." in the success element, resets the three
    fields to empty, and 5000ms later the success element is hidden again;
    it stays shown until then unless an earlier submit's timeout is still
    pending. *)
Theorem valid_submit_shows_success (s : state)
    (ni ne ei ee mi me sx form : ref) :
  form_markup s ni ne ei ee mi me → reset_markup s sx form ni ei mi →
  timers_wf s → acceptable s ni ei mi →
  let s' := exec handleFormSubmit s in
  result handleFormSubmit s = Ok tt ∧
  textContent (elem s' sx) =
    js "Thank you for your message! I will get back to you soon." ∧
  style_display (elem s' sx) = "block" ∧
  (value (elem s' ni) = [] ∧ value (elem s' ei) = [] ∧ value (elem s' mi) = []) ∧
  style_display (elem (elapse 5000 s') sx) = "none" ∧
  ((∀ t, t ∈ timers s → ¬ hides sx t) →
   ∀ k, (k < 5000)%N → style_display (elem (elapse k s') sx) = "block").
Proof.
  intros Hfm Hrm Hwf Hok s'.
  pose proof (handleFormSubmit_accepted s ni ne ei ee mi me sx form Hfm Hrm Hok) as Heq.
  unfold s', exec, result. rewrite Heq. cbn [fst snd].
  set (errs := select_all (SelClass "error-message") (dom s)).
  destruct Hrm as [Hsx Hform Hdn Hde Hdm Hvn Hve Hvm].
  pose proof (head_select_all_lt _ _ _ Hsx) as Hlt.
  pose proof (accepted_wf s errs sx form Hwf) as Hwf'.
  assert (hide_timer s sx ∈ timers (accepted errs sx form s)) as Hin.
  { rewrite accepted_timers. apply elem_of_app. right. by apply list_elem_of_singleton. }
  split_and!.
  - done.
  - by apply accepted_text.
  - by apply accepted_display.
  - rewrite accepted_value, Hdn. done.
  - rewrite accepted_value, Hde. done.
  - rewrite accepted_value, Hdm. done.
  - apply (elapse_hides 5000 _ (hide_timer s sx)); try done.
    by rewrite accepted_length.
  - intros Hnone k Hk.
    destruct (elapse_block k (accepted errs sx form s) sx (now s + 5000))
      as (-> & _); [done|rewrite accepted_now; lia| |by apply accepted_display].
    intros t. rewrite accepted_timers, elem_of_app.
    intros [Ht| ->%list_elem_of_singleton] Hh; [by destruct (Hnone t Ht)|done].
Qed.

Lemma valid_submit_shows_success_witness :
  let s := Sample.fill "Ann" "ann@example.org" "hello" Sample.start in
  (form_markup s 11 12 13 14 15 16 ∧ reset_markup s 17 10 11 13 15 ∧
   timers_wf s ∧ acceptable s 11 13 15) ∧
  let s' := exec handleFormSubmit s in
  result handleFormSubmit s = Ok tt ∧
  textContent (elem s' 17) =
    js "Thank you for your message! I will get back to you soon." ∧
  style_display (elem s' 17) = "block" ∧
  (value (elem s' 11) = [] ∧ value (elem s' 13) = [] ∧ value (elem s' 15) = []) ∧
  style_display (elem (elapse 5000 s') 17) = "none" ∧
  ((∀ t, t ∈ timers s → ¬ hides 17 t) →
   ∀ k, (k < 5000)%N → style_display (elem (elapse k s') 17) = "block").
Proof.
  assert (timers_wf (Sample.fill "Ann" "ann@example.org" "hello" Sample.start)) as Hwf.
  { split.
    - vm_compute. apply NoDup_singleton.
    - intros t Ht. vm_compute in Ht. apply list_elem_of_singleton in Ht as ->.
      vm_compute. lia. }
  assert (acceptable (Sample.fill "Ann" "ann@example.org" "hello" Sample.start) 11 13 15)
    as Hok by (by split_and!).
  split.
  - split_and!; [by constructor|by constructor|done|done].
  - apply (valid_submit_shows_success
             (Sample.fill "Ann" "ann@example.org" "hello" Sample.start)
             11 12 13 14 15 16 17 10);
      [by constructor|by constructor|done|done].
Defined.

(** ** Claim C10 *)

(** C10: the timeout that hides the success message is never cancelled or
    replaced.  When a second accepted submit follows a first one by [gap]
    milliseconds, [0 < gap < 5000], both timeouts are pending after the
    second submit, and the first one hides the message [5000 - gap]
    milliseconds after the second submit showed it, that is, less than
    5000ms later. *)
Theorem second_submit_hidden_early (s : state)
    (ni ne ei ee mi me sx form : ref) (gap : N)
    (name2 email2 message2 : jsstring) :
  form_markup s ni ne ei ee mi me → reset_markup s sx form ni ei mi →
  timers_wf s → acceptable s ni ei mi →
  (0 < gap < 5000)%N →
  trim name2 ≠ [] → trim email2 ≠ [] → validateEmail (trim email2) = true →
  trim message2 ≠ [] →
  let s1 := exec handleFormSubmit s in
  let s2 := elapse gap s1 in
  let s3 := step (Input mi message2) (step (Input ei email2) (step (Input ni name2) s2)) in
  let s4 := exec handleFormSubmit s3 in
  let s5 := elapse (5000 - gap) s4 in
  result handleFormSubmit s3 = Ok tt ∧
  style_display (elem s4 sx) = "block" ∧
  now s4 = (now s + gap)%N ∧
  hide_timer s sx ∈ timers s4 ∧
  hide_timer s3 sx ∈ timers s4 ∧
  hide_timer s sx ≠ hide_timer s3 sx ∧
  due (hide_timer s3 sx) = (now s4 + 5000)%N ∧
  style_display (elem s5 sx) = "none" ∧
  now s5 = (now s4 + (5000 - gap))%N ∧ (5000 - gap < 5000)%N.
Proof.
  intros Hfm Hrm Hwf Hok Hgap Hn2 He2 Hv2 Hm2 s1 s2 s3 s4 s5.
  set (errs := select_all (SelClass "error-message") (dom s)).
  (* the first submit *)
  assert (s1 = accepted errs sx form s) as Hs1.
  { unfold s1, exec.
    by rewrite (handleFormSubmit_accepted s ni ne ei ee mi me sx form). }
  pose proof (accepted_wf s errs sx form Hwf) as Hwf1. rewrite <- Hs1 in Hwf1.
  assert (hide_timer s sx ∈ timers s1) as Hin1.
  { rewrite Hs1, accepted_timers. apply elem_of_app. right.
    by apply list_elem_of_singleton. }
  assert (now s1 = now s) as Hnow1 by (by rewrite Hs1).
  assert (∀ {B} (π : element → B),
    (∀ f e, π (with_textContent f e) = π e) →
    (∀ v e, π (with_display v e) = π e) →
    (∀ v e, π (with_value v e) = π e) →
    π <$> dom s3 = π <$> dom s) as Hproj.
  { intros B π H1 H2 H3. unfold s3. rewrite refill_proj by done.
    unfold s2. destruct (elapse_proj π gap s1 H1 H2) as [-> _].
    rewrite Hs1. by apply accepted_proj. }
  (* the wait *)
  destruct (elapse_pending gap s1 (hide_timer s sx) Hwf1 Hin1)
    as (Hwf2 & Hin2 & Hnow2 & Hlen2); [rewrite Hnow1; simpl; lia|].
  fold s2 in Hwf2, Hin2, Hnow2, Hlen2.
  (* the fields are filled in again *)
  destruct (form_markup_facts _ _ _ _ _ _ _ Hfm) as ((Hlni & Hlei & Hlmi) & _).
  assert (ni ≠ ei ∧ ni ≠ mi ∧ ei ≠ mi) as (Hne1 & Hne2 & Hne3).
  { destruct Hfm as [Hn He Hm _ _ _ _ _ _].
    apply head_select_id in Hn, He, Hm.
    split_and!; intros ->; congruence. }
  assert (length (dom s2) = length (dom s)) as Hlen.
  { rewrite Hlen2, Hs1. apply accepted_length. }
  destruct (refill_values s2 ni ei mi name2 email2 message2)
    as (Hvn & Hve & Hvm); try done; try lia.
  fold s3 in Hvn, Hve, Hvm.
  assert (form_markup s3 ni ne ei ee mi me) as Hfm3.
  { apply (form_markup_ext s); try done; unfold parents; by apply Hproj. }
  assert (this s3 = this s) as Hthis3.
  { unfold s3, s2. simpl. destruct (elapse_proj el_id gap s1) as [_ ->]; [done..|].
    by rewrite Hs1. }
  assert (reset_markup s3 sx form ni ei mi) as Hrm3.
  { apply (reset_markup_ext s); try done; unfold parents; by apply Hproj. }
  assert (acceptable s3 ni ei mi) as Hok3.
  { unfold acceptable, entered. by rewrite Hvn, Hve, Hvm. }
  assert (timers s3 = timers s2 ∧ now s3 = now s2 ∧ nextTimerId s3 = nextTimerId s2)
    as (Htm3 & Hnow3 & Hid3) by done.
  assert (timers_wf s3) as Hwf3.
  { destruct Hwf2 as [Hnd Hlt]. split; rewrite ?Htm3, ?Hid3; done. }
  (* the second submit *)
  set (errs3 := select_all (SelClass "error-message") (dom s3)).
  pose proof (handleFormSubmit_accepted s3 ni ne ei ee mi me sx form Hfm3 Hrm3 Hok3)
    as Heq4. fold errs3 in Heq4.
  assert (s4 = accepted errs3 sx form s3) as Hs4 by (unfold s4, exec; by rewrite Heq4).
  pose proof (accepted_wf s3 errs3 sx form Hwf3) as Hwf4. rewrite <- Hs4 in Hwf4.
  assert (sx < length (dom s3)) as Hlt3.
  { destruct Hrm3 as [Hsx _ _ _ _ _ _ _]. by eapply head_select_all_lt. }
  assert (now s4 = (now s + gap)%N) as Hnow4.
  { rewrite Hs4, accepted_now, Hnow3, Hnow2, Hnow1. done. }
  assert (hide_timer s sx ∈ timers s4) as Hin4.
  { rewrite Hs4, accepted_timers, Htm3. apply elem_of_app. by left. }
  assert (nextTimerId s < nextTimerId s3) as Hfresh.
  { destruct Hwf3 as [_ Hlt]. rewrite <- Htm3 in Hin2. apply (Hlt _ Hin2). }
  split_and!.
  - unfold result. by rewrite Heq4.
  - rewrite Hs4. by apply accepted_display.
  - done.
  - done.
  - rewrite Hs4, accepted_timers. apply elem_of_app. right.
    by apply list_elem_of_singleton.
  - unfold hide_timer. intros [= Hid _]. lia.
  - unfold hide_timer. cbn [due]. rewrite Hnow4, Hnow3, Hnow2, Hnow1. done.
  - apply (elapse_hides (5000 - gap) s4 (hide_timer s sx)); try done.
    + unfold hide_timer. cbn [due]. rewrite Hnow4. lia.
    + lia.
    + rewrite Hs4, accepted_length. done.
  - apply elapse_now.
  - lia.
Qed.

Lemma second_submit_hidden_early_witness :
  let s := Sample.fill "Ann" "ann@example.org" "hello" Sample.start in
  let name2 := js "Bo" in
  let email2 := js "bo@example.org" in
  let message2 := js "again" in
  (form_markup s 11 12 13 14 15 16 ∧ reset_markup s 17 10 11 13 15 ∧
   timers_wf s ∧ acceptable s 11 13 15 ∧ (0 < 2000 < 5000)%N ∧
   trim name2 ≠ [] ∧ trim email2 ≠ [] ∧ validateEmail (trim email2) = true ∧
   trim message2 ≠ []) ∧
  let s1 := exec handleFormSubmit s in
  let s2 := elapse 2000 s1 in
  let s3 := step (Input 15 message2) (step (Input 13 email2) (step (Input 11 name2) s2)) in
  let s4 := exec handleFormSubmit s3 in
  let s5 := elapse (5000 - 2000) s4 in
  result handleFormSubmit s3 = Ok tt ∧
  style_display (elem s4 17) = "block" ∧
  now s4 = (now s + 2000)%N ∧
  hide_timer s 17 ∈ timers s4 ∧
  hide_timer s3 17 ∈ timers s4 ∧
  hide_timer s 17 ≠ hide_timer s3 17 ∧
  due (hide_timer s3 17) = (now s4 + 5000)%N ∧
  style_display (elem s5 17) = "none" ∧
  now s5 = (now s4 + (5000 - 2000))%N ∧ (5000 - 2000 < 5000)%N.
Proof.
  assert (timers_wf (Sample.fill "Ann" "ann@example.org" "hello" Sample.start)) as Hwf.
  { split.
    - vm_compute. apply NoDup_singleton.
    - intros t Ht. vm_compute in Ht. apply list_elem_of_singleton in Ht as ->.
      vm_compute. lia. }
  assert (acceptable (Sample.fill "Ann" "ann@example.org" "hello" Sample.start) 11 13 15)
    as Hok by (by split_and!).
  split.
  - split_and!; [by constructor|by constructor|done|done|lia|lia|done..].
  - apply (second_submit_hidden_early
             (Sample.fill "Ann" "ann@example.org" "hello" Sample.start)
             11 12 13 14 15 16 17 10 2000
             (js "Bo") (js "bo@example.org") (js "again"));
      [by constructor|by constructor|done|done|lia|done..].
Defined.

(** ** Claim C1 *)

(** The three unguarded uses, on any page. *)
Lemma handleNavbarScroll_null s :
  navbar (this s) = None → result handleNavbarScroll s = Throw TypeError.
Proof.
  intros H. unfold result, handleNavbarScroll. run_script.
  destruct (50 <? scrollY s)%Z; run_script; by rewrite H.
Qed.

Lemma toggleMobileMenu_null s :
  mobileMenu (this s) = None → result toggleMobileMenu s = Throw TypeError.
Proof. intros H. unfold result, toggleMobileMenu. run_script. by rewrite H. Qed.

Lemma updateDarkModeIcon_null s isDarkMode :
  darkModeToggle (this s) = None →
  result (updateDarkModeIcon isDarkMode) s = Throw TypeError.
Proof. intros H. unfold result, updateDarkModeIcon. run_script. by rewrite H. Qed.

(** C1 does not hold of the code: three handlers use a region without
    checking that it was found.  On a page without the navigation bar the
    scroll listener is bound all the same and throws; on a page with the
    hamburger but no menu panel the click listener throws; on a page
    without the theme toggle whose visitor prefers dark, [initDarkMode]
    throws inside [init], after the body has been made dark, and the typing
    effect that [init] would have started next never runs. *)
Theorem missing_region_throws :
  (let s := load (Sample.fresh (Sample.without 1 Sample.markup) ∅ false) in
   navbar (this s) = None ∧
   existsb (listens Window "scroll") (listeners s) = true ∧
   result (run_handler OnWindowScroll) (set_scrollY 120 s) = Throw TypeError ∧
   result (run_handler OnWindowScroll) (set_scrollY 0 s) = Throw TypeError) ∧
  (let s := load (Sample.fresh (Sample.without 3 Sample.markup) ∅ false) in
   hamburger (this s) = Some 2 ∧ mobileMenu (this s) = None ∧
   existsb (listens (Node 2) "click") (listeners s) = true ∧
   result (run_handler OnHamburgerClick) s = Throw TypeError) ∧
  (let p := Sample.fresh (Sample.without 5 Sample.markup) ∅ true in
   darkModeToggle (this (load p)) = None ∧
   result init p = Throw TypeError ∧
   dark_visuals (load p) = true ∧
   head (select_all (SelClass "typing-text") (dom p)) = Some 7 ∧
   timers (load p) = [] ∧
   textContent (elem (load p) 7) = textContent (elem p 7)).
Proof. cbn zeta. split_and!; vm_compute; reflexivity. Qed.

(** ** Claim C8 *)

Lemma typeEffect_eq s r :
  head (select_all (SelClass "typing-text") (dom s)) = Some r →
  typeEffect s =
  (Ok tt,
   set_nextTimerId (S (nextTimerId s))
     (set_timers
        (λ l, l ++ [Timer (nextTimerId s) (now s + 100) (Some 100%N)
                      (TypingTick r (textContent (elem s r)) 0)])
        (set_dom (alter (with_textContent (λ _, [])) r) s))).
Proof.
  intros Hr. unfold typeEffect. run_script. rewrite Hr. run_script.
  unfold setInterval, schedule. run_script. reflexivity.
Qed.

Lemma typeEffect_phase s r :
  head (select_all (SelClass "typing-text") (dom s)) = Some r →
  timers_wf s → no_typing s →
  typing_phase (now s) (nextTimerId s) r (textContent (elem s r)) 0
    (exec typeEffect s).
Proof.
  intros Hr Hwf Hno. unfold exec. rewrite (typeEffect_eq s r Hr). cbn [snd].
  pose proof (head_select_all_lt _ _ _ Hr) as Hlt.
  split; [state_fields; lia|]. left. exists 0, 0%N. split_and!; [lia|lia|].
  unfold typing_at. split_and!.
  - apply (schedule_wf (TypingTick r (textContent (elem s r)) 0) 100 true
             (set_dom (alter (with_textContent (λ _, [])) r) s)).
    done.
  - state_fields. by rewrite length_alter.
  - state_fields. intros t [Ht| ->%list_elem_of_singleton]%elem_of_app Htyp; [|done].
    by rewrite (Hno t Ht) in Htyp.
  - state_fields. apply elem_of_app. right. apply list_elem_of_singleton.
    unfold typing_timer. f_equal.
  - unfold elem. state_fields. by rewrite get_alter_eq.
  - lia.
Qed.

(** C8: [typeEffect] captures the text of the designated element and
    clears the element; from then on one more character appears every
    100ms, so that between the [k]-th and the next tick the element shows
    the first [k] characters; one tick after the last character the
    interval is cleared, the element shows the whole text, and whatever
    events follow, no typing interval is pending again. *)
Theorem typing_effect_reveals (s : state) (r : ref) (k : nat) (rem extra : N)
    (evs : list event) (s_end : state) :
  head (select_all (SelClass "typing-text") (dom s)) = Some r →
  timers_wf s → no_typing s →
  let text := textContent (elem s r) in
  let s1 := exec typeEffect s in
  let finished := elapse (100 * (N.of_nat (length text) + 1) + extra) s1 in
  k ≤ length text → (rem < 100)%N →
  s_end ∈ trace evs finished →
  result typeEffect s = Ok tt ∧
  textContent (elem s1 r) = [] ∧
  textContent (elem (elapse (100 * N.of_nat k + rem) s1) r) = take k text ∧
  textContent (elem finished r) = text ∧
  no_typing finished ∧
  no_typing s_end.
Proof.
  intros Hr Hwf Hno text s1 finished Hk Hrem Hend.
  pose proof (typeEffect_phase s r Hr Hwf Hno) as H0. fold text s1 in H0.
  assert (typing_done r text finished) as Hdone.
  { destruct (elapse_typing_phase _ _ _ _
                (100 * (N.of_nat (length text) + 1) + extra) s1 H0)
      as [_ [(q & rem' & Hj & Hrem' & Hat)|[_ Hdone]]]; [|done].
    destruct Hat as (_ & _ & _ & _ & _ & Hq). lia. }
  split_and!.
  - unfold result. by rewrite (typeEffect_eq s r Hr).
  - unfold s1, exec. rewrite (typeEffect_eq s r Hr). unfold elem. cbn [snd].
    state_fields. rewrite get_alter_eq; [done|by eapply head_select_all_lt].
  - destruct (elapse_typing_phase _ _ _ _ (100 * N.of_nat k + rem) s1 H0)
      as [_ [(q & rem' & Hj & Hrem' & Hat)|[Hj _]]]; [|lia].
    assert (q = k) as -> by lia.
    by destruct Hat as (_ & _ & _ & _ & Htext & _).
  - by destruct Hdone as (_ & _ & ?).
  - by destruct Hdone as (_ & ? & _).
  - destruct Hdone as (Hwf' & Hno' & _).
    by destruct (trace_quiet evs finished s_end (conj Hwf' Hno') Hend).
Qed.

Lemma typing_effect_reveals_witness :
  let s := Sample.bound ∅ false in
  let text := textContent (elem s 7) in
  let s1 := exec typeEffect s in
  let finished := elapse (100 * (N.of_nat (length text) + 1) + 50) s1 in
  let evs := [Click 2; Submit 10; Elapse 300] in
  (head (select_all (SelClass "typing-text") (dom s)) = Some 7 ∧
   timers_wf s ∧ no_typing s ∧ 2 ≤ length text ∧ (30 < 100)%N ∧
   finished ∈ trace evs finished) ∧
  result typeEffect s = Ok tt ∧
  textContent (elem s1 7) = [] ∧
  textContent (elem (elapse (100 * N.of_nat 2 + 30) s1) 7) = take 2 text ∧
  textContent (elem finished 7) = text ∧
  no_typing finished ∧
  no_typing finished.
Proof.
  assert (timers_wf (Sample.bound ∅ false)) as Hwf.
  { split; [apply NoDup_nil_2|]. intros t Ht. by apply elem_of_nil in Ht. }
  assert (no_typing (Sample.bound ∅ false)) as Hno.
  { intros t Ht. by apply elem_of_nil in Ht. }
  cbn zeta. split.
  - split_and!; [reflexivity|done|done|vm_compute; lia|lia|apply list_elem_of_here].
  - apply (typing_effect_reveals (Sample.bound ∅ false) 7 2 30 50
             [Click 2; Submit 10; Elapse 300]);
      [reflexivity|done|done|vm_compute; lia|lia|apply list_elem_of_here].
Defined.

(** ** Start-up: binding the regions and registering the listeners *)

Lemma set_listeners_nil s : set_listeners (λ l, l ++ []) s = s.
Proof. destruct s. unfold set_listeners. simpl. by rewrite app_nil_r. Qed.

Lemma set_listeners_app l1 l2 s :
  set_listeners (λ l, l ++ l2) (set_listeners (λ l, l ++ l1) s) =
  set_listeners (λ l, l ++ (l1 ++ l2)) s.
Proof. unfold set_listeners. state_fields. by rewrite <- app_assoc. Qed.

Lemma forEach_from_anchors i (l : list ref) s :
  forEach_from i l
    (λ anchor _, addEventListener (Node anchor) "click" (OnAnchorClick anchor)) s =
  (Ok tt, set_listeners (λ ls, ls ++ (anchor_listener <$> l)) s).
Proof.
  revert i s. induction l as [|a l IH]; intros i s; simpl.
  - by rewrite set_listeners_nil.
  - run_script. rewrite IH. by rewrite set_listeners_app.
Qed.

Lemma optional_listener_eq o type h s :
  match o with
  | Some r => addEventListener (Node r) type h
  | None => ret tt
  end s = (Ok tt, set_listeners (λ l, l ++ optional_listener o type h) s).
Proof. destruct o; simpl; [done|]. by rewrite set_listeners_nil. Qed.

Lemma setupEventListeners_eq s :
  setupEventListeners s =
  (Ok tt, set_listeners (λ l, l ++ wiring (this s) (dom s)) s).
Proof.
  unfold setupEventListeners, forEach, wiring. run_script.
  rewrite (bind_Ok _ _ _ _ _ (optional_listener_eq _ _ _ _)).
  run_script. state_fields.
  rewrite (bind_Ok _ _ _ _ _ (optional_listener_eq _ _ _ _)).
  run_script. state_fields.
  rewrite (bind_Ok _ _ _ _ _ (forEach_from_anchors _ _ _)).
  run_script. state_fields.
  rewrite (bind_Ok _ _ _ _ _ (optional_listener_eq _ _ _ _)).
  run_script. rewrite !set_listeners_app.
  unfold addEventListener, modify. rewrite set_listeners_app.
  by rewrite <- !app_assoc.
Qed.

Lemma init_eq s : init s = start_components (wired s).
Proof.
  unfold init. run_script.
  rewrite (bind_Ok _ _ _ _ _ (setupEventListeners_eq _)).
  reflexivity.
Qed.

(** ** What the script leaves alone *)

Global Instance kept_refl {B} (π : state → B) : Reflexive (kept π).
Proof. by intros s. Qed.

Global Instance kept_trans {B} (π : state → B) : Transitive (kept π).
Proof. intros s1 s2 s3 H1 H2. unfold kept in *. congruence. Qed.

Ltac unfold_components :=
  unfold start_components, setupScrollAnimations, setCopyrightYear, initDarkMode,
    typeEffect, observerCallback, run_callback, typingTick,
    new_IntersectionObserver, observe, unobserve;
  unfold_script.

(** For an observation no primitive writes. *)
Ltac kept_leaf :=
  first
    [ apply preserved_modify; intros ?; reflexivity
    | intros ?; reflexivity ].

(** For an observation of the elements that no update changes. *)
Ltac kept_dom_leaf :=
  first
    [ apply preserved_modify; intros ?; unfold kept; state_fields;
      first
        [ reflexivity
        | by apply map_alter_proj
        | by apply reset_controls_proj ]
    | intros ?; reflexivity ].

Lemma handler_fixtures h : preserved (kept fixtures) (run_handler h).
Proof.
  destruct h; unfold_script; cbn [validateFields]; unfold_script;
    preserve; kept_leaf.
Qed.

Lemma components_fixtures : preserved (kept fixtures) start_components.
Proof. unfold_components. preserve; kept_leaf. Qed.

Lemma callback_fixtures tid cb : preserved (kept fixtures) (run_callback tid cb).
Proof. destruct cb; unfold_components; preserve; kept_leaf. Qed.

Lemma observerCallback_fixtures entries :
  preserved (kept fixtures) (observerCallback entries).
Proof. unfold_components. preserve; kept_leaf. Qed.

Lemma handler_skeleton h : preserved (kept (λ s, skeleton <$> dom s)) (run_handler h).
Proof.
  destruct h; unfold_script; cbn [validateFields]; unfold_script;
    preserve; kept_dom_leaf.
Qed.

Lemma components_skeleton : preserved (kept (λ s, skeleton <$> dom s)) start_components.
Proof. unfold_components. preserve; kept_dom_leaf. Qed.

Lemma callback_skeleton tid cb :
  preserved (kept (λ s, skeleton <$> dom s)) (run_callback tid cb).
Proof. destruct cb; unfold_components; preserve; kept_dom_leaf. Qed.

Lemma observerCallback_skeleton entries :
  preserved (kept (λ s, skeleton <$> dom s)) (observerCallback entries).
Proof. unfold_components. preserve; kept_dom_leaf. Qed.

(** *** From the pieces of script to sequences of events *)

Section Events.
Context (R : state → state → Prop) `{!Reflexive R} `{!Transitive R}.

Lemma dispatch_preserved tgt type s :
  (∀ h, preserved R (run_handler h)) →
  (∀ s b, R s (set_defaultPrevented b s)) →
  R s (dispatch tgt type s).
Proof.
  intros Hh Hp. unfold dispatch.
  pose proof (Hp s false) as H0.
  revert H0. generalize (set_defaultPrevented false s) as s0.
  induction (listeners s) as [|l ls IH]; intros s0 H0; simpl; [done|].
  apply IH. destruct (listens tgt type l); [|done].
  etrans; [done|]. apply Hh.
Qed.

Lemma fire_id_preserved tid s :
  (∀ tid cb, preserved R (run_callback tid cb)) →
  (∀ s f, R s (set_timers f s)) →
  R s (fire_id tid s).
Proof.
  intros Hc Ht. unfold fire_id.
  destruct (List.find _ _) as [t|]; [|reflexivity].
  destruct (is_due _ _); [|reflexivity].
  unfold fire. pose proof (Hc (timer_id t) (action t) s) as H.
  destruct (run_callback _ _ s) as [[cb|e] s1]; simpl in H;
    (etrans; [exact H|apply Ht]).
Qed.

Lemma tick_preserved s :
  (∀ tid cb, preserved R (run_callback tid cb)) →
  (∀ s f, R s (set_timers f s)) → (∀ s t, R s (set_now t s)) →
  R s (tick s).
Proof.
  intros Hc Ht Hn. rewrite tick_eq.
  apply (fire_all_ind (R s) (λ _, True)); [|by apply Forall_true|apply Hn].
  intros tid s' _ H. etrans; [done|]. by apply fire_id_preserved.
Qed.

Lemma elapse_preserved k s :
  (∀ tid cb, preserved R (run_callback tid cb)) →
  (∀ s f, R s (set_timers f s)) → (∀ s t, R s (set_now t s)) →
  R s (elapse k s).
Proof.
  intros Hc Ht Hn. induction k as [|k IH] using N.peano_ind; [reflexivity|].
  rewrite elapse_succ. etrans; [done|]. by apply tick_preserved.
Qed.

Lemma trace_preserved evs s s' :
  (∀ h, preserved R (run_handler h)) →
  (∀ tid cb, preserved R (run_callback tid cb)) →
  (∀ entries, preserved R (observerCallback entries)) →
  (∀ s b, R s (set_defaultPrevented b s)) →
  (∀ s y, R s (set_scrollY y s)) →
  (∀ s f, R s (set_timers f s)) → (∀ s t, R s (set_now t s)) →
  (∀ s r v, R s (set_dom (alter (with_value v) r) s)) →
  s' ∈ trace evs s → R s s'.
Proof.
  intros Hh Hc Ho Hp Hy Ht Hn Hv. revert s.
  induction evs as [|ev evs IH]; intros s; simpl.
  - intros ->%list_elem_of_singleton. reflexivity.
  - intros [->|Hin]%elem_of_cons; [reflexivity|].
    etrans; [|by apply IH]. clear IH Hin.
    destruct ev as [r|r|y|entries|r text|ms]; simpl.
    + by apply dispatch_preserved.
    + by apply dispatch_preserved.
    + etrans; [apply Hy|]. by apply dispatch_preserved.
    + destruct (observer s); [apply Ho|reflexivity].
    + apply Hv.
    + by apply elapse_preserved.
Qed.

End Events.

Lemma trace_fixtures evs s s' : s' ∈ trace evs s → fixtures s' = fixtures s.
Proof.
  apply (trace_preserved (kept fixtures)); try done.
  - apply handler_fixtures.
  - apply callback_fixtures.
  - apply observerCallback_fixtures.
Qed.

Lemma trace_skeleton evs s s' :
  s' ∈ trace evs s → skeleton <$> dom s' = skeleton <$> dom s.
Proof.
  apply (trace_preserved (kept (λ s, skeleton <$> dom s))); try done.
  - apply handler_skeleton.
  - apply callback_skeleton.
  - apply observerCallback_skeleton.
  - intros s0 r v. unfold kept. state_fields. by apply map_alter_proj.
Qed.


Lemma skeleton_fields (d d' : list element) :
  skeleton <$> d' = skeleton <$> d →
  tagName <$> d' = tagName <$> d ∧ el_id <$> d' = el_id <$> d ∧
  parents d' = parents d ∧ length d' = length d.
Proof.
  intros H.
  assert (∀ {B} (φ : _ → B), φ ∘ skeleton <$> d' = φ ∘ skeleton <$> d) as Hφ.
  { intros B φ. by rewrite !list_fmap_compose, H. }
  split_and!.
  - apply (Hφ _ (λ k, k.1.1.1.1)).
  - apply (Hφ _ (λ k, k.1.1.1.2)).
  - apply (Hφ _ (λ k, k.1.1.2)).
  - by rewrite <- (length_fmap skeleton d'), H, length_fmap.
Qed.

(** ** Script that cannot throw *)

Lemma never_throws_ret {A} (a : A) : never_throws (ret a).
Proof. intros s. by exists a. Qed.

Lemma never_throws_gets {A} (f : state → A) : never_throws (gets f).
Proof. intros s. by exists (f s). Qed.

Lemma never_throws_modify f : never_throws (modify f).
Proof. intros s. by exists tt. Qed.

Lemma never_throws_schedule cb delay repeat : never_throws (schedule cb delay repeat).
Proof. intros s. by eexists. Qed.

Lemma never_throws_bind {A B} (m : M A) (k : A → M B) :
  never_throws m → (∀ a, never_throws (k a)) → never_throws (bind m k).
Proof.
  intros Hm Hk s. unfold bind. destruct (Hm s) as [a Ha].
  destruct (m s) as [o s1]. simpl in Ha. subst o. apply Hk.
Qed.

Lemma never_throws_forEach_from {A} i (l : list A) f :
  (∀ x j, never_throws (f x j)) → never_throws (forEach_from i l f).
Proof.
  intros Hf. revert i. induction l as [|x l IH]; intros i; simpl.
  - apply never_throws_ret.
  - apply never_throws_bind; [done|]. intros _. apply IH.
Qed.

Lemma never_throws_forEach {A} (l : list A) f :
  (∀ x j, never_throws (f x j)) → never_throws (forEach l f).
Proof. apply never_throws_forEach_from. Qed.

Lemma never_throws_Ok (m : M unit) s : never_throws m → m s = (Ok tt, exec m s).
Proof.
  intros H. destruct (H s) as [[] Ha]. unfold exec.
  destruct (m s) as [o s1]. simpl in *. by subst.
Qed.

Ltac total_step :=
  first
    [ apply never_throws_ret | apply never_throws_gets | apply never_throws_modify
    | apply never_throws_schedule
    | apply never_throws_bind; [|intros ?]
    | apply never_throws_forEach; intros ? ?
    | match goal with
      | |- never_throws (if ?b then _ else _) => destruct b
      | |- never_throws (match ?o with Some _ => _ | None => _ end) => destruct o
      end ].

Ltac total := repeat total_step.

Lemma setupEventListeners_total : never_throws setupEventListeners.
Proof. unfold setupEventListeners. unfold_script. total. Qed.

Lemma setupScrollAnimations_total : never_throws setupScrollAnimations.
Proof. unfold_components. total. Qed.

Lemma setCopyrightYear_total : never_throws setCopyrightYear.
Proof. unfold_components. total. Qed.

Lemma observerCallback_total entries : never_throws (observerCallback entries).
Proof. unfold_components. total. Qed.

Lemma run_callback_total tid cb : never_throws (run_callback tid cb).
Proof. destruct cb; unfold_components; total. Qed.

(** ** What [init] returns *)

Lemma updateDarkModeIcon_result b s :
  result (updateDarkModeIcon b) s =
  match theme_icon s with Some _ => Ok tt | None => Throw TypeError end.
Proof.
  unfold result, updateDarkModeIcon, theme_icon. run_script.
  destruct (darkModeToggle (this s)) as [t|]; [|done]. run_script.
  destruct (head _) as [icon|]; [|done]. run_script.
  rewrite (bind_Ok _ _ _ _ _ (classList_toggle_force_eq _ _ _ _)).
  by rewrite (bind_Ok _ _ _ _ _ (classList_toggle_force_eq _ _ _ _)).
Qed.

Lemma initDarkMode_result s :
  result initDarkMode s =
  if dark_rule s then
    match theme_icon s with Some _ => Ok tt | None => Throw TypeError end
  else Ok tt.
Proof.
  unfold result, initDarkMode, dark_rule, stored_preference. run_script.
  destruct (strict_eq _ _ || _); [|done]. run_script.
  pose proof (updateDarkModeIcon_result true
    (set_dom (alter (with_classList (add_token "dark-mode")) (body s)) s)) as H.
  by rewrite theme_icon_body_class in H.
Qed.

(** The guarded start of the typing effect cannot fail: the element
    [typeEffect] looks up is the one [init] has just found. *)
Lemma typing_start_total :
  never_throws
    (let* typing := querySelector (SelClass "typing-text") in
     match typing with
     | Some _ => typeEffect
     | None => ret tt
     end).
Proof.
  intros s. unfold typeEffect. run_script.
  destruct (head (select_all (SelClass "typing-text") (dom s))) as [t|] eqn:E;
    [|by exists tt].
  run_script. rewrite E. run_script. by exists tt.
Qed.

Lemma theme_icon_kept s s' :
  fixtures s' = fixtures s → skeleton <$> dom s' = skeleton <$> dom s →
  theme_icon s' = theme_icon s.
Proof.
  intros Hf Hs. destruct (skeleton_fields _ _ Hs) as (Hg & _ & Hp & _).
  apply theme_icon_tree; [|done|done]. unfold fixtures in Hf. congruence.
Qed.

Lemma bind_total {B} (m : M unit) (k : unit → M B) s :
  never_throws m → bind m k s = k tt (exec m s).
Proof. intros H. unfold bind. by rewrite (never_throws_Ok m s H). Qed.

Lemma start_components_eq s :
  start_components s =
  (initDarkMode;;
   let* typing := querySelector (SelClass "typing-text") in
   match typing with
   | Some _ => typeEffect
   | None => ret tt
   end) (exec setCopyrightYear (exec setupScrollAnimations s)).
Proof.
  unfold start_components.
  rewrite (bind_total _ _ _ setupScrollAnimations_total).
  by rewrite (bind_total _ _ _ setCopyrightYear_total).
Qed.

Lemma setupScrollAnimations_kept {B} (π : state → B) :
  (∀ s o, π (set_observer o s) = π s) →
  (∀ s r v, π (set_dom (alter (with_transitionDelay v) r) s) = π s) →
  preserved (kept π) setupScrollAnimations.
Proof.
  intros Ho Hd. unfold_components. preserve.
  all: apply preserved_modify; intros ?; unfold kept; first [apply Ho|apply Hd].
Qed.

Lemma setCopyrightYear_kept {B} (π : state → B) :
  (∀ s r v, π (set_dom (alter (with_textContent v) r) s) = π s) →
  preserved (kept π) setCopyrightYear.
Proof.
  intros Hd. unfold_components. preserve.
  apply preserved_modify; intros ?; unfold kept; apply Hd.
Qed.

Lemma prepared_kept {B} (π : state → B) s :
  (∀ s o, π (set_observer o s) = π s) →
  (∀ s r v, π (set_dom (alter (with_transitionDelay v) r) s) = π s) →
  (∀ s r v, π (set_dom (alter (with_textContent v) r) s) = π s) →
  π (prepared s) = π (wired s).
Proof.
  intros Ho Hd Ht. unfold prepared.
  etrans; [apply (setCopyrightYear_kept π Ht)|].
  apply (setupScrollAnimations_kept π Ho Hd).
Qed.

Lemma prepared_fixtures s : fixtures (prepared s) = fixtures (wired s).
Proof. by apply prepared_kept. Qed.

Lemma prepared_localStorage s : localStorage (prepared s) = localStorage s.
Proof. etrans; [by apply (prepared_kept localStorage)|done]. Qed.

Lemma prepared_proj {B} (φ : element → B) s :
  (∀ v e, φ (with_transitionDelay v e) = φ e) →
  (∀ f e, φ (with_textContent f e) = φ e) →
  φ <$> dom (prepared s) = φ <$> dom s.
Proof.
  intros H1 H2. rewrite (prepared_kept (λ s, φ <$> dom s)); [done|done|..].
  - intros s0 r v. state_fields. by apply map_alter_proj.
  - intros s0 r v. state_fields. by apply map_alter_proj.
Qed.

Lemma prepared_theme_icon s : theme_icon (prepared s) = markup_icon (dom s).
Proof.
  change (markup_icon (dom s)) with (theme_icon (wired s)).
  apply theme_icon_kept; [apply prepared_fixtures|].
  change (dom (wired s)) with (dom s). by apply (prepared_proj skeleton).
Qed.

Lemma prepared_dark_rule s : dark_rule (prepared s) = dark_rule s.
Proof.
  unfold dark_rule, stored_preference. rewrite prepared_localStorage.
  pose proof (prepared_fixtures s) as H. unfold fixtures in H.
  by injection H as _ _ _ -> _.
Qed.

Lemma init_result s :
  result init s =
  if dark_rule s then
    match markup_icon (dom s) with Some _ => Ok tt | None => Throw TypeError end
  else Ok tt.
Proof.
  unfold result. rewrite init_eq, start_components_eq. fold (prepared s).
  pose proof (initDarkMode_result (prepared s)) as H.
  rewrite prepared_dark_rule, prepared_theme_icon in H.
  unfold result in H. unfold bind at 1.
  destruct (initDarkMode (prepared s)) as [[[]|e] s4]; cbn [fst] in H.
  - destruct (typing_start_total s4) as [[] Ht]. rewrite Ht.
    destruct (dark_rule s); [|done]. by destruct (markup_icon (dom s)).
  - cbn [fst]. rewrite H. destruct (dark_rule s); [|done].
    by destruct (markup_icon (dom s)).
Qed.

(** ** Which handlers an event runs *)

Lemma dispatch_handlers tgt type s :
  dispatch tgt type s =
  run_handlers (handlers_for tgt type s) (set_defaultPrevented false s).
Proof.
  unfold dispatch, handlers_for, run_handlers.
  generalize (set_defaultPrevented false s) as s0.
  induction (listeners s) as [|l ls IH]; intros s0; simpl; [done|].
  destruct (listens tgt type l); simpl; apply IH.
Qed.

Lemma load_fixtures s : fixtures (load s) = fixtures (wired s).
Proof. unfold load, exec. rewrite init_eq. apply components_fixtures. Qed.

Lemma load_this s : this (load s) = bound_to (dom s).
Proof. pose proof (load_fixtures s) as H. unfold fixtures in H. by injection H. Qed.

Lemma load_listeners s :
  listeners (load s) = listeners s ++ wiring (bound_to (dom s)) (dom s).
Proof. pose proof (load_fixtures s) as H. unfold fixtures in H. by injection H. Qed.

Lemma filter_anchor_click r (l : list ref) :
  NoDup l →
  List.filter (listens (Node r) "click") (anchor_listener <$> l) =
  if decide (r ∈ l) then [anchor_listener r] else [].
Proof.
  induction l as [|a l IH]; intros Hnd.
  - destruct (decide (r ∈ [])) as [H|H]; [by apply elem_of_nil in H|done].
  - apply NoDup_cons in Hnd as [Ha Hnd]. rewrite fmap_cons. cbn [List.filter].
    rewrite (IH Hnd). unfold listens at 1.
    cbn [anchor_listener l_target l_type eventTarget_eqb].
    change ("click" =? "click")%string with true. rewrite andb_true_r.
    destruct (Nat.eqb_spec a r) as [->|Hne].
    + destruct (decide (r ∈ l)); [done|].
      destruct (decide (r ∈ r :: l)) as [|H]; [done|].
      exfalso. apply H, list_elem_of_here.
    + destruct (decide (r ∈ l)) as [Hin|Hin], (decide (r ∈ a :: l)) as [Hin'|Hin'];
        try done.
      * exfalso. apply Hin'. by apply list_elem_of_further.
      * apply elem_of_cons in Hin' as [?|?]; congruence.
Qed.

Lemma filter_anchor_none tgt type (l : list ref) :
  match tgt with Window => True | Node _ => type ≠ "click" end →
  List.filter (listens tgt type) (anchor_listener <$> l) = [].
Proof.
  intros H. induction l as [|a l IH]; [done|].
  rewrite fmap_cons. cbn [List.filter]. rewrite IH.
  unfold listens. cbn [anchor_listener l_target l_type eventTarget_eqb].
  destruct tgt as [|r]; [done|].
  destruct (String.eqb_spec "click" type); [congruence|].
  by rewrite andb_false_r.
Qed.

Lemma filter_optional_click r o h :
  l_handler <$> List.filter (listens (Node r) "click") (optional_listener o "click" h) =
  if decide (o = Some r) then [h] else [].
Proof.
  destruct o as [x|]; simpl; [|done]. unfold listens. simpl.
  destruct (Nat.eqb_spec x r) as [->|Hne]; simpl.
  - by rewrite decide_True.
  - rewrite decide_False; [done|congruence].
Qed.

Lemma wiring_click c d r :
  l_handler <$> List.filter (listens (Node r) "click") (wiring c d) =
  click_handlers c d r.
Proof.
  unfold wiring, click_handlers. rewrite !List.filter_app, !fmap_app.
  rewrite !filter_optional_click.
  rewrite filter_anchor_click by apply indices_from_NoDup.
  f_equal. f_equal.
  assert (List.filter (listens (Node r) "click")
            (optional_listener (contactForm c) "submit" OnFormSubmit) = []) as ->.
  { destruct (contactForm c); simpl; [|done]. unfold listens. simpl.
    by rewrite andb_false_r. }
  simpl. rewrite app_nil_r. by case_decide.
Qed.


Lemma filter_optional_window type o ty h :
  List.filter (listens Window type) (optional_listener o ty h) = [].
Proof. by destruct o. Qed.

Lemma wiring_scroll c d :
  l_handler <$> List.filter (listens Window "scroll") (wiring c d) = [OnWindowScroll].
Proof.
  unfold wiring. rewrite !List.filter_app, !fmap_app.
  rewrite !filter_optional_window.
  by rewrite (filter_anchor_none Window "scroll").
Qed.


(** ** After start-up *)

Lemma load_skeleton s : skeleton <$> dom (load s) = skeleton <$> dom s.
Proof. unfold load, exec. rewrite init_eq. exact (components_skeleton (wired s)). Qed.

(** What holds of every state the page goes through once [init] has run. *)
Lemma after_load evs s0 s :
  s ∈ trace evs (load s0) →
  this s = bound_to (dom s0) ∧
  listeners s = listeners s0 ++ wiring (bound_to (dom s0)) (dom s0) ∧
  body s = body s0 ∧
  skeleton <$> dom s = skeleton <$> dom s0 ∧
  length (dom s) = length (dom s0).
Proof.
  intros Hs. pose proof (trace_fixtures _ _ _ Hs) as Hf.
  pose proof (trace_skeleton _ _ _ Hs) as Hk.
  rewrite load_skeleton in Hk. rewrite load_fixtures in Hf.
  unfold fixtures in Hf. injection Hf as H1 H2 H3 _ _.
  split_and!; try done. by destruct (skeleton_fields _ _ Hk) as (_ & _ & _ & ?).
Qed.

Lemma run_handlers_one h s : run_handlers [h] s = exec (run_handler h) s.
Proof. reflexivity. Qed.

(** A scroll event on a loaded page runs [handleNavbarScroll], once. *)
Lemma scroll_event evs s0 s y :
  listeners s0 = [] → s ∈ trace evs (load s0) →
  step (Scroll y) s =
  exec handleNavbarScroll (set_defaultPrevented false (set_scrollY y s)).
Proof.
  intros Hl (_ & Hls & _)%after_load. cbn [step].
  rewrite dispatch_handlers. unfold handlers_for. state_fields.
  rewrite Hls, Hl, app_nil_l, wiring_scroll. apply run_handlers_one.
Qed.

(** ** Sticky navigation bar *)

Lemma handleNavbarScroll_eq s n :
  navbar (this s) = Some n →
  handleNavbarScroll s =
  (Ok tt,
   set_dom (alter (with_classList
                     (if (50 <? scrollY s)%Z then add_token "scrolled"
                      else remove_token "scrolled")) n) s).
Proof.
  intros H. unfold handleNavbarScroll. run_script.
  destruct (50 <? scrollY s)%Z; run_script; by rewrite H.
Qed.

(** X1.  At any time after start-up, on a page with a navigation bar, a
    scroll event leaves the bar carrying the class [scrolled] exactly when
    the new scroll offset is greater than 50, whatever the bar carried
    before; no other class of the bar and no class of any other element
    changes. *)
Theorem scroll_marks_navbar (s0 s : state) (evs : list event) (n : ref) (y : Z) :
  listeners s0 = [] →
  head (select_all (SelClass "navbar") (dom s0)) = Some n →
  s ∈ trace evs (load s0) →
  let s' := step (Scroll y) s in
  has_class s' n "scrolled" = (50 <? y)%Z ∧
  (∀ tok, tok ≠ "scrolled" → has_class s' n tok = has_class s n tok) ∧
  (∀ r tok, r ≠ n → has_class s' r tok = has_class s r tok).
Proof.
  intros Hl Hn Hs. cbn zeta. rewrite (scroll_event evs s0) by done.
  destruct (after_load _ _ _ Hs) as (Hthis & _ & _ & _ & Hlen).
  pose proof (head_select_all_lt _ _ _ Hn) as Hlt.
  unfold exec. rewrite (handleNavbarScroll_eq _ n) by (state_fields; by rewrite Hthis).
  cbn [snd]. unfold has_class, elem. state_fields. split_and!.
  - rewrite get_alter_eq by lia. cbn [classList with_classList].
    destruct (50 <? y)%Z.
    + by rewrite contains_add_token.
    + by rewrite contains_remove_token.
  - intros tok Htok. rewrite get_alter_eq by lia. cbn [classList with_classList].
    destruct (50 <? y)%Z.
    + rewrite contains_add_token. by destruct (String.eqb_spec tok "scrolled").
    + rewrite contains_remove_token. by destruct (String.eqb_spec tok "scrolled").
  - intros r tok Hr. by rewrite get_alter_ne.
Qed.

Lemma scroll_marks_navbar_witness :
  let s0 := Sample.fresh Sample.markup ∅ false in
  let evs := [Scroll 10; Click 2; Scroll 300] in
  let s := step (Scroll 300) (step (Click 2) (step (Scroll 10) (load s0))) in
  (listeners s0 = [] ∧
   head (select_all (SelClass "navbar") (dom s0)) = Some 1 ∧
   s ∈ trace evs (load s0)) ∧
  let s' := step (Scroll 50) s in
  has_class s' 1 "scrolled" = (50 <? 50)%Z ∧
  (∀ tok, tok ≠ "scrolled" → has_class s' 1 tok = has_class s 1 tok) ∧
  (∀ r tok, r ≠ 1 → has_class s' r tok = has_class s r tok).
Proof.
  assert (step (Scroll 300) (step (Click 2) (step (Scroll 10)
            (load (Sample.fresh Sample.markup ∅ false))))
          ∈ trace [Scroll 10; Click 2; Scroll 300]
              (load (Sample.fresh Sample.markup ∅ false))) as Hin.
  { cbn [trace]. do 3 apply list_elem_of_further. apply list_elem_of_here. }
  cbn zeta. split.
  - split_and!; [reflexivity|reflexivity|exact Hin].
  - apply (scroll_marks_navbar (Sample.fresh Sample.markup ∅ false) _
             [Scroll 10; Click 2; Scroll 300] 1 50);
      [reflexivity|reflexivity|exact Hin].
Defined.

(** ** Event routing *)



(** ** The structure of the page *)



(** ** Copyright year *)

Lemma load_eq s : load s = exec (initDarkMode;; start_typing) (prepared s).
Proof. unfold load, exec. by rewrite init_eq, start_components_eq. Qed.

Lemma setCopyrightYear_eq s :
  setCopyrightYear s =
  (Ok tt,
   match yearElement (this s) with
   | Some y => set_dom (alter (with_textContent (λ _, js_of_Z (currentYear s))) y) s
   | None => s
   end).
Proof.
  unfold setCopyrightYear. run_script. by destruct (yearElement (this s)).
Qed.

(** The theme never touches which elements carry a class of another name. *)
Lemma initDarkMode_class tok :
  tok ≠ "dark-mode" → tok ≠ "fa-moon" → tok ≠ "fa-sun" →
  preserved (kept (λ s, (λ e, contains tok (classList e)) <$> dom s)) initDarkMode.
Proof.
  intros H1 H2 H3. unfold_components. preserve.
  all: apply preserved_modify; intros ?; unfold kept; state_fields.
  all: apply map_alter_proj; intros e; cbn [classList with_classList].
  all: rewrite ?contains_add_token, ?contains_remove_token.
  all: repeat match goal with
       | |- context [String.eqb ?t ?x] => destruct (String.eqb_spec t x); [congruence|]
       end; done.
Qed.

Lemma initDarkMode_proj {B} (φ : element → B) :
  (∀ f e, φ (with_classList f e) = φ e) →
  preserved (kept (λ s, φ <$> dom s)) initDarkMode.
Proof.
  intros H. unfold_components. preserve.
  all: apply preserved_modify; intros ?; unfold kept; state_fields.
  all: by apply map_alter_proj.
Qed.

Lemma select_class_ext tok (d d' : list element) :
  (λ e, contains tok (classList e)) <$> d' = (λ e, contains tok (classList e)) <$> d →
  select_all (SelClass tok) d' = select_all (SelClass tok) d.
Proof. intros H. by apply select_all_ext. Qed.

Lemma start_typing_text s y :
  head (select_all (SelClass "typing-text") (dom s)) ≠ Some y →
  textContent (elem (exec start_typing s) y) = textContent (elem s y).
Proof.
  intros Hy. unfold exec, start_typing. run_script.
  destruct (head (select_all (SelClass "typing-text") (dom s))) as [t|] eqn:E; [|done].
  rewrite (typeEffect_eq s t E). cbn [snd]. unfold elem. state_fields.
  rewrite get_alter_ne; [done|congruence].
Qed.

Lemma prepared_year s y :
  head (select_all (SelId "year") (dom s)) = Some y →
  textContent (elem (prepared s) y) = js_of_Z (currentYear s).
Proof.
  intros Hy. pose proof (head_select_all_lt _ _ _ Hy) as Hlt.
  unfold prepared, exec. rewrite setCopyrightYear_eq. cbn [snd].
  set (s2 := (setupScrollAnimations (wired s)).2).
  assert (fixtures s2 = fixtures (wired s)) as Hf.
  { by apply (setupScrollAnimations_kept fixtures). }
  assert (length (dom s2) = length (dom s)) as Hlen.
  { assert (skeleton <$> dom s2 = skeleton <$> dom (wired s)) as Hk.
    { apply (setupScrollAnimations_kept (λ s, skeleton <$> dom s)); [done|].
      intros s0 r v. state_fields. by apply map_alter_proj. }
    by destruct (skeleton_fields _ _ Hk) as (_ & _ & _ & ?). }
  unfold fixtures in Hf. injection Hf as Hthis _ _ _ Hyear.
  rewrite Hthis, Hyear. cbn [wired set_listeners set_this this bound_to yearElement].
  rewrite Hy. unfold elem. state_fields. rewrite get_alter_eq by lia. done.
Qed.

(** X5.  On a page that has an element with id [year], that element
    shows the current year once [init] has run, whether or not [init]
    completes, provided it is not also the element of the typing
    effect. *)
Theorem load_sets_year (s : state) (y : ref) :
  head (select_all (SelId "year") (dom s)) = Some y →
  head (select_all (SelClass "typing-text") (dom s)) ≠ Some y →
  textContent (elem (load s) y) = js_of_Z (currentYear s).
Proof.
  intros Hy Hty. rewrite load_eq. unfold exec, bind.
  pose proof (initDarkMode_proj textContent (λ _ _, eq_refl) (prepared s)) as Htext.
  pose proof (initDarkMode_class "typing-text" ltac:(done) ltac:(done) ltac:(done)
                (prepared s)) as Hcls.
  unfold kept in Htext, Hcls.
  assert (textContent (elem (initDarkMode (prepared s)).2 y) = js_of_Z (currentYear s))
    as Hyear.
  { unfold elem. rewrite (get_map_proj textContent _ _ y Htext).
    by apply prepared_year. }
  destruct (initDarkMode (prepared s)) as [[[]|e] s4]; cbn [snd] in *; [|done].
  change (textContent (elem (exec start_typing s4) y) = js_of_Z (currentYear s)).
  rewrite start_typing_text; [done|].
  rewrite (select_class_ext _ _ _ Hcls).
  rewrite (select_all_ext _ (dom (prepared s)) (dom s)); [done|].
  apply (prepared_proj (matches (SelClass "typing-text"))); done.
Qed.

Lemma load_sets_year_witness :
  let s := Sample.fresh Sample.markup ∅ true in
  (head (select_all (SelId "year") (dom s)) = Some 18 ∧
   head (select_all (SelClass "typing-text") (dom s)) ≠ Some 18) ∧
  textContent (elem (load s) 18) = js_of_Z (currentYear s).
Proof.
  cbn zeta. split.
  - split; [reflexivity|vm_compute; discriminate].
  - apply (load_sets_year (Sample.fresh Sample.markup ∅ true) 18);
      [reflexivity|vm_compute; discriminate].
Defined.

(** ** Smooth scrolling *)

Lemma handleSmoothScroll_found s a t :
  css_engine s (default "null" (attributes (elem s a) !! "href")) (dom s) = Ok (Some t) →
  handleSmoothScroll a s =
  let s1 := set_scrollRequest (offsetTop (elem s t) - 80) (set_defaultPrevented true s) in
  match mobileMenu (this s) with
  | Some m => if has_class s m "active" then toggleMobileMenu s1 else (Ok tt, s1)
  | None => (Ok tt, s1)
  end.
Proof.
  intros H. unfold handleSmoothScroll. run_script.
  rewrite (bind_Ok (querySelector_text _) _ (set_defaultPrevented true s)
             (Some t) (set_defaultPrevented true s))
    by (unfold querySelector_text;
        exact (f_equal (λ o, (o, set_defaultPrevented true s)) H)).
  run_script. state_fields.
  destruct (mobileMenu (this s)) as [m|]; [|done]. run_script.
  change (elem (set_scrollRequest _ _) m) with (elem s m).
  unfold has_class. by destruct (contains "active" (classList (elem s m))).
Qed.

Lemma handleSmoothScroll_missing s a :
  (∀ t, css_engine s (default "null" (attributes (elem s a) !! "href")) (dom s)
        ≠ Ok (Some t)) →
  handleSmoothScroll a s =
  (match css_engine s (default "null" (attributes (elem s a) !! "href")) (dom s) with
   | Ok _ => Ok tt
   | Throw e => Throw e
   end, set_defaultPrevented true s).
Proof.
  intros H. unfold handleSmoothScroll. run_script.
  destruct (css_engine s _ (dom s)) as [[t|]|e] eqn:E; [by destruct (H t)| |].
  - by rewrite (bind_Ok (querySelector_text _) _ (set_defaultPrevented true s)
                  None (set_defaultPrevented true s))
      by (unfold querySelector_text;
          exact (f_equal (λ o, (o, set_defaultPrevented true s)) E)).
  - by rewrite (bind_Throw (querySelector_text _) _ (set_defaultPrevented true s)
                  e (set_defaultPrevented true s))
      by (unfold querySelector_text;
          exact (f_equal (λ o, (o, set_defaultPrevented true s)) E)).
Qed.

(** X6.  A click on a link whose target exists asks the window to scroll
    to 80 pixels above the target, cancels the default navigation, and
    leaves the mobile menu closed: an open menu is closed through
    [toggleMobileMenu], which also flips the hamburger's expanded mark; a
    closed one is left alone, and then no element changes. *)
Theorem anchor_click_scrolls_and_closes_menu (s : state) (a t h m : ref) :
  css_engine s (default "null" (attributes (elem s a) !! "href")) (dom s) = Ok (Some t) →
  hamburger (this s) = Some h → mobileMenu (this s) = Some m → h ≠ m →
  h < length (dom s) → m < length (dom s) →
  let s' := exec (handleSmoothScroll a) s in
  result (handleSmoothScroll a) s = Ok tt ∧
  scrollRequest s' = Some (offsetTop (elem s t) - 80)%Z ∧
  defaultPrevented s' = true ∧
  menu_open s' = false ∧
  marked_expanded s' = xorb (menu_open s) (marked_expanded s) ∧
  (if menu_open s then True else dom s' = dom s).
Proof.
  intros Ht Hh Hm Hne Hlh Hlm. cbn zeta. unfold exec, result.
  rewrite (handleSmoothScroll_found s a t Ht). cbn zeta. rewrite Hm.
  set (s1 := set_scrollRequest (offsetTop (elem s t) - 80) (set_defaultPrevented true s)).
  assert (menu_open s = has_class s m "active") as Hopen.
  { unfold menu_open. by rewrite Hm. }
  rewrite <- Hopen.
  destruct (menu_open s) eqn:Ho.
  - destruct (toggleMobileMenu_flips s1 h m Hh Hm Hne Hlh Hlm) as (_ & _ & Ho' & He').
    unfold exec in Ho', He'. rewrite (toggleMobileMenu_eq s1 h m Hh Hm) in *.
    cbn [fst snd] in *. split_and!; try done.
    rewrite Ho'. change (menu_open s1) with (menu_open s). by rewrite Ho.
  - cbn [fst snd]. by split_and!.
Qed.

Lemma anchor_click_scrolls_and_closes_menu_witness :
  let s := step (Click 2) Sample.start in
  (css_engine s (default "null" (attributes (elem s 4) !! "href")) (dom s) = Ok (Some 8) ∧
   hamburger (this s) = Some 2 ∧ mobileMenu (this s) = Some 3 ∧ 2 ≠ 3 ∧
   2 < length (dom s) ∧ 3 < length (dom s)) ∧
  let s' := exec (handleSmoothScroll 4) s in
  result (handleSmoothScroll 4) s = Ok tt ∧
  scrollRequest s' = Some (offsetTop (elem s 8) - 80)%Z ∧
  defaultPrevented s' = true ∧
  menu_open s' = false ∧
  marked_expanded s' = xorb (menu_open s) (marked_expanded s) ∧
  (if menu_open s then True else dom s' = dom s).
Proof.
  cbn zeta. split.
  - split_and!; [reflexivity|reflexivity|reflexivity|lia|vm_compute; lia|vm_compute; lia].
  - apply (anchor_click_scrolls_and_closes_menu (step (Click 2) Sample.start) 4 8 2 3);
      [reflexivity|reflexivity|reflexivity|lia|vm_compute; lia|vm_compute; lia].
Defined.

(** X7.  A click on a link whose target is not on the page, or whose
    [href] is not a selector the browser accepts, only cancels the default
    navigation: nothing is scrolled and the mobile menu stays as it is,
    open or closed.  In the second case the handler throws what
    [querySelector] threw. *)
Theorem anchor_click_without_target (s : state) (a : ref) :
  (∀ t, css_engine s (default "null" (attributes (elem s a) !! "href")) (dom s)
        ≠ Ok (Some t)) →
  exec (handleSmoothScroll a) s = set_defaultPrevented true s ∧
  result (handleSmoothScroll a) s =
    match css_engine s (default "null" (attributes (elem s a) !! "href")) (dom s) with
    | Ok _ => Ok tt
    | Throw e => Throw e
    end.
Proof.
  intros H. unfold exec, result. by rewrite (handleSmoothScroll_missing s a H).
Qed.

Lemma anchor_click_without_target_witness :
  let s := step (Click 2)
             (load (Sample.fresh (Sample.without 8 Sample.markup) ∅ false)) in
  (∀ t, css_engine s (default "null" (attributes (elem s 4) !! "href")) (dom s)
        ≠ Ok (Some t)) ∧
  exec (handleSmoothScroll 4) s = set_defaultPrevented true s ∧
  result (handleSmoothScroll 4) s =
    match css_engine s (default "null" (attributes (elem s 4) !! "href")) (dom s) with
    | Ok _ => Ok tt
    | Throw e => Throw e
    end.
Proof.
  assert (∀ t, css_engine
                 (step (Click 2)
                    (load (Sample.fresh (Sample.without 8 Sample.markup) ∅ false)))
                 (default "null"
                    (attributes
                       (elem (step (Click 2)
                          (load (Sample.fresh (Sample.without 8 Sample.markup) ∅ false))) 4)
                     !! "href"))
                 (dom (step (Click 2)
                    (load (Sample.fresh (Sample.without 8 Sample.markup) ∅ false))))
               ≠ Ok (Some t)) as H.
  { intros t. vm_compute. discriminate. }
  cbn zeta. split; [exact H|].
  apply (anchor_click_without_target
           (step (Click 2) (load (Sample.fresh (Sample.without 8 Sample.markup) ∅ false))) 4).
  exact H.
Defined.

(** ** Cancelling the default action *)

Lemma exec_bind_total {B} (m : M unit) (k : unit → M B) s :
  never_throws m → exec (bind m k) s = exec (k tt) (exec m s).
Proof. intros H. unfold exec at 1. by rewrite bind_total. Qed.

Ltac kept_after_first :=
  match goal with
  | |- ?π (exec ?m ?s1) = _ =>
      let H := fresh in
      assert (preserved (kept π) m) as H;
      [unfold_script; cbn [validateFields]; unfold_script; preserve; kept_leaf
      |exact (H s1)]
  end.

(** X8.  The two handlers that receive the event cancel its default
    action before anything else, so it is cancelled even when they throw;
    the other three handlers never touch it. *)
Theorem default_action_cancelled (s : state) (anchor : ref) :
  defaultPrevented (exec handleFormSubmit s) = true ∧
  defaultPrevented (exec (handleSmoothScroll anchor) s) = true ∧
  defaultPrevented (exec toggleMobileMenu s) = defaultPrevented s ∧
  defaultPrevented (exec toggleDarkMode s) = defaultPrevented s ∧
  defaultPrevented (exec handleNavbarScroll s) = defaultPrevented s.
Proof.
  split_and!.
  - unfold handleFormSubmit.
    rewrite (exec_bind_total preventDefault) by apply never_throws_modify.
    etrans; [kept_after_first|done].
  - unfold handleSmoothScroll.
    rewrite (exec_bind_total preventDefault) by apply never_throws_modify.
    etrans; [kept_after_first|done].
  - kept_after_first.
  - kept_after_first.
  - kept_after_first.
Qed.

(** ** Theme: what the stored preference does *)

Lemma dark_rule_cases s :
  dark_rule s =
  match stored_preference s with
  | None | Some [] => prefersDark s
  | Some v => bool_decide (v = js "dark")
  end.
Proof.
  unfold dark_rule, strict_eq, falsy, jsstring_eqb.
  destruct (stored_preference s) as [[|c v]|]; [done| |done].
  by rewrite orb_false_r.
Qed.

Lemma dark_rule_literal s b :
  stored_preference s = Some (theme_literal b) → dark_rule s = b.
Proof. intros H. rewrite dark_rule_cases, H. by destruct b. Qed.

(** What [initDarkMode] does to the observations. *)
Lemma initDarkMode_visuals s t icon :
  darkModeToggle (this s) = Some t → theme_icon s = Some icon →
  body s < length (dom s) →
  let s' := exec initDarkMode s in
  dark_visuals s' = dark_rule s || dark_visuals s ∧
  icon_sun s' = dark_rule s || icon_sun s ∧
  icon_moon s' = negb (dark_rule s) && icon_moon s ∧
  (dark_rule s = false → s' = s).
Proof.
  intros Ht Hi Hb. cbn zeta. unfold exec. rewrite (initDarkMode_eq s t icon Ht Hi).
  cbn [snd]. fold (dark_rule s). destruct (dark_rule s); [|done]. cbn [orb negb andb].
  pose proof (theme_icon_lt _ _ Hi) as Hlt.
  set (d1 := alter (with_classList (add_token "dark-mode")) (body s) (dom s)).
  assert (length d1 = length (dom s)) as Hd1 by apply length_alter.
  assert (theme_icon (set_dom (λ d, iconised icon true
            (alter (with_classList (add_token "dark-mode")) (body s) d)) s)
          = Some icon) as Hi'.
  { rewrite <- Hi. apply theme_icon_tree; state_fields; [done| |].
    - rewrite iconised_parents. by apply parents_alter.
    - rewrite iconised_tags. by apply (map_alter_proj tagName). }
  split_and!; [| | |done].
  - unfold dark_visuals, has_class, elem. state_fields. fold d1.
    rewrite iconised_class by lia.
    assert (contains "dark-mode" (classList (get d1 (body s))) = true) as ->.
    { unfold d1. rewrite get_alter_eq by done. cbn [classList with_classList].
      by rewrite contains_add_token. }
    by case_decide.
  - unfold icon_sun. rewrite Hi'. unfold has_class, elem. state_fields. fold d1.
    rewrite iconised_class by lia. by rewrite decide_True.
  - unfold icon_moon. rewrite Hi'. unfold has_class, elem. state_fields. fold d1.
    rewrite iconised_class by lia. by rewrite decide_True.
Qed.

(** X9.  With the theme toggle and its icon on the page, [initDarkMode]
    completes and decides like this: a stored preference that is a
    non-empty string makes the page dark exactly when it is "dark"; no
    stored preference, or an empty one, leaves the decision to the
    system's colour scheme.  A dark decision sets the dark class and the
    sun icon; a light decision changes nothing at all, so a page whose
    markup starts dark stays dark. *)
Theorem theme_decided_on_load (s : state) (t icon : ref) :
  darkModeToggle (this s) = Some t → theme_icon s = Some icon →
  body s < length (dom s) →
  let s' := exec initDarkMode s in
  let dark :=
    match stored_preference s with
    | None | Some [] => prefersDark s
    | Some v => bool_decide (v = js "dark")
    end in
  result initDarkMode s = Ok tt ∧
  dark_visuals s' = dark || dark_visuals s ∧
  icon_sun s' = dark || icon_sun s ∧
  icon_moon s' = negb dark && icon_moon s ∧
  (if dark then True else s' = s).
Proof.
  intros Ht Hi Hb. cbn zeta. rewrite <- dark_rule_cases.
  destruct (initDarkMode_visuals s t icon Ht Hi Hb) as (H1 & H2 & H3 & H4).
  split_and!; try done.
  - rewrite initDarkMode_result, Hi. by destruct (dark_rule s).
  - destruct (dark_rule s); [done|]. by apply H4.
Qed.

Lemma theme_decided_on_load_witness :
  let s := set_localStorage (insert "darkMode" []) (Sample.bound ∅ true) in
  (darkModeToggle (this s) = Some 5 ∧ theme_icon s = Some 6 ∧
   body s < length (dom s)) ∧
  let s' := exec initDarkMode s in
  let dark :=
    match stored_preference s with
    | None | Some [] => prefersDark s
    | Some v => bool_decide (v = js "dark")
    end in
  result initDarkMode s = Ok tt ∧
  dark_visuals s' = dark || dark_visuals s ∧
  icon_sun s' = dark || icon_sun s ∧
  icon_moon s' = negb dark && icon_moon s ∧
  (if dark then True else s' = s).
Proof.
  cbn zeta. split.
  - split_and!; [reflexivity|reflexivity|vm_compute; lia].
  - apply (theme_decided_on_load
             (set_localStorage (insert "darkMode" []) (Sample.bound ∅ true)) 5 6);
      [reflexivity|reflexivity|vm_compute; lia].
Defined.

(** ** Theme: across a reload *)

Lemma start_typing_classes :
  preserved (kept (λ s, (body s, classList <$> dom s))) start_typing.
Proof.
  unfold start_typing. unfold_components. preserve.
  - apply preserved_modify; intros ?; unfold kept; state_fields.
    f_equal. by apply map_alter_proj.
  - intros ?; reflexivity.
Qed.

Lemma dark_visuals_ext s s' :
  body s' = body s → classList <$> dom s' = classList <$> dom s →
  dark_visuals s' = dark_visuals s.
Proof.
  intros Hb Hc. unfold dark_visuals, has_class, elem. rewrite Hb.
  f_equal. by apply get_map_proj.
Qed.

Lemma markup_icon_toggle d icon :
  markup_icon d = Some icon →
  ∃ t, head (select_all (SelClass "dark-mode-toggle") d) = Some t.
Proof. unfold markup_icon. destruct (head _) as [t|]; [eauto|done]. Qed.

(** The theme of a freshly loaded page whose markup has the toggle and
    starts light. *)
Lemma load_visuals p icon :
  markup_icon (dom p) = Some icon → body p < length (dom p) →
  dark_visuals p = false →
  dark_visuals (load p) = dark_rule p.
Proof.
  intros Hi Hb Hlight. rewrite load_eq. unfold exec, bind.
  destruct (markup_icon_toggle _ _ Hi) as [t Ht].
  pose proof (prepared_fixtures p) as Hf. unfold fixtures in Hf.
  injection Hf as Hthis _ Hbody _ _.
  pose proof (prepared_proj classList p (λ _ _, eq_refl) (λ _ _, eq_refl)) as Hcls.
  assert (length (dom (prepared p)) = length (dom p)) as Hlen.
  { by rewrite <- (length_fmap classList), Hcls, length_fmap. }
  destruct (initDarkMode_visuals (prepared p) t icon) as (Hd & _ & _ & _).
  { rewrite Hthis. exact Ht. }
  { by rewrite prepared_theme_icon. }
  { rewrite Hbody, Hlen. exact Hb. }
  rewrite prepared_dark_rule in Hd.
  rewrite (dark_visuals_ext p (prepared p)) in Hd by done.
  rewrite Hlight, orb_false_r in Hd. unfold exec in Hd.
  pose proof (initDarkMode_result (prepared p)) as Hres.
  rewrite prepared_theme_icon, Hi in Hres. unfold result in Hres.
  destruct (initDarkMode (prepared p)) as [[[]|e] s4]; cbn [fst snd] in *.
  - pose proof (start_typing_classes s4) as Hk. unfold kept in Hk.
    injection Hk as Hb4 Hc4.
    change (dark_visuals (exec start_typing s4) = dark_rule p).
    by rewrite (dark_visuals_ext s4 (exec start_typing s4)).
  - by destruct (dark_rule (prepared p)).
Qed.

(** X10.  The preference [toggleDarkMode] stores is the one the next
    load applies: on a page whose markup has the toggle with its icon and
    starts light, loaded with the storage a toggle has left, [init]
    completes and the page is dark exactly when it was dark after that
    toggle, whatever colour scheme the system prefers. *)
Theorem theme_survives_reload (s p : state) (t icon icon' : ref) :
  darkModeToggle (this s) = Some t → theme_icon s = Some icon →
  body s < length (dom s) →
  markup_icon (dom p) = Some icon' → body p < length (dom p) →
  dark_visuals p = false →
  localStorage p = localStorage (exec toggleDarkMode s) →
  result init p = Ok tt ∧
  dark_visuals (load p) = dark_visuals (exec toggleDarkMode s).
Proof.
  intros Ht Hi Hb Hi' Hb' Hlight Hstore.
  destruct (toggleDarkMode_flips s t icon Ht Hi Hb) as (_ & _ & _ & _ & _ & _ & Hs & _).
  assert (dark_rule p = dark_visuals (exec toggleDarkMode s)) as Hrule.
  { apply dark_rule_literal. unfold stored_preference in *. by rewrite Hstore. }
  split.
  - rewrite init_result, Hi'. by destruct (dark_rule p).
  - by rewrite (load_visuals p icon').
Qed.

Lemma theme_survives_reload_witness :
  let s := Sample.start in
  let p := Sample.fresh Sample.markup (localStorage (exec toggleDarkMode s)) false in
  (darkModeToggle (this s) = Some 5 ∧ theme_icon s = Some 6 ∧
   body s < length (dom s) ∧
   markup_icon (dom p) = Some 6 ∧ body p < length (dom p) ∧
   dark_visuals p = false ∧
   localStorage p = localStorage (exec toggleDarkMode s)) ∧
  result init p = Ok tt ∧
  dark_visuals (load p) = dark_visuals (exec toggleDarkMode s).
Proof.
  cbn zeta. split.
  - split_and!; [reflexivity|reflexivity|vm_compute; lia|vm_compute; reflexivity
                 |vm_compute; lia|vm_compute; reflexivity|vm_compute; reflexivity].
  - apply (theme_survives_reload Sample.start
             (Sample.fresh Sample.markup
                (localStorage (exec toggleDarkMode Sample.start)) false) 5 6 6);
      [reflexivity|reflexivity|vm_compute; lia|vm_compute; reflexivity
      |vm_compute; lia|vm_compute; reflexivity|vm_compute; reflexivity].
Defined.

(** ** Theme: the icon after a toggle *)

(** X11.  After [toggleDarkMode] the icon shows the sun exactly when the
    page is dark and the moon exactly when it is light, whatever the icon
    showed before; apart from the body's dark class and these two icon
    classes, no class of any element changes. *)
Theorem toggle_sets_icon (s : state) (t icon : ref) :
  darkModeToggle (this s) = Some t → theme_icon s = Some icon →
  body s < length (dom s) →
  let s' := exec toggleDarkMode s in
  icon_sun s' = dark_visuals s' ∧
  icon_moon s' = negb (dark_visuals s') ∧
  (∀ r tok, tok ≠ "dark-mode" → tok ≠ "fa-sun" → tok ≠ "fa-moon" →
     has_class s' r tok = has_class s r tok) ∧
  (∀ r, r ≠ body s → has_class s' r "dark-mode" = has_class s r "dark-mode") ∧
  (∀ r tok, r ≠ icon → tok ≠ "dark-mode" → has_class s' r tok = has_class s r tok).
Proof.
  intros Ht Hi Hb. cbn zeta.
  destruct (toggleDarkMode_flips s t icon Ht Hi Hb)
    as (_ & _ & _ & _ & _ & _ & _ & Hsun & Hmoon).
  split_and!; [done|done|..].
  all: unfold exec; rewrite (toggleDarkMode_eq s t icon Ht Hi); cbn [snd].
  all: pose proof (theme_icon_lt _ _ Hi) as Hlt.
  all: unfold has_class, elem; state_fields.
  - intros r tok H1 H2 H3.
    rewrite iconised_class by (by rewrite length_alter).
    destruct (String.eqb_spec tok "fa-sun"); [done|].
    destruct (String.eqb_spec tok "fa-moon"); [done|].
    assert (contains tok (classList (get (alter (with_classList
              (toggle_token "dark-mode")) (body s) (dom s)) r))
            = contains tok (classList (get (dom s) r))) as ->; [|by case_decide].
    destruct (decide (body s = r)) as [<-|Hne]; [|by rewrite get_alter_ne].
    rewrite get_alter_eq by done. cbn [classList with_classList].
    rewrite contains_toggle_token. by destruct (String.eqb_spec tok "dark-mode").
  - intros r Hr.
    rewrite iconised_class by (by rewrite length_alter).
    rewrite get_alter_ne by done. by case_decide.
  - intros r tok Hr Htok.
    rewrite iconised_class by (by rewrite length_alter).
    rewrite decide_False by done.
    destruct (decide (body s = r)) as [<-|Hne]; [|by rewrite get_alter_ne].
    rewrite get_alter_eq by done. cbn [classList with_classList].
    rewrite contains_toggle_token. by destruct (String.eqb_spec tok "dark-mode").
Qed.

Lemma toggle_sets_icon_witness :
  let s := exec (classList_add 6 "fa-sun") Sample.start in
  (darkModeToggle (this s) = Some 5 ∧ theme_icon s = Some 6 ∧
   body s < length (dom s)) ∧
  let s' := exec toggleDarkMode s in
  icon_sun s' = dark_visuals s' ∧
  icon_moon s' = negb (dark_visuals s') ∧
  (∀ r tok, tok ≠ "dark-mode" → tok ≠ "fa-sun" → tok ≠ "fa-moon" →
     has_class s' r tok = has_class s r tok) ∧
  (∀ r, r ≠ body s → has_class s' r "dark-mode" = has_class s r "dark-mode") ∧
  (∀ r tok, r ≠ 6 → tok ≠ "dark-mode" → has_class s' r tok = has_class s r tok).
Proof.
  cbn zeta. split.
  - split_and!; [reflexivity|reflexivity|vm_compute; lia].
  - apply (toggle_sets_icon (exec (classList_add 6 "fa-sun") Sample.start) 5 6);
      [reflexivity|reflexivity|vm_compute; lia].
Defined.

(** ** Scroll animations: what is observed *)

Lemma observe_loop (l acc : list ref) k s :
  observer s = Some acc → NoDup (acc ++ l) →
  let body := λ element index,
    (set_style_transitionDelay element (stagger index);; observe element) in
  let s' := exec (forEach_from k l body) s in
  observer s' = Some (acc ++ l) ∧
  (∀ r, r ∉ l → elem s' r = elem s r) ∧
  classList <$> dom s' = classList <$> dom s.
Proof.
  intros Hobs Hnd body. revert acc k s Hobs Hnd.
  induction l as [|x l IH]; intros acc k s Hobs Hnd.
  - cbn zeta. simpl. by rewrite app_nil_r.
  - cbn zeta. unfold exec. cbn [forEach_from].
    rewrite (bind_Ok (body x k) _ s tt (staggered x k s)) by apply staggered_eq.
    apply NoDup_app in Hnd as (Hacc & Hdisj & Hl).
    apply NoDup_cons in Hl as [Hx Hl].
    assert (x ∉ acc) as Hxacc.
    { intros Hin. apply (Hdisj x Hin). apply list_elem_of_here. }
    assert (observer (staggered x k s) = Some (acc ++ [x])) as Hobs'.
    { unfold staggered. state_fields. rewrite Hobs. simpl.
      destruct (existsb (Nat.eqb x) acc) eqn:E; [|done].
      apply existsb_exists in E as (y & Hy & ->%Nat.eqb_eq).
      by apply list_elem_of_In in Hy. }
    destruct (IH (acc ++ [x]) (S k) (staggered x k s) Hobs') as (H1 & H2 & H3).
    { rewrite <- app_assoc. simpl. apply NoDup_app. split_and!; [done| |].
      - intros y Hy [->|Hin]%elem_of_cons; [done|].
        apply (Hdisj y Hy). by apply list_elem_of_further.
      - by apply NoDup_cons. }
    unfold exec in H1, H2, H3. split_and!.
    + rewrite H1. by rewrite <- app_assoc.
    + intros r Hr. rewrite H2.
      * unfold elem, staggered. state_fields. rewrite get_alter_ne; [done|].
        intros ->. apply Hr, list_elem_of_here.
      * intros Hin. apply Hr. by apply list_elem_of_further.
    + rewrite H3. unfold staggered. state_fields. by apply map_alter_proj.
Qed.

(** X12.  [setupScrollAnimations] on a page without flagged elements
    does nothing; otherwise the new observer ends up observing exactly the
    flagged elements, each once, in document order, elements without the
    flag are left exactly as they were, and no element's classes change:
    every flagged element starts out pending unless its markup says
    otherwise. *)
Theorem observer_targets (s : state) :
  let fade := select_all (SelClass "fade-in") (dom s) in
  let s' := exec setupScrollAnimations s in
  result setupScrollAnimations s = Ok tt ∧
  match fade with
  | [] => s' = s
  | _ :: _ =>
      observer s' = Some fade ∧
      (∀ r, r ∉ fade → elem s' r = elem s r) ∧
      (∀ r tok, has_class s' r tok = has_class s r tok)
  end.
Proof.
  cbn zeta. split.
  { unfold result. by rewrite (never_throws_Ok _ s setupScrollAnimations_total). }
  unfold exec, setupScrollAnimations. run_script.
  destruct (select_all (SelClass "fade-in") (dom s)) as [|x l] eqn:E; [done|].
  cbn [length Nat.ltb Nat.leb]. run_script. unfold forEach. rewrite <- E.
  destruct (observe_loop (select_all (SelClass "fade-in") (dom s)) [] 0
              (set_observer (Some []) s)) as (H1 & H2 & H3);
    [done|apply indices_from_NoDup|].
  unfold exec, stagger in H1, H2, H3. split_and!; [done|done|].
  intros r tok. unfold has_class, elem. f_equal. by apply get_map_proj.
Qed.

(** ** Scroll animations: what the observer callback does *)

Lemma observerCallback_from i entries s r :
  let body := λ (entry : ref * bool) (_ : nat),
    if snd entry then
      classList_add (fst entry) "visible";;
      unobserve (fst entry)
    else ret tt in
  let s' := exec (forEach_from i entries body) s in
  visible s' r =
    visible s r || (intersecting entries r && bool_decide (r < length (dom s))) ∧
  observer s' = List.filter (λ x, negb (intersecting entries x)) <$> observer s ∧
  length (dom s') = length (dom s).
Proof.
  intros body. revert i s. induction entries as [|[x b] entries IH]; intros i s.
  - cbn zeta. unfold exec. simpl. split_and!; [by rewrite orb_false_r| |done].
    destruct (observer s) as [l|]; [|done]. simpl. f_equal.
    induction l as [|y l IHl]; [done|]. simpl. by rewrite <- IHl.
  - cbn zeta. unfold exec. cbn [forEach_from].
    destruct b.
    + set (s1 := set_observer
                   (option_map (List.filter (λ y, negb (x =? y))) (observer s))
                   (set_dom (alter (with_classList (add_token "visible")) x) s)).
      rewrite (bind_Ok (body (x, true) i) _ s tt s1) by reflexivity.
      destruct (IH (S i) s1) as (Hv & Ho & Hl). unfold exec in Hv, Ho, Hl.
      assert (length (dom s1) = length (dom s)) as Hlen.
      { unfold s1. state_fields. apply length_alter. }
      split_and!.
      * rewrite Hv, Hlen. cbn [intersecting existsb fst snd]. rewrite andb_true_r.
        fold (intersecting entries r).
        assert (visible s1 r =
                visible s r || ((x =? r) && bool_decide (r < length (dom s)))) as ->.
        { unfold visible, has_class, elem, s1. state_fields.
          destruct (Nat.eqb_spec x r) as [->|Hne]; [|by rewrite get_alter_ne, orb_false_r].
          cbn [andb].
          destruct (decide (r < length (dom s))) as [Hr|Hr].
          - rewrite bool_decide_eq_true_2 by done.
            rewrite get_alter_eq by done. cbn [classList with_classList].
            rewrite contains_add_token, String.eqb_refl. by rewrite orb_true_r.
          - rewrite bool_decide_eq_false_2 by done.
            unfold get. rewrite list_lookup_alter_eq.
            rewrite lookup_ge_None_2 by lia. done. }
        destruct (visible s r), (x =? r), (intersecting entries r),
          (bool_decide (r < length (dom s))); done.
      * rewrite Ho. unfold s1. state_fields.
        destruct (observer s) as [l|]; [|done]. simpl. f_equal.
        clear. induction l as [|y l IHl]; [done|].
        cbn [List.filter intersecting existsb fst snd]. rewrite andb_true_r.
        fold (intersecting entries y).
        destruct (Nat.eqb_spec x y) as [->|Hne]; cbn [negb orb].
        -- exact IHl.
        -- cbn [List.filter]. destruct (intersecting entries y); cbn [negb];
             by rewrite IHl.
      * by rewrite Hl.
    + rewrite (bind_Ok (body (x, false) i) _ s tt s) by reflexivity.
      destruct (IH (S i) s) as (Hv & Ho & Hl). unfold exec in Hv, Ho, Hl.
      cbn [intersecting existsb fst snd]. rewrite andb_false_r. cbn [orb].
      fold (intersecting entries r). split_and!; [done| |done].
      rewrite Ho. destruct (observer s) as [l|]; [|done]. simpl. f_equal.
      apply filter_ext_eq. intros y.
      cbn [intersecting existsb fst snd]. by rewrite andb_false_r.
Qed.

(** X13.  The observer callback completes on any list of entries.  After
    it an element is visible exactly when it was visible before or is the
    target of an entry that reports an intersection; those targets, and
    only those, are dropped from the observed set.  Entries that report no
    intersection change nothing. *)
Theorem observer_callback_effect (entries : list (ref * bool)) (s : state) (r : ref) :
  let s' := exec (observerCallback entries) s in
  result (observerCallback entries) s = Ok tt ∧
  visible s' r =
    visible s r || (intersecting entries r && bool_decide (r < length (dom s))) ∧
  observer s' = List.filter (λ x, negb (intersecting entries x)) <$> observer s.
Proof.
  cbn zeta. split.
  { unfold result. by rewrite (never_throws_Ok _ s (observerCallback_total entries)). }
  destruct (observerCallback_from 0 entries s r) as (H1 & H2 & _).
  by split.
Qed.

(** ** Contact form: a page without the success element *)

(** X14.  On a page whose form fields are in place but which has no
    element with id [form-success], a submit that passes validation
    throws when it comes to showing the success message: the inline
    messages have been cleared, but the form is not reset and no timeout
    is scheduled. *)
Theorem valid_submit_without_success_element (s : state)
    (ni ne ei ee mi me : ref) :
  form_markup s ni ne ei ee mi me → acceptable s ni ei mi →
  head (select_all (SelId "form-success") (dom s)) = None →
  let s' := exec handleFormSubmit s in
  result handleFormSubmit s = Throw TypeError ∧
  (textContent (elem s' ne) = [] ∧ textContent (elem s' ee) = [] ∧
   textContent (elem s' me) = []) ∧
  (∀ r, value (elem s' r) = value (elem s r)) ∧
  (∀ r, style_display (elem s' r) = style_display (elem s r)) ∧
  timers s' = timers s.
Proof.
  intros Hfm Hok Hnone. cbn zeta.
  pose proof (handleFormSubmit_eq s ni ne ei ee mi me Hfm) as Heq. cbn zeta in Heq.
  rewrite (acceptable_valid _ _ _ _ Hok), Hnone in Heq.
  unfold exec, result. rewrite Heq. cbn [fst snd].
  destruct Hok as (Hn & He & Hv & Hm). unfold entered in *.
  split_and!; [done| | | | | |done].
  - rewrite rejected_text_name by done. rewrite field_error_filled by done. done.
  - rewrite rejected_text_email by done. rewrite field_error_filled by done.
    by rewrite Hv.
  - rewrite rejected_text_message by done. rewrite field_error_filled by done. done.
  - intros r. by apply rejected_value.
  - intros r. by apply rejected_display.
Qed.

Lemma valid_submit_without_success_element_witness :
  let s := Sample.fill "Ann" "ann@example.org" "hello"
             (load (Sample.fresh (Sample.without 17 Sample.markup) ∅ false)) in
  (form_markup s 11 12 13 14 15 16 ∧ acceptable s 11 13 15 ∧
   head (select_all (SelId "form-success") (dom s)) = None) ∧
  let s' := exec handleFormSubmit s in
  result handleFormSubmit s = Throw TypeError ∧
  (textContent (elem s' 12) = [] ∧ textContent (elem s' 14) = [] ∧
   textContent (elem s' 16) = []) ∧
  (∀ r, value (elem s' r) = value (elem s r)) ∧
  (∀ r, style_display (elem s' r) = style_display (elem s r)) ∧
  timers s' = timers s.
Proof.
  cbn zeta. split.
  - split_and!; [by constructor|by split_and!|reflexivity].
  - apply (valid_submit_without_success_element
             (Sample.fill "Ann" "ann@example.org" "hello"
                (load (Sample.fresh (Sample.without 17 Sample.markup) ∅ false)))
             11 12 13 14 15 16);
      [by constructor|by split_and!|reflexivity].
Defined.

(** ** Contact form: the error mark *)

Global Instance class_kept_refl tok : Reflexive (class_kept tok).
Proof. intros s r H. exact H. Qed.

Global Instance class_kept_trans tok : Transitive (class_kept tok).
Proof. intros s1 s2 s3 H1 H2 r H. by apply H2, H1. Qed.

Lemma class_kept_class tok s r f :
  (∀ l, contains tok l = true → contains tok (f l) = true) →
  class_kept tok s (set_dom (alter (with_classList f) r) s).
Proof.
  intros Hf r' H. unfold has_class, elem in *. state_fields.
  destruct (decide (r = r')) as [<-|Hne]; [|by rewrite get_alter_ne].
  unfold get in *. rewrite list_lookup_alter_eq.
  destruct (dom s !! r); simpl in *; [by apply Hf|done].
Qed.

Lemma class_kept_field tok s r f :
  (∀ e, classList (f e) = classList e) →
  class_kept tok s (set_dom (alter f r) s).
Proof.
  intros Hf r' H. unfold has_class, elem in *. state_fields.
  by rewrite (get_alter_proj classList).
Qed.

Lemma class_kept_reset tok s form :
  class_kept tok s (set_dom (reset_controls form) s).
Proof.
  intros r H. unfold has_class, elem in *. state_fields.
  rewrite <- H. f_equal. apply get_map_proj. by apply reset_controls_proj.
Qed.

(** For a class the script adds but never removes or toggles. *)
Ltac class_leaf :=
  first
    [ apply preserved_modify; intros ?;
      first
        [ by intros ? ?
        | apply class_kept_reset
        | apply class_kept_field; done
        | apply class_kept_class; intros ? ?;
          rewrite ?contains_add_token, ?contains_remove_token;
          by repeat match goal with H : _ = true |- _ => rewrite H end ]
    | by intros ? ? ? ].

Lemma handler_error_kept h : preserved (class_kept "error") (run_handler h).
Proof.
  destruct h; unfold_script; cbn [validateFields]; unfold_script;
    preserve; class_leaf.
Qed.

Lemma callback_error_kept tid cb :
  preserved (class_kept "error") (run_callback tid cb).
Proof. destruct cb; unfold_components; preserve; class_leaf. Qed.

Lemma observerCallback_error_kept entries :
  preserved (class_kept "error") (observerCallback entries).
Proof. unfold_components. preserve; class_leaf. Qed.

(** X15.  Nothing in the script removes the class [error] from a field:
    once a submit has marked a field invalid the mark stays through every
    later event, including a later submit that is accepted and resets the
    form. *)
Theorem error_mark_sticks (s s' : state) (evs : list event) (r : ref) :
  s' ∈ trace evs s → has_class s r "error" = true →
  has_class s' r "error" = true.
Proof.
  intros Hs. revert r. change (class_kept "error" s s').
  revert Hs. apply (trace_preserved (class_kept "error")).
  - apply handler_error_kept.
  - apply callback_error_kept.
  - apply observerCallback_error_kept.
  - by intros ? ? ? ?.
  - by intros ? ? ? ?.
  - by intros ? ? ? ?.
  - by intros ? ? ? ?.
  - intros s0 r0 v. by apply class_kept_field.
Qed.

Lemma error_mark_sticks_witness :
  let s := step (Submit 10) Sample.start in
  let evs := [Input 11 (js "Ann"); Input 13 (js "ann@example.org");
              Input 15 (js "hello"); Submit 10] in
  let s' := step (Submit 10) (Sample.fill "Ann" "ann@example.org" "hello" s) in
  (s' ∈ trace evs s ∧ has_class s 11 "error" = true) ∧
  has_class s' 11 "error" = true.
Proof.
  assert (step (Submit 10)
            (Sample.fill "Ann" "ann@example.org" "hello" (step (Submit 10) Sample.start))
          ∈ trace [Input 11 (js "Ann"); Input 13 (js "ann@example.org");
                   Input 15 (js "hello"); Submit 10] (step (Submit 10) Sample.start))
    as Hin.
  { cbn [trace]. do 4 apply list_elem_of_further. apply list_elem_of_here. }
  cbn zeta. split.
  - split; [exact Hin|reflexivity].
  - apply (error_mark_sticks (step (Submit 10) Sample.start) _
             [Input 11 (js "Ann"); Input 13 (js "ann@example.org");
              Input 15 (js "hello"); Submit 10] 11);
      [exact Hin|reflexivity].
Defined.

(** ** Email addresses *)

(** X16.  [validateEmail] accepts exactly the strings made of a
    non-empty part, an at sign, a non-empty part, a dot and a non-empty
    part, where no part contains white space or an at sign (dots are
    allowed anywhere in the parts). *)
Theorem email_accepted_iff (email : jsstring) :
  validateEmail email = true ↔
  ∃ l d t, email = l ++ 64%N :: d ++ 46%N :: t ∧
    l ≠ [] ∧ d ≠ [] ∧ t ≠ [] ∧
    Forall (λ c, not_space_at c = true) l ∧
    Forall (λ c, not_space_at c = true) d ∧
    Forall (λ c, not_space_at c = true) t.
Proof. apply validateEmail_shape. Qed.

Lemma not_space_at_spec c :
  not_space_at c = true ↔ is_js_space c = false ∧ c ≠ 64%N.
Proof.
  unfold not_space_at. rewrite andb_true_iff, !negb_true_iff, N.eqb_neq. tauto.
Qed.

Lemma count_at_none (l : jsstring) :
  Forall (λ c, not_space_at c = true) l → count_occ N.eq_dec l 64%N = 0.
Proof.
  induction 1 as [|c l Hc _ IH]; [done|].
  apply not_space_at_spec in Hc as [_ Hc]. by rewrite count_occ_cons_neq.
Qed.

Lemma no_space_part (l : jsstring) :
  Forall (λ c, not_space_at c = true) l → Forall (λ c, is_js_space c = false) l.
Proof.
  intros H. eapply Forall_impl; [exact H|].
  intros c Hc. by apply not_space_at_spec in Hc as [? _].
Qed.

(** X17.  Whatever [validateEmail] accepts contains exactly one at sign
    and no white space, has at least five code units, and neither starts
    nor ends with the at sign. *)
Theorem email_accepted_only_if (email : jsstring) :
  validateEmail email = true →
  count_occ N.eq_dec email 64%N = 1 ∧
  Forall (λ c, is_js_space c = false) email ∧
  5 ≤ length email ∧
  head email ≠ Some 64%N ∧ last email ≠ Some 64%N.
Proof.
  intros (l & d & t & -> & Hl & Hd & Ht & Fl & Fd & Ft)%validateEmail_shape.
  split_and!.
  - rewrite count_occ_app, count_occ_cons_eq by done.
    rewrite count_occ_app, count_occ_cons_neq by done.
    rewrite !count_at_none by done. done.
  - apply Forall_app. split; [by apply no_space_part|].
    apply Forall_cons. split; [done|].
    apply Forall_app. split; [by apply no_space_part|].
    apply Forall_cons. split; [done|by apply no_space_part].
  - rewrite length_app. cbn [length]. rewrite length_app. cbn [length].
    destruct l, d, t; try done. simpl. lia.
  - destruct l as [|c l]; [done|]. simpl.
    apply Forall_cons in Fl as [Hc _]. apply not_space_at_spec in Hc as [_ Hc].
    congruence.
  - rewrite last_app. cbn [last]. rewrite last_cons, last_app. cbn [last].
    rewrite last_cons.
    destruct (last t) as [c|] eqn:E.
    + simpl. apply last_Some_elem_of in E.
      rewrite Forall_forall in Ft. apply Ft in E.
      apply not_space_at_spec in E as [_ Hc]. congruence.
    + apply last_None in E. done.
Qed.

Lemma email_accepted_only_if_witness :
  validateEmail (js "ann@example.org") = true ∧
  count_occ N.eq_dec (js "ann@example.org") 64%N = 1 ∧
  Forall (λ c, is_js_space c = false) (js "ann@example.org") ∧
  5 ≤ length (js "ann@example.org") ∧
  head (js "ann@example.org") ≠ Some 64%N ∧ last (js "ann@example.org") ≠ Some 64%N.
Proof.
  split; [reflexivity|].
  apply (email_accepted_only_if (js "ann@example.org")). reflexivity.
Defined.

(** ** The typing effect on a freshly loaded page *)

Lemma initDarkMode_timers : preserved (kept (λ s, (timers s, nextTimerId s, now s))) initDarkMode.
Proof. unfold_components. preserve; kept_leaf. Qed.

Lemma prepared_timers s :
  (timers (prepared s), nextTimerId (prepared s), now (prepared s)) =
  (timers s, nextTimerId s, now s).
Proof.
  etrans; [by apply (prepared_kept (λ s, (timers s, nextTimerId s, now s)))|done].
Qed.

Lemma prepared_text s r :
  head (select_all (SelId "year") (dom s)) ≠ Some r →
  textContent (elem (prepared s) r) = textContent (elem s r).
Proof.
  intros Hr. unfold prepared, exec. rewrite setCopyrightYear_eq. cbn [snd].
  set (s2 := (setupScrollAnimations (wired s)).2).
  assert (fixtures s2 = fixtures (wired s)) as Hf.
  { by apply (setupScrollAnimations_kept fixtures). }
  assert (textContent <$> dom s2 = textContent <$> dom s) as Ht.
  { change (dom s) with (dom (wired s)).
    apply (setupScrollAnimations_kept (λ s, textContent <$> dom s)); [done|].
    intros s0 r0 v. state_fields. by apply map_alter_proj. }
  unfold fixtures in Hf. injection Hf as Hthis _ _ _ _.
  rewrite Hthis. cbn [wired set_listeners set_this this bound_to yearElement].
  destruct (head (select_all (SelId "year") (dom s))) as [y|].
  - unfold elem. state_fields. rewrite get_alter_ne by congruence.
    by apply get_map_proj.
  - unfold elem. by apply get_map_proj.
Qed.

(** The state in which [init] starts the typing effect, when it gets
    there. *)
Lemma load_typing s r :
  head (select_all (SelClass "typing-text") (dom s)) = Some r →
  head (select_all (SelId "year") (dom s)) ≠ Some r →
  result init s = Ok tt →
  ∃ s4, load s = exec typeEffect s4 ∧
    head (select_all (SelClass "typing-text") (dom s4)) = Some r ∧
    textContent (elem s4 r) = textContent (elem s r) ∧
    timers s4 = timers s ∧ nextTimerId s4 = nextTimerId s.
Proof.
  intros Hr Hy Hok. unfold result in Hok. rewrite init_eq, start_components_eq in Hok.
  fold (prepared s) in Hok.
  rewrite load_eq. unfold exec, bind in *.
  pose proof (initDarkMode_proj textContent (λ _ _, eq_refl) (prepared s)) as Htext.
  pose proof (initDarkMode_class "typing-text" ltac:(done) ltac:(done) ltac:(done)
                (prepared s)) as Hcls.
  pose proof (initDarkMode_timers (prepared s)) as Htm.
  unfold kept in Htext, Hcls, Htm. rewrite prepared_timers in Htm.
  destruct (initDarkMode (prepared s)) as [[[]|e] s4]; cbn [fst snd] in *; [|done].
  assert (head (select_all (SelClass "typing-text") (dom s4)) = Some r) as Hr4.
  { rewrite (select_class_ext _ _ _ Hcls).
    rewrite (select_all_ext _ (dom (prepared s)) (dom s)); [done|].
    apply (prepared_proj (matches (SelClass "typing-text"))); done. }
  exists s4. split_and!.
  - unfold start_typing. run_script. by rewrite Hr4.
  - done.
  - unfold elem. rewrite (get_map_proj textContent _ _ r Htext).
    by apply prepared_text.
  - by injection Htm.
  - by injection Htm.
Qed.

(** X18.  On a page with an element of class [typing-text], loaded with
    no timers pending, [init] (when it completes) starts the typing
    effect on that element's own text: right after loading the element is
    empty, [100 * k] milliseconds later, and until the next tick, it shows
    the first [k] characters, and from one tick after the last character
    on it shows the whole text again. *)
Theorem load_starts_typing (s : state) (r : ref) (k : nat) (rem extra : N) :
  head (select_all (SelClass "typing-text") (dom s)) = Some r →
  head (select_all (SelId "year") (dom s)) ≠ Some r →
  timers s = [] → result init s = Ok tt →
  let text := textContent (elem s r) in
  k ≤ length text → (rem < 100)%N →
  textContent (elem (load s) r) = [] ∧
  textContent (elem (elapse (100 * N.of_nat k + rem) (load s)) r) = take k text ∧
  textContent (elem (elapse (100 * (N.of_nat (length text) + 1) + extra) (load s)) r)
    = text.
Proof.
  intros Hr Hy Htimers Hok text Hk Hrem.
  destruct (load_typing s r Hr Hy Hok) as (s4 & -> & Hr4 & Ht4 & Htm & _).
  assert (timers_wf s4) as Hwf.
  { split; rewrite Htm, Htimers; [apply NoDup_nil_2|].
    intros t Ht. by apply elem_of_nil in Ht. }
  assert (no_typing s4) as Hno.
  { intros t Ht. rewrite Htm, Htimers in Ht. by apply elem_of_nil in Ht. }
  pose proof (typeEffect_phase s4 r Hr4 Hwf Hno) as H0. rewrite Ht4 in H0.
  fold text in H0. split_and!.
  - unfold exec. rewrite (typeEffect_eq s4 r Hr4). unfold elem. cbn [snd].
    state_fields. rewrite get_alter_eq; [done|by eapply head_select_all_lt].
  - destruct (elapse_typing_phase _ _ _ _ (100 * N.of_nat k + rem) _ H0)
      as [_ [(q & rem' & Hj & Hrem' & Hat)|[Hj _]]]; [|lia].
    assert (q = k) as -> by lia.
    by destruct Hat as (_ & _ & _ & _ & Htext & _).
  - destruct (elapse_typing_phase _ _ _ _
                (100 * (N.of_nat (length text) + 1) + extra) _ H0)
      as [_ [(q & rem' & Hj & Hrem' & Hat)|[_ Hdone]]].
    + destruct Hat as (_ & _ & _ & _ & _ & Hq). lia.
    + by destruct Hdone as (_ & _ & ?).
Qed.

Lemma load_starts_typing_witness :
  let s := Sample.fresh Sample.markup ∅ true in
  let text := textContent (elem s 7) in
  (head (select_all (SelClass "typing-text") (dom s)) = Some 7 ∧
   head (select_all (SelId "year") (dom s)) ≠ Some 7 ∧
   timers s = [] ∧ result init s = Ok tt ∧
   2 ≤ length text ∧ (99 < 100)%N) ∧
  textContent (elem (load s) 7) = [] ∧
  textContent (elem (elapse (100 * N.of_nat 2 + 99) (load s)) 7) = take 2 text ∧
  textContent (elem (elapse (100 * (N.of_nat (length text) + 1) + 0) (load s)) 7)
    = text.
Proof.
  cbn zeta. split.
  - split_and!; [reflexivity|vm_compute; discriminate|reflexivity|reflexivity
                 |vm_compute; lia|lia].
  - apply (load_starts_typing (Sample.fresh Sample.markup ∅ true) 7 2 99 0);
      [reflexivity|vm_compute; discriminate|reflexivity|reflexivity
      |vm_compute; lia|lia].
Defined.

(** ** How [init] ends *)

(** X4.  [init] throws in exactly one situation: the page is to be made
    dark (the stored preference is "dark", or there is none and the
    visitor's system prefers dark) and the theme toggle or the icon inside
    it is missing.  In every other case it completes, whatever else the
    page lacks.  When it throws, the typing effect has not been started:
    no timer has been scheduled and no text but the year has changed. *)
Theorem init_throws_only_for_theme_icon (s : state) :
  result init s =
    (if dark_rule s then
       match markup_icon (dom s) with
       | Some _ => Ok tt
       | None => Throw TypeError
       end
     else Ok tt) ∧
  match result init s with
  | Ok _ => True
  | Throw _ =>
      timers (load s) = timers s ∧
      ∀ r, head (select_all (SelId "year") (dom s)) ≠ Some r →
           textContent (elem (load s) r) = textContent (elem s r)
  end.
Proof.
  split; [apply init_result|].
  assert (init s = (initDarkMode;; start_typing) (prepared s)) as Hinit.
  { by rewrite init_eq, start_components_eq. }
  unfold result, load, exec. rewrite Hinit. unfold bind.
  pose proof (initDarkMode_proj textContent (λ _ _, eq_refl) (prepared s)) as Htext.
  pose proof (initDarkMode_timers (prepared s)) as Htm.
  unfold kept in Htext, Htm. rewrite prepared_timers in Htm.
  destruct (initDarkMode (prepared s)) as [[[]|e] s4]; cbn [fst snd] in *.
  - destruct (typing_start_total s4) as [[] Ht].
    change ((start_typing s4).1 = Ok tt) in Ht. by rewrite Ht.
  - split; [by injection Htm|].
    intros r Hr. unfold elem. rewrite (get_map_proj textContent _ _ r Htext).
    by apply prepared_text.
Qed.

(** ** Mobile menu: what a toggle touches *)

(** X19.  [toggleMobileMenu] flips the class [active] on the menu panel
    and on the hamburger alike, so the two stay in step; apart from that
    class on these two elements and the hamburger's [aria-expanded]
    attribute it changes no class, attribute, text, value or display of
    any element. *)
Theorem menu_toggle_footprint (s : state) (h m : ref) :
  hamburger (this s) = Some h → mobileMenu (this s) = Some m → h ≠ m →
  h < length (dom s) → m < length (dom s) →
  let s' := exec toggleMobileMenu s in
  has_class s' h "active" = negb (has_class s h "active") ∧
  has_class s' m "active" = negb (has_class s m "active") ∧
  (∀ r tok, tok ≠ "active" → has_class s' r tok = has_class s r tok) ∧
  (∀ r tok, r ≠ h → r ≠ m → has_class s' r tok = has_class s r tok) ∧
  (∀ r name, r ≠ h →
     attributes (elem s' r) !! name = attributes (elem s r) !! name) ∧
  (∀ name, name ≠ "aria-expanded" →
     attributes (elem s' h) !! name = attributes (elem s h) !! name) ∧
  (∀ r, textContent (elem s' r) = textContent (elem s r) ∧
        value (elem s' r) = value (elem s r) ∧
        style_display (elem s' r) = style_display (elem s r)).
Proof.
  intros Hh Hm Hne Hlh Hlm. cbn zeta. unfold exec.
  rewrite (toggleMobileMenu_eq s h m Hh Hm). cbn [snd].
  unfold has_class, elem, toggled_menu. state_fields.
  assert (∀ r tok,
    contains tok (classList (get
      (alter (with_attributes (insert "aria-expanded"
                (string_of_bool (negb (marked_expanded s))))) h
         (alter (with_classList (toggle_token "active")) h
            (alter (with_classList (toggle_token "active")) m (dom s)))) r)) =
    if decide (r = h ∨ r = m) then
      (if String.eqb tok "active" then negb (contains "active" (classList (get (dom s) r)))
       else contains tok (classList (get (dom s) r)))
    else contains tok (classList (get (dom s) r))) as Hcls.
  { intros r tok. rewrite (get_alter_proj classList) by done.
    destruct (decide (r = h)) as [->|Hrh].
    - rewrite decide_True by auto.
      rewrite get_alter_eq by (by rewrite length_alter).
      rewrite get_alter_ne by done.
      cbn [classList with_classList]. apply contains_toggle_token.
    - rewrite (get_alter_ne _ h r) by done.
      destruct (decide (r = m)) as [->|Hrm].
      + rewrite decide_True by auto. rewrite get_alter_eq by done.
        cbn [classList with_classList]. apply contains_toggle_token.
      + rewrite decide_False by tauto. by rewrite get_alter_ne. }
  split_and!.
  - rewrite Hcls. by rewrite decide_True by auto.
  - rewrite Hcls. by rewrite decide_True by auto.
  - intros r tok Htok. rewrite Hcls.
    destruct (String.eqb_spec tok "active"); [done|]. by case_decide.
  - intros r tok H1 H2. rewrite Hcls. by rewrite decide_False by tauto.
  - intros r name Hr. rewrite (get_alter_ne _ h r) by done.
    by rewrite !(get_alter_proj attributes).
  - intros name Hname. rewrite get_alter_eq by (by rewrite !length_alter).
    cbn [attributes with_attributes]. rewrite lookup_insert_ne by done.
    by rewrite !(get_alter_proj attributes).
  - intros r. split_and!.
    + by rewrite !(get_alter_proj textContent).
    + by rewrite !(get_alter_proj value).
    + by rewrite !(get_alter_proj style_display).
Qed.

Lemma menu_toggle_footprint_witness :
  let s := Sample.start in
  (hamburger (this s) = Some 2 ∧ mobileMenu (this s) = Some 3 ∧ 2 ≠ 3 ∧
   2 < length (dom s) ∧ 3 < length (dom s)) ∧
  let s' := exec toggleMobileMenu s in
  has_class s' 2 "active" = negb (has_class s 2 "active") ∧
  has_class s' 3 "active" = negb (has_class s 3 "active") ∧
  (∀ r tok, tok ≠ "active" → has_class s' r tok = has_class s r tok) ∧
  (∀ r tok, r ≠ 2 → r ≠ 3 → has_class s' r tok = has_class s r tok) ∧
  (∀ r name, r ≠ 2 →
     attributes (elem s' r) !! name = attributes (elem s r) !! name) ∧
  (∀ name, name ≠ "aria-expanded" →
     attributes (elem s' 2) !! name = attributes (elem s 2) !! name) ∧
  (∀ r, textContent (elem s' r) = textContent (elem s r) ∧
        value (elem s' r) = value (elem s r) ∧
        style_display (elem s' r) = style_display (elem s r)).
Proof.
  cbn zeta. split.
  - split_and!; [reflexivity|reflexivity|lia|vm_compute; lia|vm_compute; lia].
  - apply (menu_toggle_footprint Sample.start 2 3);
      [reflexivity|reflexivity|lia|vm_compute; lia|vm_compute; lia].
Defined.

(** ** Contact form: a page without one of the fields *)

Lemma validateField_missing b field s :
  head (select_all (SelId field) (dom s)) = None →
  validateField b field s = (Throw TypeError, s).
Proof. intros H. unfold validateField. run_script. by rewrite H. Qed.

Lemma showError_none s input msg :
  next_sibling (dom s) input = None →
  showError input msg s = (Throw TypeError, s).
Proof.
  intros H. unfold showError, get_nextElementSibling, gets, bind. by rewrite H.
Qed.

Lemma validateField_outcome b field s :
  (∃ b', (validateField b field s).1 = Ok b') ∨
  (validateField b field s).1 = Throw TypeError.
Proof.
  unfold validateField. run_script.
  destruct (head (select_all (SelId field) (dom s))) as [input|]; [|by right].
  run_script.
  assert (∀ msg,
    (∃ b', ((showError input msg;; ret false) s).1 = Ok b') ∨
    ((showError input msg;; ret false) s).1 = Throw TypeError) as Hshow.
  { intros msg. destruct (next_sibling (dom s) input) as [err|] eqn:E.
    - rewrite (bind_Ok _ _ _ _ _ (showError_eq s input err msg E)).
      left. by exists false.
    - rewrite (bind_Throw _ _ _ _ _ (showError_none s input msg E)). by right. }
  destruct (falsy _); [apply Hshow|].
  destruct (_ && _); [apply Hshow|]. left. by exists b.
Qed.

Lemma validateField_kept {B} (φ : element → B) b field :
  (∀ f e, φ (with_classList f e) = φ e) →
  (∀ f e, φ (with_textContent f e) = φ e) →
  preserved (kept (λ s, (φ <$> dom s, timers s))) (validateField b field).
Proof.
  intros H1 H2. unfold_script. preserve.
  all: apply preserved_modify; intros ?; unfold kept; state_fields.
  all: f_equal; by apply map_alter_proj.
Qed.

Lemma validateFields_kept {B} (π : state → B) b fields :
  (∀ b field, preserved (kept π) (validateField b field)) →
  preserved (kept π) (validateFields b fields).
Proof.
  intros H. revert b. induction fields as [|f fields IH]; intros b; simpl.
  - apply preserved_ret; apply _.
  - apply preserved_bind; [apply _..|apply H|]. intros b'. apply IH.
Qed.

Lemma validateFields_missing b fields field s :
  field ∈ fields → head (select_all (SelId field) (dom s)) = None →
  (validateFields b fields s).1 = Throw TypeError.
Proof.
  revert b s. induction fields as [|f fields IH]; intros b s Hin Hnone.
  - by apply elem_of_nil in Hin.
  - cbn [validateFields]. unfold bind.
    pose proof (validateField_kept el_id b f (λ _ _, eq_refl) (λ _ _, eq_refl) s) as Hk.
    pose proof (validateField_outcome b f s) as Hout.
    destruct (validateField b f s) as [[b''|e] s'] eqn:E; cbn [fst snd] in *.
    + apply elem_of_cons in Hin as [->|Hin].
      { by rewrite validateField_missing in E. }
      apply IH; [done|]. unfold kept in Hk. injection Hk as Hid _.
      by rewrite (select_all_id_ext _ (dom s') (dom s)).
    + destruct Hout as [[b' Hb]|Hb]; [done|]. by injection Hb as ->.
Qed.

(** X20.  On a page that lacks one of the three fields, every submit
    throws, whatever the fields that are there hold: the success message
    is not shown, no timeout is scheduled and no field loses its value. *)
Theorem submit_with_missing_field (s : state) (field : string) :
  field ∈ ["name"; "email"; "message"] →
  head (select_all (SelId field) (dom s)) = None →
  let s' := exec handleFormSubmit s in
  result handleFormSubmit s = Throw TypeError ∧
  (∀ r, value (elem s' r) = value (elem s r)) ∧
  (∀ r, style_display (elem s' r) = style_display (elem s r)) ∧
  timers s' = timers s.
Proof.
  intros Hin Hnone. cbn zeta.
  set (errs := select_all (SelClass "error-message") (dom s)).
  set (s1 := set_dom (cleared errs) (set_defaultPrevented true s)).
  assert (head (select_all (SelId field) (dom s1)) = None) as Hnone1.
  { unfold s1. state_fields.
    rewrite (select_all_id_ext _ (cleared errs (dom s)) (dom s)); [done|].
    by apply cleared_proj. }
  pose proof (validateFields_missing true ["name"; "email"; "message"] field s1
                Hin Hnone1) as Hthrow.
  pose proof (validateFields_kept (λ s, (value <$> dom s, timers s)) true
                ["name"; "email"; "message"]
                (λ b f, validateField_kept value b f (λ _ _, eq_refl) (λ _ _, eq_refl))
                s1) as Hval.
  pose proof (validateFields_kept (λ s, (style_display <$> dom s, timers s)) true
                ["name"; "email"; "message"]
                (λ b f, validateField_kept style_display b f
                          (λ _ _, eq_refl) (λ _ _, eq_refl))
                s1) as Hdis.
  unfold kept in Hval, Hdis.
  assert (handleFormSubmit s =
          (Throw TypeError, (validateFields true ["name"; "email"; "message"] s1).2))
    as Heq.
  { unfold handleFormSubmit. run_script. state_fields. unfold forEach.
    rewrite (bind_Ok _ _ _ _ _ (forEach_from_clear _ _ _)). fold errs. fold s1.
    destruct (validateFields true ["name"; "email"; "message"] s1) as [[b|e] s2] eqn:E;
      cbn [fst snd] in *; [done|].
    injection Hthrow as ->. by rewrite (bind_Throw _ _ _ _ _ E). }
  unfold exec, result. rewrite Heq. cbn [fst snd].
  injection Hval as Hv Ht. injection Hdis as Hd _.
  unfold s1 in Hv, Hd, Ht.
  cbn [dom timers set_dom set_defaultPrevented] in Hv, Hd, Ht.
  rewrite cleared_proj in Hv by done. rewrite cleared_proj in Hd by done.
  split_and!.
  - done.
  - intros r. unfold elem. by apply get_map_proj.
  - intros r. unfold elem. by apply get_map_proj.
  - done.
Qed.

Lemma submit_with_missing_field_witness :
  let s := Sample.fill "Ann" "ann@example.org" "hello"
             (load (Sample.fresh (Sample.without 15 Sample.markup) ∅ false)) in
  ("message" ∈ ["name"; "email"; "message"] ∧
   head (select_all (SelId "message") (dom s)) = None) ∧
  let s' := exec handleFormSubmit s in
  result handleFormSubmit s = Throw TypeError ∧
  (∀ r, value (elem s' r) = value (elem s r)) ∧
  (∀ r, style_display (elem s' r) = style_display (elem s r)) ∧
  timers s' = timers s.
Proof.
  assert ("message" ∈ ["name"; "email"; "message"]) as Hin.
  { do 2 apply list_elem_of_further. apply list_elem_of_here. }
  cbn zeta. split.
  - split; [exact Hin|reflexivity].
  - apply (submit_with_missing_field
             (Sample.fill "Ann" "ann@example.org" "hello"
                (load (Sample.fresh (Sample.without 15 Sample.markup) ∅ false)))
             "message");
      [exact Hin|reflexivity].
Defined.

(** ** Invariants along sequences of events *)

Global Instance inv_kept_refl Inv : Reflexive (inv_kept Inv).
Proof. intros s H. exact H. Qed.

Global Instance inv_kept_trans Inv : Transitive (inv_kept Inv).
Proof. intros s1 s2 s3 H1 H2 H. by apply H2, H1. Qed.

Lemma menu_in_step_ext h m s s' :
  this s' = this s →
  (λ e, contains "active" (classList e)) <$> dom s' =
    (λ e, contains "active" (classList e)) <$> dom s →
  attributes <$> dom s' = attributes <$> dom s →
  menu_in_step h m s → menu_in_step h m s'.
Proof.
  intros Ht Hc Ha (Hh & Hm & Hlh & Hlm & Hsync).
  assert (length (dom s') = length (dom s)) as Hlen.
  { by rewrite <- (length_fmap attributes), Ha, length_fmap. }
  unfold menu_in_step. rewrite Ht, Hlen. split_and!; try done.
  unfold menu_open, marked_expanded, has_class, elem in *. rewrite Ht, Hh, Hm in *.
  rewrite (get_map_proj (λ e, contains "active" (classList e)) _ _ m Hc).
  by rewrite (get_map_proj attributes _ _ h Ha).
Qed.

Ltac menu_leaf :=
  first
    [ apply preserved_modify; intros ?; unfold inv_kept;
      apply menu_in_step_ext; state_fields;
      first
        [ reflexivity
        | by apply reset_controls_proj
        | apply map_alter_proj; intros ?; cbn [classList with_classList];
          rewrite ?contains_add_token, ?contains_remove_token; done ]
    | intros ?; unfold inv_kept; apply menu_in_step_ext; reflexivity ].

Section MenuInStep.
Variables h m : ref.
Hypothesis distinct : h ≠ m.

Lemma toggleMobileMenu_in_step :
  preserved (inv_kept (menu_in_step h m)) toggleMobileMenu.
Proof using distinct.
  intros s (Hh & Hm & Hlh & Hlm & Hsync).
  destruct (toggleMobileMenu_flips s h m Hh Hm distinct Hlh Hlm)
    as (Ht & Hl & Ho & He).
  unfold exec in *. unfold menu_in_step. rewrite Ht, Hl, Ho, He, Hsync. done.
Qed.

Lemma handler_menu_in_step hd :
  preserved (inv_kept (menu_in_step h m)) (run_handler hd).
Proof using distinct.
  destruct hd; cbn [run_handler].
  - apply toggleMobileMenu_in_step.
  - unfold_script. preserve; menu_leaf.
  - unfold handleSmoothScroll.
    repeat first [apply toggleMobileMenu_in_step | preserve_step].
    all: unfold_script; menu_leaf.
  - unfold_script; cbn [validateFields]; unfold_script. preserve; menu_leaf.
  - unfold_script. preserve; menu_leaf.
Qed.

Lemma callback_menu_in_step tid cb :
  preserved (inv_kept (menu_in_step h m)) (run_callback tid cb).
Proof. destruct cb; unfold_components; preserve; menu_leaf. Qed.

Lemma observerCallback_menu_in_step entries :
  preserved (inv_kept (menu_in_step h m)) (observerCallback entries).
Proof. unfold_components. preserve; menu_leaf. Qed.

Lemma trace_menu_in_step evs s s' :
  s' ∈ trace evs s → menu_in_step h m s → menu_in_step h m s'.
Proof using distinct.
  apply (trace_preserved (inv_kept (menu_in_step h m))).
  - apply handler_menu_in_step.
  - apply callback_menu_in_step.
  - apply observerCallback_menu_in_step.
  - intros s0 b. unfold inv_kept. by apply menu_in_step_ext.
  - intros s0 y. unfold inv_kept. by apply menu_in_step_ext.
  - intros s0 f. unfold inv_kept. by apply menu_in_step_ext.
  - intros s0 t. unfold inv_kept. by apply menu_in_step_ext.
  - intros s0 r v. unfold inv_kept. apply menu_in_step_ext; state_fields;
      [done|by apply map_alter_proj..].
Qed.

End MenuInStep.

(** X21.  On a page with both the hamburger and the menu panel, if the
    panel is open exactly when the hamburger is marked expanded, this
    stays so through every sequence of events: clicks on the hamburger,
    clicks on links (which close an open menu), and everything else the
    page reacts to. *)
Theorem menu_stays_in_step (s s' : state) (evs : list event) (h m : ref) :
  hamburger (this s) = Some h → mobileMenu (this s) = Some m → h ≠ m →
  h < length (dom s) → m < length (dom s) →
  menu_open s = marked_expanded s →
  s' ∈ trace evs s →
  menu_open s' = marked_expanded s'.
Proof.
  intros Hh Hm Hne Hlh Hlm Hsync Hs.
  by destruct (trace_menu_in_step h m Hne evs s s' Hs) as (_ & _ & _ & _ & ?).
Qed.

Lemma menu_stays_in_step_witness :
  let s := Sample.start in
  let evs := [Click 2; Scroll 70; Click 4] in
  let s' := step (Click 4) (step (Scroll 70) (step (Click 2) s)) in
  (hamburger (this s) = Some 2 ∧ mobileMenu (this s) = Some 3 ∧ 2 ≠ 3 ∧
   2 < length (dom s) ∧ 3 < length (dom s) ∧
   menu_open s = marked_expanded s ∧ s' ∈ trace evs s) ∧
  menu_open s' = marked_expanded s'.
Proof.
  assert (step (Click 4) (step (Scroll 70) (step (Click 2) Sample.start))
          ∈ trace [Click 2; Scroll 70; Click 4] Sample.start) as Hin.
  { cbn [trace]. do 3 apply list_elem_of_further. apply list_elem_of_here. }
  cbn zeta. split.
  - split_and!; [reflexivity|reflexivity|lia|vm_compute; lia|vm_compute; lia
                 |reflexivity|exact Hin].
  - apply (menu_stays_in_step Sample.start _ [Click 2; Scroll 70; Click 4] 2 3);
      [reflexivity|reflexivity|lia|vm_compute; lia|vm_compute; lia
      |reflexivity|exact Hin].
Defined.

Lemma theme_in_step_ext s s' :
  this s' = this s → body s' = body s → localStorage s' = localStorage s →
  skeleton <$> dom s' = skeleton <$> dom s →
  (λ e, contains "dark-mode" (classList e)) <$> dom s' =
    (λ e, contains "dark-mode" (classList e)) <$> dom s →
  theme_in_step s → theme_in_step s'.
Proof.
  intros Ht Hb Hl Hk Hc (Htoggle & Hicon & Hbody & Hsync).
  destruct (skeleton_fields _ _ Hk) as (Hg & _ & Hp & Hlen).
  unfold theme_in_step. rewrite (theme_icon_tree s s' Ht Hp Hg), Ht, Hb, Hlen.
  split_and!; try done.
  unfold stored_preference, dark_visuals, has_class, elem in *. rewrite Hl, Hb.
  by rewrite (get_map_proj (λ e, contains "dark-mode" (classList e)) _ _ (body s) Hc).
Qed.

Ltac theme_leaf :=
  first
    [ apply preserved_modify; intros ?; unfold inv_kept;
      apply theme_in_step_ext; state_fields;
      first
        [ reflexivity
        | by apply reset_controls_proj
        | by apply map_alter_proj
        | apply map_alter_proj; intros ?; cbn [classList with_classList];
          rewrite ?contains_add_token, ?contains_remove_token; done ]
    | intros ?; unfold inv_kept; apply theme_in_step_ext; reflexivity ].

Lemma toggleDarkMode_in_step : preserved (inv_kept theme_in_step) toggleDarkMode.
Proof.
  intros s ([t Ht] & [icon Hi] & Hb & Hsync).
  destruct (toggleDarkMode_flips s t icon Ht Hi Hb)
    as (_ & Ht' & Hb' & Hl' & Hi' & _ & Hs' & _).
  unfold exec in *. unfold theme_in_step. rewrite Ht', Hb', Hl', Hi', Ht.
  split_and!; [by eexists|by eexists|done|done].
Qed.

Lemma handler_theme_in_step h : preserved (inv_kept theme_in_step) (run_handler h).
Proof.
  destruct h; cbn [run_handler].
  - unfold_script. preserve; theme_leaf.
  - apply toggleDarkMode_in_step.
  - unfold_script. preserve; theme_leaf.
  - unfold_script; cbn [validateFields]; unfold_script. preserve; theme_leaf.
  - unfold_script. preserve; theme_leaf.
Qed.

Lemma callback_theme_in_step tid cb :
  preserved (inv_kept theme_in_step) (run_callback tid cb).
Proof. destruct cb; unfold_components; preserve; theme_leaf. Qed.

Lemma observerCallback_theme_in_step entries :
  preserved (inv_kept theme_in_step) (observerCallback entries).
Proof. unfold_components. preserve; theme_leaf. Qed.

Lemma trace_theme_in_step evs s s' :
  s' ∈ trace evs s → theme_in_step s → theme_in_step s'.
Proof.
  apply (trace_preserved (inv_kept theme_in_step)).
  - apply handler_theme_in_step.
  - apply callback_theme_in_step.
  - apply observerCallback_theme_in_step.
  - intros s0 b. unfold inv_kept. by apply theme_in_step_ext.
  - intros s0 y. unfold inv_kept. by apply theme_in_step_ext.
  - intros s0 f. unfold inv_kept. by apply theme_in_step_ext.
  - intros s0 t. unfold inv_kept. by apply theme_in_step_ext.
  - intros s0 r v. unfold inv_kept. apply theme_in_step_ext; state_fields;
      [done|done|done|by apply map_alter_proj..].
Qed.

(** X22.  On a page with the theme toggle and its icon, once the stored
    preference says what the page looks like (as it does after any
    toggle), it keeps doing so through every sequence of events: the
    script changes the dark class and the stored value only together. *)
Theorem theme_stays_in_step (s s' : state) (evs : list event) (t icon : ref) :
  darkModeToggle (this s) = Some t → theme_icon s = Some icon →
  body s < length (dom s) →
  stored_preference s = Some (theme_literal (dark_visuals s)) →
  s' ∈ trace evs s →
  stored_preference s' = Some (theme_literal (dark_visuals s')).
Proof.
  intros Ht Hi Hb Hsync Hs.
  destruct (trace_theme_in_step evs s s' Hs) as (_ & _ & _ & ?); [|done].
  split_and!; [by eexists|by eexists|done|done].
Qed.

Lemma theme_stays_in_step_witness :
  let s := step (Click 5) Sample.start in
  let evs := [Click 2; Click 5; Submit 10; Elapse 250] in
  let s' := step (Elapse 250) (step (Submit 10) (step (Click 5) (step (Click 2) s))) in
  (darkModeToggle (this s) = Some 5 ∧ theme_icon s = Some 6 ∧
   body s < length (dom s) ∧
   stored_preference s = Some (theme_literal (dark_visuals s)) ∧
   s' ∈ trace evs s) ∧
  stored_preference s' = Some (theme_literal (dark_visuals s')).
Proof.
  assert (step (Elapse 250) (step (Submit 10) (step (Click 5) (step (Click 2)
            (step (Click 5) Sample.start))))
          ∈ trace [Click 2; Click 5; Submit 10; Elapse 250]
              (step (Click 5) Sample.start)) as Hin.
  { cbn [trace]. do 4 apply list_elem_of_further. apply list_elem_of_here. }
  cbn zeta. split.
  - split_and!; [reflexivity|reflexivity|vm_compute; lia|reflexivity|exact Hin].
  - apply (theme_stays_in_step (step (Click 5) Sample.start) _
             [Click 2; Click 5; Submit 10; Elapse 250] 5 6);
      [reflexivity|reflexivity|vm_compute; lia|reflexivity|exact Hin].
Defined.

(** ** Clicks on the two buttons *)

Lemma click_event evs s0 s r :
  listeners s0 = [] → s ∈ trace evs (load s0) →
  step (Click r) s =
  run_handlers (click_handlers (bound_to (dom s0)) (dom s0) r)
    (set_defaultPrevented false s).
Proof.
  intros Hl (_ & Hls & _)%after_load. cbn [step].
  rewrite dispatch_handlers. unfold handlers_for.
  by rewrite Hls, Hl, app_nil_l, wiring_click.
Qed.



(** X24.  At any time after start-up, a click on the theme toggle (an
    element that is neither the hamburger nor a link to a fragment, with
    its icon inside) runs [toggleDarkMode] once: the page goes from light
    to dark or back, the stored preference names the new look, and the
    icon shows the sun exactly when the page is dark. *)
Theorem theme_click_flips_theme (s0 s : state) (evs : list event) (t icon : ref) :
  listeners s0 = [] →
  head (select_all (SelClass "dark-mode-toggle") (dom s0)) = Some t →
  markup_icon (dom s0) = Some icon → body s0 < length (dom s0) →
  head (select_all (SelClass "hamburger") (dom s0)) ≠ Some t →
  t ∉ select_all SelAnchorHash (dom s0) →
  s ∈ trace evs (load s0) →
  let s' := step (Click t) s in
  dark_visuals s' = negb (dark_visuals s) ∧
  stored_preference s' = Some (theme_literal (dark_visuals s')) ∧
  icon_sun s' = dark_visuals s' ∧ icon_moon s' = negb (dark_visuals s').
Proof.
  intros Hl Ht Hi Hb Hh Ha Hs. cbn zeta. rewrite (click_event evs s0) by done.
  unfold click_handlers. cbn [bound_to hamburger darkModeToggle].
  rewrite decide_False by done. rewrite decide_True by done.
  rewrite decide_False by done. cbn [app]. rewrite run_handlers_one. cbn [run_handler].
  destruct (after_load _ _ _ Hs) as (Hthis & _ & Hbody & Hk & Hlen).
  assert (theme_icon (set_defaultPrevented false s) = Some icon) as Hicon.
  { rewrite <- Hi. change (markup_icon (dom s0)) with (theme_icon (wired s0)).
    destruct (skeleton_fields _ _ Hk) as (Hg & _ & Hp & _).
    apply theme_icon_tree; state_fields; [|done|done].
    by rewrite Hthis. }
  destruct (toggleDarkMode_flips (set_defaultPrevented false s) t icon)
    as (_ & _ & _ & _ & _ & Hd & Hst & Hsun & Hmoon);
    state_fields; rewrite ?Hthis, ?Hbody, ?Hlen; try done.
Qed.

Lemma theme_click_flips_theme_witness :
  let s0 := Sample.fresh Sample.markup ∅ true in
  let evs := [Click 5; Scroll 10] in
  let s := step (Scroll 10) (step (Click 5) (load s0)) in
  (listeners s0 = [] ∧
   head (select_all (SelClass "dark-mode-toggle") (dom s0)) = Some 5 ∧
   markup_icon (dom s0) = Some 6 ∧ body s0 < length (dom s0) ∧
   head (select_all (SelClass "hamburger") (dom s0)) ≠ Some 5 ∧
   (5 ∉ select_all SelAnchorHash (dom s0)) ∧
   s ∈ trace evs (load s0)) ∧
  let s' := step (Click 5) s in
  dark_visuals s' = negb (dark_visuals s) ∧
  stored_preference s' = Some (theme_literal (dark_visuals s')) ∧
  icon_sun s' = dark_visuals s' ∧ icon_moon s' = negb (dark_visuals s').
Proof.
  assert (step (Scroll 10) (step (Click 5) (load (Sample.fresh Sample.markup ∅ true)))
          ∈ trace [Click 5; Scroll 10] (load (Sample.fresh Sample.markup ∅ true)))
    as Hin.
  { cbn [trace]. do 2 apply list_elem_of_further. apply list_elem_of_here. }
  assert (5 ∉ select_all SelAnchorHash (dom (Sample.fresh Sample.markup ∅ true)))
    as Hout.
  { vm_compute. intros H. apply list_elem_of_singleton in H. lia. }
  cbn zeta. split.
  - split_and!; [reflexivity|reflexivity|reflexivity|vm_compute; lia
                 |vm_compute; discriminate|exact Hout|exact Hin].
  - apply (theme_click_flips_theme (Sample.fresh Sample.markup ∅ true) _
             [Click 5; Scroll 10] 5 6);
      [reflexivity|reflexivity|reflexivity|vm_compute; lia
      |vm_compute; discriminate|exact Hout|exact Hin].
Defined.
